(** * CertificationAgencyBlockchain: the node's chain manager, verified

    A shallow embedding of the Go node (packages [blockchain], [consensus],
    [storage], [api] and [network]) and the properties of its
    specification that can be settled on it.

    Conventions.
    - A Go [string] is a byte sequence: it is a [string] here (a list of
      8-bit [ascii]); [[]byte] is [list byte].
    - [uint32], [uint64] and [int64] are [Z] with the wrap-around written
      out where the code computes with them.
    - [time.Time] is a count of nanoseconds since the Unix epoch; every
      operation that reads the clock takes the instant as [now].
    - A Go [error] is its message; [nil] is [None]. *)

From Stdlib Require Import ZArith List String Ascii Lia Bool.
From Stdlib.Strings Require Import Byte.
From stdpp Require Import base gmap strings pretty.
Import ListNotations.
Local Open Scope string_scope.
Local Open Scope list_scope.
Local Open Scope Z_scope.

(** ** Bytes and fixed-width integers *)

Module bytes.

Definition byte_to_Z (b : byte) : Z := Z.of_N (Byte.to_N b).

Definition byte_of_Z (z : Z) : byte :=
  match Byte.of_N (Z.to_N (z mod 256)) with
  | Some b => b
  | None => Byte.x00
  end.

(** [[]byte(s)] and [string(bs)]. *)
Definition of_string (s : string) : list byte := list_byte_of_string s.
Definition to_string (bs : list byte) : string := string_of_list_byte bs.

(** Big-endian encoding of the low [8*n] bits of [z]. *)
Fixpoint be (n : nat) (z : Z) : list byte :=
  match n with
  | O => []
  | S k => byte_of_Z (Z.shiftr z (8 * Z.of_nat k)) :: be k z
  end.

(** Big-endian value of a byte sequence ([big.Int.SetBytes],
    [binary.BigEndian.Uint32]). *)
Definition be_val (bs : list byte) : Z :=
  fold_left (fun acc b => acc * 256 + byte_to_Z b) bs 0.

(** Two's complement reading of a [w]-bit value. *)
Definition signed (w : Z) (z : Z) : Z :=
  if z <? 2 ^ (w - 1) then z else z - 2 ^ w.

End bytes.

(** ** crypto/sha256 (FIPS 180-4) *)

Module sha256.

Definition mask : Z := 4294967295.
Definition w32 (x : Z) : Z := Z.land x mask.
Definition add (x y : Z) : Z := w32 (x + y).
Definition rotr (n x : Z) : Z :=
  Z.lor (Z.shiftr x n) (w32 (Z.shiftl x (32 - n))).
Definition not32 (x : Z) : Z := Z.lxor x mask.

Definition Ch (x y z : Z) := Z.lxor (Z.land x y) (Z.land (not32 x) z).
Definition Maj (x y z : Z) :=
  Z.lxor (Z.lxor (Z.land x y) (Z.land x z)) (Z.land y z).
Definition Sigma0 (x : Z) := Z.lxor (Z.lxor (rotr 2 x) (rotr 13 x)) (rotr 22 x).
Definition Sigma1 (x : Z) := Z.lxor (Z.lxor (rotr 6 x) (rotr 11 x)) (rotr 25 x).
Definition sigma0 (x : Z) := Z.lxor (Z.lxor (rotr 7 x) (rotr 18 x)) (Z.shiftr x 3).
Definition sigma1 (x : Z) := Z.lxor (Z.lxor (rotr 17 x) (rotr 19 x)) (Z.shiftr x 10).

(** The constants are not tabulated but computed as the standard defines
    them: the first 32 bits of the fractional part of the cube roots (for
    the 64 round constants) and of the square roots (for the initial
    state) of the first prime numbers. *)
Definition isPrime (n : Z) : bool :=
  (1 <? n)
  && forallb (fun d => negb (n mod Z.of_nat d =? 0))
             (seq 2 (Z.to_nat n - 2)).

Definition primes : list Z :=
  Eval vm_compute in List.filter isPrime (map Z.of_nat (seq 2 310)).

(** The integer cube root of [n], one bit at a time from bit [bit - 1]. *)
Fixpoint cubeRoot (bit : nat) (n r : Z) : Z :=
  match bit with
  | O => r
  | S b =>
      let c := r + 2 ^ Z.of_nat b in
      cubeRoot b n (if c * c * c <=? n then c else r)
  end.

Definition fracCubeRoot (p : Z) : Z := w32 (cubeRoot 36 (p * 2 ^ 96) 0).
Definition fracSquareRoot (p : Z) : Z := w32 (Z.sqrt (p * 2 ^ 64)).

Definition K : list Z := Eval vm_compute in map fracCubeRoot (firstn 64 primes).

Record state := mkState
  { sa : Z; sb : Z; sc : Z; sd : Z; se : Z; sf : Z; sg : Z; sh : Z }.

Definition init : state :=
  Eval vm_compute in
    let h := map fracSquareRoot primes in
    mkState (nth 0 h 0) (nth 1 h 0) (nth 2 h 0) (nth 3 h 0)
            (nth 4 h 0) (nth 5 h 0) (nth 6 h 0) (nth 7 h 0).

(** The message is padded with 0x80, zeros up to 56 mod 64, and the bit
    length on 64 bits. *)
Definition pad (msg : list byte) : list byte :=
  let n := Z.of_nat (length msg) in
  let k := (55 - n) mod 64 in
  msg ++ Byte.x80 :: repeat Byte.x00 (Z.to_nat k) ++ bytes.be 8 (8 * n).

(** The first [n] big-endian 32-bit words of a block. *)
Fixpoint words (n : nat) (bs : list byte) : list Z :=
  match n with
  | O => []
  | S k => bytes.be_val (firstn 4 bs) :: words k (skipn 4 bs)
  end.

(** Message schedule, newest word first: [rw] holds W[i-1], W[i-2], ... *)
Fixpoint schedule (n : nat) (rw : list Z) : list Z :=
  match n with
  | O => rw
  | S k =>
      let w := add (add (sigma1 (nth 1 rw 0)) (nth 6 rw 0))
                   (add (sigma0 (nth 14 rw 0)) (nth 15 rw 0)) in
      schedule k (w :: rw)
  end.

Definition round (s : state) (kw : Z * Z) : state :=
  let t1 := add (add (add (sh s) (Sigma1 (se s)))
                     (add (Ch (se s) (sf s) (sg s)) (fst kw))) (snd kw) in
  let t2 := add (Sigma0 (sa s)) (Maj (sa s) (sb s) (sc s)) in
  mkState (add t1 t2) (sa s) (sb s) (sc s) (add (sd s) t1) (se s) (sf s) (sg s).

Definition compress (s : state) (blk : list byte) : state :=
  let w := rev (schedule 48 (rev (words 16 blk))) in
  let r := fold_left round (combine K w) s in
  mkState (add (sa s) (sa r)) (add (sb s) (sb r)) (add (sc s) (sc r))
          (add (sd s) (sd r)) (add (se s) (se r)) (add (sf s) (sf r))
          (add (sg s) (sg r)) (add (sh s) (sh r)).

Fixpoint blocks (n : nat) (s : state) (bs : list byte) : state :=
  match n with
  | O => s
  | S k => blocks k (compress s (firstn 64 bs)) (skipn 64 bs)
  end.

(** [sha256.Sum256]: the 32-byte digest. *)
Definition Sum256 (msg : list byte) : list byte :=
  let p := pad msg in
  let s := blocks (length p / 64)%nat init p in
  bytes.be 4 (sa s) ++ bytes.be 4 (sb s) ++ bytes.be 4 (sc s) ++
  bytes.be 4 (sd s) ++ bytes.be 4 (se s) ++ bytes.be 4 (sf s) ++
  bytes.be 4 (sg s) ++ bytes.be 4 (sh s).

End sha256.

(** ** encoding/hex *)

Module hex.

Definition hextable : string := "0123456789abcdef".

Definition digit (z : Z) : ascii :=
  match String.get (Z.to_nat z) hextable with
  | Some c => c
  | None => "0"%char
  end.

(** [hex.EncodeToString]: two lowercase digits per byte. *)
Fixpoint EncodeToString (bs : list byte) : string :=
  match bs with
  | [] => EmptyString
  | b :: r =>
      let z := bytes.byte_to_Z b in
      String (digit (Z.shiftr z 4)) (String (digit (Z.land z 15)) (EncodeToString r))
  end.

(** [reverseHexTable]: the value of a digit of either case. *)
Definition fromHexChar (c : ascii) : option Z :=
  let n := Z.of_N (N_of_ascii c) in
  if (48 <=? n) && (n <=? 57) then Some (n - 48)
  else if (97 <=? n) && (n <=? 102) then Some (n - 97 + 10)
  else if (65 <=? n) && (n <=? 70) then Some (n - 65 + 10)
  else None.

(** [hex.DecodeString], whose error every caller drops: the bytes decoded
    before the first invalid digit or the odd trailing one. *)
Fixpoint DecodeString (s : string) : list byte :=
  match s with
  | String p (String q r) =>
      match fromHexChar p, fromHexChar q with
      | Some a, Some b => bytes.byte_of_Z (Z.lor (Z.shiftl a 4) b) :: DecodeString r
      | _, _ => []
      end
  | _ => []
  end.

(** The error of [hex.Decode]: the first byte that is no digit, or the
    odd length when every byte before the end is one. *)
Inductive DecodeError :=
| InvalidByteError (c : ascii)
| ErrLength.

Fixpoint decodeError (s : string) : option DecodeError :=
  match s with
  | EmptyString => None
  | String p EmptyString =>
      match fromHexChar p with
      | None => Some (InvalidByteError p)
      | Some _ => Some ErrLength
      end
  | String p (String q r) =>
      match fromHexChar p, fromHexChar q with
      | None, _ => Some (InvalidByteError p)
      | Some _, None => Some (InvalidByteError q)
      | Some _, Some _ => decodeError r
      end
  end.

(** Every character is one of [0-9a-f]. *)
Fixpoint isLowerHex (s : string) : bool :=
  match s with
  | EmptyString => true
  | String c r =>
      let n := Z.of_N (N_of_ascii c) in
      (((48 <=? n) && (n <=? 57)) || ((97 <=? n) && (n <=? 102))) && isLowerHex r
  end.

End hex.

(** ** Errors and time *)

Definition error : Type := string.

(** [time.Time] as nanoseconds since the Unix epoch, and [time.Duration]
    as nanoseconds. *)
Definition Time : Type := Z.

Module time.
Definition Second : Z := 1000000000.
Definition Minute : Z := 60 * Second.
Definition Hour : Z := 60 * Minute.
(** [t.Unix()]: whole seconds since the epoch, rounded down. *)
Definition Unix (t : Time) : Z := t / Second.
(** [time.Unix(sec, 0)]. *)
Definition FromUnix (sec : Z) : Time := sec * Second.
(** [time.Since(t)] read at the instant [now]. *)
Definition Since (now t : Time) : Z := now - t.
Definition After (t u : Time) : bool := u <? t.
End time.

(** ** crypto/hash.go *)

Module crypto.

Definition HashData (data : list byte) : string :=
  hex.EncodeToString (sha256.Sum256 data).

Definition HashString (s : string) : string := HashData (bytes.of_string s).

(** What [ValidateHash] objects to: the length it got, or the byte that
    [hex.DecodeString] refused. *)
Inductive HashError :=
| InvalidLength (got : nat)
| InvalidFormat (err : hex.DecodeError).

Definition ValidateHash (hash : string) : option HashError :=
  if negb (String.length hash =? 64)%nat then
    Some (InvalidLength (String.length hash))
  else
    match hex.decodeError hash with
    | Some err => Some (InvalidFormat err)
    | None => None
    end.

Definition CompareHashes (hash1 hash2 : string) : bool :=
  (hash1 =? hash2)%string.

Definition MerkleHash (left right : string) : string :=
  let leftBytes := hex.DecodeString left in
  let rightBytes := hex.DecodeString right in
  hex.EncodeToString (sha256.Sum256 (leftBytes ++ rightBytes)).

(** One pass of the inner loop of [CalculateMerkleRoot]: a last odd hash
    is paired with itself. *)
Fixpoint nextLevel (currentLevel : list string) : list string :=
  match currentLevel with
  | [] => []
  | [l] => [MerkleHash l l]
  | l :: r :: rest => MerkleHash l r :: nextLevel rest
  end.

(** [for len(currentLevel) > 1 { ... }], at most [fuel] passes. *)
Fixpoint climb (fuel : nat) (currentLevel : list string) : list string :=
  match fuel with
  | O => currentLevel
  | S k =>
      if (1 <? length currentLevel)%nat then climb k (nextLevel currentLevel)
      else currentLevel
  end.

(** [CalculateMerkleRoot] over hex hashes; [None] is [currentLevel[0]]
    out of range. *)
Definition CalculateMerkleRoot (hashes : list string) : option string :=
  match hashes with
  | [] => Some ""
  | [h] => Some h
  | _ =>
      match climb (length hashes) hashes with
      | h :: _ => Some h
      | [] => None
      end
  end.

Definition DoubleHash (data : list byte) : string :=
  hex.EncodeToString (sha256.Sum256 (sha256.Sum256 data)).

End crypto.

(** ** blockchain/transaction.go *)

Module transaction.

Record Transaction := mkTransaction
  { ID : string;
    PublicKey : string;
    Name : string;
    Surname : string;
    InquiryID : string;
    Datetime : Time;
    Signature : string;
    Status : string }.

(** What [Hash] writes to the buffer it digests: the four strings back to
    back and the Unix seconds as a big-endian int64. *)
Definition hashBytes (tx : Transaction) : list byte :=
  bytes.of_string (PublicKey tx) ++ bytes.of_string (Name tx) ++
  bytes.of_string (Surname tx) ++ bytes.of_string (InquiryID tx) ++
  bytes.be 8 (time.Unix (Datetime tx)).

Definition Hash (tx : Transaction) : string :=
  hex.EncodeToString (sha256.Sum256 (hashBytes tx)).

Definition NewTransaction (publicKey name surname inquiryID : string)
    (datetime : Time) (signature : string) : Transaction :=
  let tx := mkTransaction "" publicKey name surname inquiryID datetime
                          signature "pending" in
  mkTransaction (Hash tx) publicKey name surname inquiryID datetime
                signature "pending".

(** [Validate]; its two reads of the clock both give [now]. *)
Definition Validate (now : Time) (tx : Transaction) : option error :=
  if (PublicKey tx =? "")%string then Some "public key is required"
  else if (Name tx =? "")%string || (Surname tx =? "")%string then
    Some "name and surname are required"
  else if (InquiryID tx =? "")%string then Some "inquiry ID is required"
  else if (Signature tx =? "")%string then Some "signature is required"
  else if 24 * time.Hour <? time.Since now (Datetime tx) then
    Some "transaction datetime is too old"
  else if time.After (Datetime tx) (now + 5 * time.Minute) then
    Some "transaction datetime is in the future"
  else None.

(** [writeString]: the length on 32 bits, then the bytes. *)
Definition writeString (s : string) : list byte :=
  bytes.be 4 (Z.of_nat (String.length s) mod 2 ^ 32) ++ bytes.of_string s.

(** [Serialize]. The writes go to a [bytes.Buffer] and cannot fail: the
    error returned is always [nil]. *)
Definition Serialize (tx : Transaction) : list byte :=
  writeString (ID tx) ++ writeString (PublicKey tx) ++
  writeString (Name tx) ++ writeString (Surname tx) ++
  writeString (InquiryID tx) ++ bytes.be 8 (time.Unix (Datetime tx)) ++
  writeString (Signature tx) ++ writeString (Status tx).

(** A read from the [bytes.Reader]: the unread bytes go in, the result
    and the bytes still unread come out. *)
Definition Read (A : Type) : Type := list byte -> (A + error) * list byte.

Definition ret {A} (a : A) : Read A := fun buf => (inl a, buf).
Definition bind {A B} (m : Read A) (k : A -> Read B) : Read B :=
  fun buf =>
    match m buf with
    | (inl a, rest) => k a rest
    | (inr e, rest) => (inr e, rest)
    end.

Notation "'let*' x ':=' m 'in' k" := (bind m (fun x => k))
  (at level 10, x name, m at level 100, k at level 200).

(** [binary.Read] of an [n]-byte integer, through [io.ReadFull]: [EOF]
    when nothing is left, [unexpected EOF] when too little is. *)
Definition readUint (n : nat) : Read Z :=
  fun buf =>
    match buf with
    | [] => (inr "EOF", [])
    | _ => if (length buf <? n)%nat then (inr "unexpected EOF", [])
           else (inl (bytes.be_val (firstn n buf)), skipn n buf)
    end.

(** [buf.Read(strBytes)] on a [bytes.Reader]: at the end of the input it
    answers [EOF] whatever the length of [strBytes]; otherwise it copies
    what is there, and the rest of [strBytes] stays zero. *)
Definition readBytes (len : nat) : Read (list byte) :=
  fun buf =>
    match buf with
    | [] => (inr "EOF", [])
    | _ => (inl (firstn len buf ++ repeat Byte.x00 (len - length buf)),
            skipn len buf)
    end.

Definition readString : Read string :=
  let* length := readUint 4 in
  let* strBytes := readBytes (Z.to_nat length) in
  ret (bytes.to_string strBytes).

Definition readTransaction : Read Transaction :=
  let* id := readString in
  let* publicKey := readString in
  let* name := readString in
  let* surname := readString in
  let* inquiryID := readString in
  let* timestamp := readUint 8 in
  let* signature := readString in
  let* status := readString in
  ret (mkTransaction id publicKey name surname inquiryID
         (time.FromUnix (bytes.signed 64 timestamp)) signature status).

(** [DeserializeTransaction]. *)
Definition DeserializeTransaction (data : list byte) : Transaction + error :=
  fst (readTransaction data).

(** [GetSignableMessage]: the fields joined with a bar. *)
Definition GetSignableMessage (tx : Transaction) : string :=
  (PublicKey tx ++ "|" ++ Name tx ++ "|" ++ Surname tx ++ "|" ++
   InquiryID tx ++ "|" ++ pretty (time.Unix (Datetime tx)))%string.

(** [VerifySignature]. [crypto.VerifyRSASignature public_key message
    signature] (PEM, base64 and PKCS #1 v1.5 over SHA-256) is taken as
    given. *)
Definition VerifySignature
    (VerifyRSASignature : string -> string -> string -> option error)
    (tx : Transaction) : option error :=
  VerifyRSASignature (PublicKey tx) (GetSignableMessage tx) (Signature tx).

End transaction.

(** ** blockchain/merkle.go *)

Module merkle.
Import transaction.

#[local] Unset Elimination Schemes.
Inductive MerkleNode :=
| mkNode (Left Right : option MerkleNode) (Hash : string).

#[local] Set Elimination Schemes.

Definition nodeHash (n : MerkleNode) : string :=
  match n with mkNode _ _ h => h end.

Record MerkleTree := mkTree { Root : option MerkleNode }.

(** [NewMerkleNode]: a leaf hashes its data, an inner node the decoded
    hashes of the children it has. *)
Definition NewMerkleNode (left right : option MerkleNode) (data : list byte)
    : MerkleNode :=
  match left, right with
  | None, None => mkNode None None (hex.EncodeToString (sha256.Sum256 data))
  | _, _ =>
      let l := match left with
               | Some n => hex.DecodeString (nodeHash n) | None => [] end in
      let r := match right with
               | Some n => hex.DecodeString (nodeHash n) | None => [] end in
      mkNode left right (hex.EncodeToString (sha256.Sum256 (l ++ r)))
  end.

(** [if len(nodes)%2 != 0 { nodes = append(nodes, nodes[len(nodes)-1]) }] *)
Definition dupLast (nodes : list MerkleNode) : list MerkleNode :=
  if Nat.odd (length nodes) then
    match last nodes with Some n => nodes ++ [n] | None => nodes end
  else nodes.

(** One pass of [for i := 0; i < len(nodes); i += 2]; reading
    [nodes[i+1]] past the end is a run-time panic, [None] here. *)
Fixpoint level (nodes : list MerkleNode) : option (list MerkleNode) :=
  match nodes with
  | [] => Some []
  | [_] => None
  | a :: b :: r =>
      match level r with
      | Some l => Some (NewMerkleNode (Some a) (Some b) [] :: l)
      | None => None
      end
  end.

(** [for len(nodes) > 1 { ... }], at most [fuel] passes. *)
Fixpoint build (fuel : nat) (nodes : list MerkleNode)
    : option (list MerkleNode) :=
  match fuel with
  | O => Some nodes
  | S k =>
      if (1 <? length nodes)%nat then
        match level nodes with
        | Some lv =>
            build k (if (1 <? length lv)%nat then dupLast lv else lv)
        | None => None
        end
      else Some nodes
  end.

(** [NewMerkleTree]; [None] is the panic of an index out of range. *)
Definition NewMerkleTree (data : list (list byte)) : option MerkleTree :=
  let nodes := map (NewMerkleNode None None) data in
  let nodes := dupLast nodes in
  match build (length nodes) nodes with
  | Some (root :: _) => Some (mkTree (Some root))
  | _ => None
  end.

Definition GetRootHash (mt : MerkleTree) : string :=
  match Root mt with
  | Some n => nodeHash n
  | None => ""
  end.

(** The bytes behind a leaf of the tree: the digest of the serialized
    transaction. *)
Definition leaf (tx : Transaction) : list byte :=
  sha256.Sum256 (Serialize tx).

(** [CalculateMerkleRootFromTransactions]. *)
Definition CalculateMerkleRootFromTransactions (transactions : list Transaction)
    : option string :=
  match transactions with
  | [] => Some ""
  | _ =>
      match NewMerkleTree (map Serialize transactions) with
      | Some tree => Some (GetRootHash tree)
      | None => None
      end
  end.

(** The loop of [VerifyTransaction] from its pass [i] on: the proof
    element goes to the right of the running hash when bit [i] of [index]
    is clear, to the left when it is set. *)
Fixpoint verifyFrom (i : nat) (computedHash : string)
    (merkleProof : list string) (index : Z) : string :=
  match merkleProof with
  | [] => computedHash
  | proofElement :: rest =>
      let h1 := hex.DecodeString computedHash in
      let h2 := hex.DecodeString proofElement in
      let combinedHash :=
        if Z.land (Z.shiftr index (Z.of_nat i)) 1 =? 0 then h1 ++ h2
        else h2 ++ h1 in
      verifyFrom (S i) (hex.EncodeToString (sha256.Sum256 combinedHash))
                 rest index
  end.

(** [VerifyTransaction]; [mt.Root.Hash] of a tree without a root is a nil
    dereference, [None] here. *)
Definition VerifyTransaction (mt : MerkleTree) (transactionHash : string)
    (merkleProof : list string) (index : Z) : option bool :=
  match Root mt with
  | Some root =>
      Some (verifyFrom 0 transactionHash merkleProof index =? nodeHash root)%string
  | None => None
  end.

(** [if len(nodes)%2 != 0 { ... }] of [GenerateMerkleProof], on hex text. *)
Definition dupLastHash (nodes : list string) : list string :=
  if Nat.odd (length nodes) then
    match last nodes with Some n => nodes ++ [n] | None => nodes end
  else nodes.

(** The next level of [GenerateMerkleProof]; [nodes[i+1]] past the end is
    a panic. *)
Fixpoint nextLevel (nodes : list string) : option (list string) :=
  match nodes with
  | [] => Some []
  | [_] => None
  | a :: b :: r =>
      match nextLevel r with
      | Some l =>
          Some (hex.EncodeToString
                  (sha256.Sum256 (hex.DecodeString a ++ hex.DecodeString b)) :: l)
      | None => None
      end
  end.

(** [for len(nodes) > 1 { ... }] of [GenerateMerkleProof], at most [fuel]
    passes; [currentIndex / 2] of Go rounds towards zero. *)
Fixpoint proofLoop (fuel : nat) (nodes : list string) (currentIndex : Z)
    (proof : list string) : option (list string) :=
  match fuel with
  | O => Some proof
  | S k =>
      if (1 <? length nodes)%nat then
        let nodes := dupLastHash nodes in
        let siblingIndex := Z.lxor currentIndex 1 in
        let withSibling :=
          if siblingIndex <? Z.of_nat (length nodes) then
            if siblingIndex <? 0 then None
            else match nth_error nodes (Z.to_nat siblingIndex) with
                 | Some sibling => Some (proof ++ [sibling])
                 | None => None
                 end
          else Some proof in
        match withSibling, nextLevel nodes with
        | Some proof, Some level => proofLoop k level (Z.quot currentIndex 2) proof
        | _, _ => None
        end
      else Some proof
  end.

(** [GenerateMerkleProof]; [None] is a panic. *)
Definition GenerateMerkleProof (transactions : list Transaction)
    (targetIndex : Z) : option (list string * option error) :=
  if (targetIndex <? 0) || (Z.of_nat (length transactions) <=? targetIndex) then
    Some ([], Some "invalid transaction index")
  else
    let nodes :=
      map (fun tx => hex.EncodeToString (sha256.Sum256 (Serialize tx)))
          transactions in
    match proofLoop (length nodes) nodes targetIndex [] with
    | Some proof => Some (proof, None)
    | None => None
    end.

End merkle.

(** ** blockchain/block.go *)

Module block.
Import transaction.

Record BlockHeader := mkHeader
  { Version : Z;
    PrevBlockHash : string;
    MerkleRoot : string;
    Timestamp : Time;
    Bits : Z;
    Nonce : Z;
    Height : Z }.

Record Block := mkBlock
  { Header : BlockHeader;
    Transactions : list Transaction }.

(** What [Hash] writes to the buffer it digests. *)
Definition headerBytes (h : BlockHeader) : list byte :=
  bytes.be 4 (Version h) ++ bytes.of_string (PrevBlockHash h) ++
  bytes.of_string (MerkleRoot h) ++ bytes.be 8 (time.Unix (Timestamp h)) ++
  bytes.be 4 (Bits h) ++ bytes.be 4 (Nonce h).

Definition Hash (b : Block) : string :=
  hex.EncodeToString (sha256.Sum256 (headerBytes (Header b))).

(** One pass of the inner loop of [CalculateMerkleRoot]: neighbours are
    hashed together, a last odd one with itself. *)
Fixpoint pairUp (hashes : list (list byte)) : list (list byte) :=
  match hashes with
  | [] => []
  | [a] => [sha256.Sum256 (a ++ a)]
  | a :: b :: r => sha256.Sum256 (a ++ b) :: pairUp r
  end.

(** [for len(hashes) > 1 { ... }], at most [fuel] passes. *)
Fixpoint reduce (fuel : nat) (hashes : list (list byte)) : list (list byte) :=
  match fuel with
  | O => hashes
  | S k => if (1 <? length hashes)%nat then reduce k (pairUp hashes) else hashes
  end.

(** The tree loop of [CalculateMerkleRoot] over the hashes it collected,
    and the hex of [hashes[0]]. *)
Definition rootOfHashes (hashes : list (list byte)) : string :=
  match reduce (length hashes) hashes with
  | h :: _ => hex.EncodeToString h
  | [] => ""
  end.

(** A level made even the way [NewMerkleTree] does it, on hashes. *)
Definition evenize (hashes : list (list byte)) : list (list byte) :=
  if Nat.odd (length hashes) then
    match last hashes with Some h => hashes ++ [h] | None => hashes end
  else hashes.

(** The leaf of a transaction: its [Hash], decoded. *)
Definition leaf (tx : Transaction) : list byte :=
  hex.DecodeString (transaction.Hash tx).

Definition merkleRootOf (transactions : list Transaction) : string :=
  match transactions with
  | [] => ""
  | _ => rootOfHashes (map leaf transactions)
  end.

Definition CalculateMerkleRoot (b : Block) : string :=
  merkleRootOf (Transactions b).

(** [NewBlock], created at the instant [now]: nonce and bits are zero. *)
Definition NewBlock (now : Time) (transactions : list Transaction)
    (prevBlockHash : string) (height : Z) : Block :=
  let h := mkHeader 1 prevBlockHash "" now 0 0 height in
  let b := mkBlock h transactions in
  mkBlock (mkHeader 1 prevBlockHash (CalculateMerkleRoot b) now 0 0 height)
          transactions.

Definition GenesisBlock (now : Time) : Block :=
  let genesisTx :=
    mkTransaction "genesis" "0000000000000000000000000000000000000000"
                  "Genesis" "Block" "genesis" now "" "" in
  NewBlock now [genesisTx] "0" 0.

Fixpoint validateAll (now : Time) (txs : list Transaction) : option error :=
  match txs with
  | [] => None
  | tx :: r =>
      match transaction.Validate now tx with
      | Some err => Some ("invalid transaction " ++ ID tx ++ ": " ++ err)%string
      | None => validateAll now r
      end
  end.

(** [Validate], with the clock read as [now]. *)
Definition Validate (now : Time) (b : Block) : option error :=
  if (length (Transactions b) =? 0)%nat then Some "block has no transactions"
  else if negb (CalculateMerkleRoot b =? MerkleRoot (Header b))%string then
    Some "invalid merkle root"
  else validateAll now (Transactions b).

(** A hash on 32 bytes, as [Serialize] writes it: the hex decoded,
    zeros appended up to 32 bytes, and the first 32 bytes of that. *)
Definition hash32 (s : string) : list byte :=
  let decoded := hex.DecodeString s in
  let padded :=
    if (length decoded <? 32)%nat
    then decoded ++ repeat Byte.x00 (32 - length decoded)
    else decoded in
  firstn 32 padded.

(** What [Serialize] collects in [blockBuf]. *)
Definition blockData (b : Block) : list byte :=
  let h := Header b in
  bytes.be 4 (Version h) ++ hash32 (PrevBlockHash h) ++
  hash32 (MerkleRoot h) ++ bytes.be 8 (time.Unix (Timestamp h)) ++
  bytes.be 4 (Bits h) ++ bytes.be 4 (Nonce h) ++ bytes.be 8 (Height h) ++
  bytes.be 4 (Z.of_nat (length (Transactions b)) mod 2 ^ 32) ++
  concat (map transaction.Serialize (Transactions b)).

(** [Serialize]: the magic value, the size of the data on 32 bits, the
    data. No write fails, the error is always [nil]. *)
Definition Serialize (b : Block) : list byte :=
  bytes.be 4 3652501241 ++
  bytes.be 4 (Z.of_nat (length (blockData b)) mod 2 ^ 32) ++ blockData b.

(** [GetTransactionByID], [GetCertificationByPublicKey] and
    [GetCertificationByIdentity] of a block: the first match. *)
Definition GetTransactionByID (b : Block) (id : string) : option Transaction :=
  find (fun tx => (ID tx =? id)%string) (Transactions b).

Definition GetCertificationByPublicKey (b : Block) (publicKey : string)
    : option Transaction :=
  find (fun tx => (PublicKey tx =? publicKey)%string) (Transactions b).

Definition GetCertificationByIdentity (b : Block) (name surname : string)
    : option Transaction :=
  find (fun tx => (Name tx =? name)%string && (Surname tx =? surname)%string)
       (Transactions b).

End block.

(** ** consensus *)

Module consensus.
Import block.

Record ProofOfWork := mkPow { targetBits : Z; target : Z }.

(** [target.Lsh(target, uint(256-bits))], the subtraction on [uint32]. *)
Definition NewProofOfWork (bits : Z) : ProofOfWork :=
  mkPow bits (Z.shiftl 1 ((256 - bits) mod 2 ^ 32)).

(** [calculateHash]: the header as [block.Hash] writes it. The type
    assertion of [getBlockHeader] names the fields of the header of a
    block and is taken to hold for one. *)
Definition calculateHash (b : Block) : list byte :=
  sha256.Sum256 (headerBytes (Header b)).

(** [Validate]: the digest, read as a big-endian integer, is below the
    target of the engine (not of the block's own [Bits]). *)
Definition Validate (pow : ProofOfWork) (b : Block) : bool :=
  bytes.be_val (calculateHash b) <? target pow.

(** The first nonce of [start, start + n) that passes [test], trying
    them in increasing order. *)
Fixpoint firstNonce (test : Z -> bool) (n : positive) (start : Z) : option Z :=
  match n with
  | xH => if test start then Some start else None
  | xO p =>
      match firstNonce test p start with
      | Some r => Some r
      | None => firstNonce test p (start + Z.pos p)
      end
  | xI p =>
      if test start then Some start
      else match firstNonce test p (start + 1) with
           | Some r => Some r
           | None => firstNonce test p (start + 1 + Z.pos p)
           end
  end.

(** [Mine]: [for nonce < math.MaxUint32]. The block type has no
    [SetNonce], and the other branch stores the nonce in the copy of the
    header that [getBlockHeader] returned by value: the block is hashed
    again as it came in on every pass. *)
Definition Mine (pow : ProofOfWork) (b : Block) : bool :=
  match firstNonce (fun nonce => Validate pow b) 4294967295 0 with
  | Some _ => true
  | None => false
  end.

Definition SetDifficulty (pow : ProofOfWork) (bits : Z) : ProofOfWork :=
  mkPow bits (Z.shiftl 1 ((256 - bits) mod 2 ^ 32)).

(** [CalculateDifficulty] on [uint32] bits and [int64] times: the
    division truncates towards zero, the product wraps. *)
Definition CalculateDifficulty (currentBits actualTime targetTime : Z) : Z :=
  if actualTime <? Z.quot targetTime 2 then
    if currentBits <? 32 then (currentBits + 1) mod 2 ^ 32 else currentBits
  else if bytes.signed 64 ((targetTime * 2) mod 2 ^ 64) <? actualTime then
    if 1 <? currentBits then (currentBits - 1) mod 2 ^ 32 else currentBits
  else currentBits.

End consensus.

(** ** storage *)

Module storage.
Import block.

Record Certification := mkCert
  { PublicKey : string;
    Name : string;
    Surname : string;
    InquiryID : string;
    Datetime : Time;
    BlockHash : string;
    Height : Z }.

(** What the store keeps under a key; the code keeps its JSON text. *)
Inductive Value :=
| VBlock (b : Block)
| VHeight (h : Z)
| VCert (c : Certification).

(** The key-value database. [fault] is the state of the engine: when it
    holds an error every update is refused with it and writes nothing. *)
Record Database := mkDB
  { kv : gmap string Value;
    fault : option error }.

(** [db.Update]: all the writes of the batch, or none. *)
Definition Update (d : Database) (writes : list (string * Value))
    : Database * option error :=
  match fault d with
  | Some e => (d, Some e)
  | None =>
      (mkDB (fold_left (fun m w => <[fst w := snd w]> m) writes (kv d)) None,
       None)
  end.

(** [SaveBlock]: by height, by hash, and the latest height. A block
    marshals without error and is of the asserted type. *)
Definition SaveBlock (d : Database) (b : Block) : Database * option error :=
  let height := block.Height (Header b) in
  Update d
    [ (("block:height:" ++ pretty height)%string, VBlock b);
      (("block:hash:" ++ block.Hash b)%string, VBlock b);
      ("blockchain:height", VHeight height) ].

(** [SaveCertification]: by public key, by identity, by inquiry. *)
Definition SaveCertification (d : Database) (c : Certification)
    : Database * option error :=
  Update d
    [ (("cert:pk:" ++ PublicKey c)%string, VCert c);
      (("cert:id:" ++ Name c ++ ":" ++ Surname c)%string, VCert c);
      (("cert:inq:" ++ InquiryID c)%string, VCert c) ].

(** [GetAllBlocks] is a stub of the code: it answers [nil, nil]. *)
Definition GetAllBlocks (d : Database) : list Block * option error :=
  ([], None).

End storage.

(** ** blockchain/blockchain.go *)

Module blockchain.
Import transaction block.

Record Blockchain := mkBC
  { blocks : list Block;
    currentHeight : Z;
    db : storage.Database;
    miningPool : list Transaction;
    difficulty : Z;
    miningEnabled : bool;
    pow : consensus.ProofOfWork }.

Definition setPool (bc : Blockchain) (pool : list Transaction) : Blockchain :=
  mkBC (blocks bc) (currentHeight bc) (db bc) pool (difficulty bc)
       (miningEnabled bc) (pow bc).

Definition setDB (bc : Blockchain) (d : storage.Database) : Blockchain :=
  mkBC (blocks bc) (currentHeight bc) d (miningPool bc) (difficulty bc)
       (miningEnabled bc) (pow bc).

Definition setChain (bc : Blockchain) (bs : list Block) (h : Z) : Blockchain :=
  mkBC bs h (db bc) (miningPool bc) (difficulty bc) (miningEnabled bc) (pow bc).

(** The struct that [NewBlockchain] fills in before it loads anything. *)
Definition empty (d : storage.Database) : Blockchain :=
  mkBC [] 0 d [] 16 false (consensus.NewProofOfWork 16).

Definition loadFromDB (bc : Blockchain) : Blockchain * option error :=
  match storage.GetAllBlocks (db bc) with
  | (_, Some err) => (bc, Some err)
  | (bs, None) =>
      if (length bs =? 0)%nat then (bc, Some "no blocks found")
      else (setChain bc bs ((Z.of_nat (length bs) - 1) mod 2 ^ 64), None)
  end.

(** [removeMinedTransactions]: the pool without the entries whose [ID]
    is the [ID] of a mined transaction. *)
Definition removeMinedTransactions (bc : Blockchain)
    (minedTxs : list Transaction) : Blockchain :=
  setPool bc
    (List.filter (fun poolTx =>
               negb (existsb (fun minedTx => (ID poolTx =? ID minedTx)%string)
                             minedTxs))
            (miningPool bc)).

(** [inquiryExists]: in a block of the chain, or in the pool. *)
Definition inquiryExists (bc : Blockchain) (inquiryID : string) : bool :=
  existsb (fun b =>
             existsb (fun tx => (InquiryID tx =? inquiryID)%string)
                     (Transactions b))
          (blocks bc)
  || existsb (fun tx => (InquiryID tx =? inquiryID)%string) (miningPool bc).

(** The loop of [AddBlock] over the transactions of the block: a
    certification that cannot be saved is logged and skipped. *)
Definition saveCertifications (d : storage.Database) (b : Block)
    : storage.Database :=
  fold_left
    (fun d tx =>
       fst (storage.SaveCertification d
              (storage.mkCert (PublicKey tx) (Name tx) (Surname tx)
                 (InquiryID tx) (Datetime tx) (block.Hash b)
                 (Height (Header b)))))
    (Transactions b) d.

(** [AddBlock], with the clock read as [now]. *)
Definition AddBlock (now : Time) (bc : Blockchain) (b : Block)
    : Blockchain * option error :=
  match block.Validate now b with
  | Some err => (bc, Some ("invalid block: " ++ err)%string)
  | None =>
      let linkErr :=
        match last (blocks bc) with
        | Some lastBlock =>
            if negb (PrevBlockHash (Header b) =? block.Hash lastBlock)%string
            then Some "invalid previous block hash"
            else if negb (Height (Header b)
                          =? (Height (Header lastBlock) + 1) mod 2 ^ 64)
            then Some "invalid block height"
            else None
        | None => None
        end in
      match linkErr with
      | Some err => (bc, Some err)
      | None =>
          if negb (consensus.Validate (pow bc) b) then
            (bc, Some "invalid proof of work")
          else
            let bc1 := setChain bc (blocks bc ++ [b]) (Height (Header b)) in
            match storage.SaveBlock (db bc1) b with
            | (_, Some err) =>
                (setChain bc1 (removelast (blocks bc1))
                          ((currentHeight bc1 - 1) mod 2 ^ 64),
                 Some ("failed to save block: " ++ err)%string)
            | (d, None) =>
                let bc2 := setDB bc1 (saveCertifications d b) in
                (removeMinedTransactions bc2 (Transactions b), None)
            end
      end
  end.

Definition GetLatestBlock (bc : Blockchain) : option Block := last (blocks bc).
Definition GetHeight (bc : Blockchain) : Z := currentHeight bc.

(** [adjustDifficulty] writes a log line. *)
Definition adjustDifficulty (bc : Blockchain) : Blockchain := bc.

(** [mineBlock]: the block is built at [now] and handed to [AddBlock] at
    [later]. [None] is the nil dereference of a chain without a block. *)
Definition mineBlock (now later : Time) (bc : Blockchain) : option Blockchain :=
  let maxTx := 1000%nat in
  let transactions :=
    if (length (miningPool bc) <? maxTx)%nat then miningPool bc
    else firstn maxTx (miningPool bc) in
  if (length transactions =? 0)%nat then Some bc
  else
    match GetLatestBlock bc with
    | None => None
    | Some latestBlock =>
        let nb := NewBlock now transactions (block.Hash latestBlock)
                           ((Height (Header latestBlock) + 1) mod 2 ^ 64) in
        let h := Header nb in
        let newBlock :=
          mkBlock (mkHeader (Version h) (PrevBlockHash h) (MerkleRoot h)
                            (Timestamp h) (difficulty bc) (Nonce h) (Height h))
                  (Transactions nb) in
        if consensus.Mine (pow bc) newBlock then
          match AddBlock later bc newBlock with
          | (bc', Some _) => Some bc'
          | (bc', None) =>
              if Height (Header newBlock) mod 2016 =? 0
              then Some (adjustDifficulty bc')
              else Some bc'
          end
        else Some bc
    end.

Section Signatures.

Variable VerifyRSASignature : string -> string -> string -> option error.

(** [AddTransaction], with the clock read as [now]. *)
Definition AddTransaction (now : Time) (bc : Blockchain) (tx : Transaction)
    : Blockchain * option error :=
  match transaction.Validate now tx with
  | Some err => (bc, Some err)
  | None =>
      match transaction.VerifySignature VerifyRSASignature tx with
      | Some err => (bc, Some ("invalid signature: " ++ err)%string)
      | None =>
          if inquiryExists bc (InquiryID tx) then
            (bc, Some "inquiry ID already exists")
          else if existsb (fun poolTx => (ID poolTx =? ID tx)%string)
                          (miningPool bc) then
            (bc, Some "transaction already in pool")
          else (setPool bc (miningPool bc ++ [tx]), None)
      end
  end.

(** The states of a node: the struct that [NewBlockchain] starts from, and
    what [AddTransaction], [AddBlock] (the blocks of peers included) and
    [mineBlock] make of a state, in any order and with any argument. *)
Inductive reachable : Blockchain -> Prop :=
| reach_empty d : reachable (empty d)
| reach_AddTransaction now bc tx :
    reachable bc -> reachable (fst (AddTransaction now bc tx))
| reach_AddBlock now bc b :
    reachable bc -> reachable (fst (AddBlock now bc b))
| reach_mineBlock now later bc bc' :
    reachable bc -> mineBlock now later bc = Some bc' -> reachable bc'.

(** The states of a node whose store fails and recovers as it likes
    between two calls: the same calls, and any change of the health of
    the store, whose content stays. *)
Inductive reachableWithFaults : Blockchain -> Prop :=
| faulty_empty d : reachableWithFaults (empty d)
| faulty_AddTransaction now bc tx :
    reachableWithFaults bc ->
    reachableWithFaults (fst (AddTransaction now bc tx))
| faulty_AddBlock now bc b :
    reachableWithFaults bc -> reachableWithFaults (fst (AddBlock now bc b))
| faulty_mineBlock now later bc bc' :
    reachableWithFaults bc -> mineBlock now later bc = Some bc' ->
    reachableWithFaults bc'
| faulty_store bc health :
    reachableWithFaults bc ->
    reachableWithFaults
      (setDB bc (storage.mkDB (storage.kv (db bc)) health)).

End Signatures.

(** The block holds a transaction with this inquiry. *)
Definition holds (inquiryID : string) (b : Block) : bool :=
  existsb (fun tx => (InquiryID tx =? inquiryID)%string) (Transactions b).

(** The accepted blocks that hold the inquiry. *)
Definition blocksHolding (bc : Blockchain) (inquiryID : string) : list Block :=
  List.filter (holds inquiryID) (blocks bc).

(** The pool has a transaction with this inquiry. *)
Definition pooled (bc : Blockchain) (inquiryID : string) : bool :=
  existsb (fun tx => (InquiryID tx =? inquiryID)%string) (miningPool bc).

(** Every inquiry is in at most one accepted block, and an inquiry of an
    accepted block is not in the pool. *)
Definition inquiryUnique (bc : Blockchain) : Prop :=
  forall inquiryID,
    (length (blocksHolding bc inquiryID) <= 1)%nat
    /\ (blocksHolding bc inquiryID <> [] -> pooled bc inquiryID = false).

(** [GetBlock]: the block at this index of the list of blocks; an index
    at or past its length is an error. *)
Definition GetBlock (bc : Blockchain) (height : Z) : option Block * option error :=
  if Z.of_nat (length (blocks bc)) <=? height then (None, Some "block not found")
  else match nth_error (blocks bc) (Z.to_nat height) with
       | Some b => (Some b, None)
       | None => (None, Some "block not found")
       end.

(** [GetBlockByHash]: the first block of the list with this hash. *)
Definition GetBlockByHash (bc : Blockchain) (hash : string)
    : option Block * option error :=
  match find (fun b => (block.Hash b =? hash)%string) (blocks bc) with
  | Some b => (Some b, None)
  | None => (None, Some "block not found")
  end.

(** [GetMiningPool] and [GetAllBlocks] copy the lists out. *)
Definition GetMiningPool (bc : Blockchain) : list Transaction := miningPool bc.
Definition GetAllBlocks (bc : Blockchain) : list Block := blocks bc.

(** Each block of the list names the hash of the block before it, and a
    height one above. *)
Fixpoint linked (bs : list Block) : Prop :=
  match bs with
  | a :: (b :: _) as rest =>
      PrevBlockHash (Header b) = block.Hash a
      /\ Height (Header b) = (Height (Header a) + 1) mod 2 ^ 64
      /\ linked rest
  | _ => True
  end.

(** The fields that [Validate] wants filled are filled. *)
Definition filled (tx : Transaction) : Prop :=
  PublicKey tx <> "" /\ Name tx <> "" /\ Surname tx <> ""
  /\ InquiryID tx <> "" /\ Signature tx <> "".

(** What stays true of a block that [AddBlock] accepted: it has a
    transaction, its Merkle root is the one of its transactions, its
    transactions are filled in, and its hash is below the target of 16
    bits. *)
Definition sealed (b : Block) : Prop :=
  Transactions b <> []
  /\ CalculateMerkleRoot b = MerkleRoot (Header b)
  /\ Forall filled (Transactions b)
  /\ consensus.Validate (consensus.NewProofOfWork 16) b = true.

(** What every state of a node satisfies (see [node_is_steady]): the
    engine holds the target of 16 bits; the chain is linked and its blocks
    sealed; the reported height is the height of the tip, as [uint64]; no
    two pooled transactions share an [ID] or an inquiry; and every pooled
    transaction is filled in and carries a signature that verified. *)
Definition steady (V : string -> string -> string -> option error)
    (bc : Blockchain) : Prop :=
  pow bc = consensus.NewProofOfWork 16
  /\ linked (blocks bc)
  /\ Forall sealed (blocks bc)
  /\ (forall tip, last (blocks bc) = Some tip ->
       currentHeight bc = Height (Header tip)
       \/ currentHeight bc = Height (Header tip) mod 2 ^ 64)
  /\ List.NoDup (map ID (miningPool bc))
  /\ List.NoDup (map InquiryID (miningPool bc))
  /\ Forall (fun tx => filled tx /\ transaction.VerifySignature V tx = None)
            (miningPool bc).

(** What [mineBlock] hands to [Mine] and to [AddBlock] at [now]: the head
    of the pool, at most a thousand transactions, on top of the tip, with
    the bits of the node and the nonce 0. *)
Definition candidate (now : Time) (bc : Blockchain) (tip : Block) : Block :=
  mkBlock
    (mkHeader 1 (block.Hash tip)
       (merkleRootOf (firstn 1000 (miningPool bc)))
       now (difficulty bc) 0 ((Height (Header tip) + 1) mod 2 ^ 64))
    (firstn 1000 (miningPool bc)).

(** [NewBlockchain], started at [now]. *)
Definition NewBlockchain (now : Time) (d : storage.Database)
    : option Blockchain * option error :=
  let bc := empty d in
  match loadFromDB bc with
  | (bc', None) => (Some bc', None)
  | (bc', Some _) =>
      match AddBlock now bc' (GenesisBlock now) with
      | (_, Some err) => (None, Some ("failed to add genesis block: " ++ err)%string)
      | (bc'', None) => (Some bc'', None)
      end
  end.

End blockchain.

(** ** api: the identity verifier *)

Module api.

(** The attributes of [InquiryResponse] that the node reads. *)
Record InquiryResponse := mkInquiry
  { Type_ : string;
    ID : string;
    Status : string;
    CreatedAt : Time;
    CompletedAt : Time;
    NameFirst : string;
    NameLast : string }.

Record VerificationResult := mkResult
  { rStatus : string;
    FirstName : string;
    LastName : string;
    rCreatedAt : Time;
    Verified : bool }.

Definition setVerified (r : VerificationResult) : VerificationResult :=
  mkResult (rStatus r) (FirstName r) (LastName r) (rCreatedAt r) true.

Section Persona.

(** [PersonaClient.GetInquiry]: the authenticated GET and the decoding
    of its answer, whatever the service sends. *)
Variable GetInquiry : string -> InquiryResponse + error.
(** The text that [%s] prints for a [time.Time]. *)
Variable formatTime : Time -> string.

(** [PersonaClient.VerifyIdentity], with the clock read as [now]. *)
Definition VerifyIdentity (now : Time)
    (inquiryID expectedName expectedSurname : string)
    : option VerificationResult * option error :=
  match GetInquiry inquiryID with
  | inr err => (None, Some ("failed to get inquiry: " ++ err)%string)
  | inl inquiry =>
      let result := mkResult (Status inquiry) (NameFirst inquiry)
                             (NameLast inquiry) (CreatedAt inquiry) false in
      if negb (rStatus result =? "completed")%string
         && negb (rStatus result =? "approved")%string then
        (Some result,
         Some ("inquiry not completed, status: " ++ rStatus result)%string)
      else if negb (expectedName =? "")%string
              && negb (expectedSurname =? "")%string
              && (negb (FirstName result =? expectedName)%string
                  || negb (LastName result =? expectedSurname)%string) then
        (Some result,
         Some ("name mismatch: expected " ++ expectedName ++ " " ++
               expectedSurname ++ ", got " ++ FirstName result ++ " " ++
               LastName result)%string)
      else if 24 * time.Hour <? time.Since now (rCreatedAt result) then
        (Some result,
         Some ("inquiry too old: created at " ++
               formatTime (rCreatedAt result))%string)
      else (Some (setVerified result), None)
  end.

End Persona.

(** [MockPersonaClient]. *)
Record MockPersonaClient := mkMock { mockData : gmap string InquiryResponse }.

Definition NewMockPersonaClient : MockPersonaClient := mkMock ∅.

(** [AddMockInquiry], called at [now]. *)
Definition AddMockInquiry (now : Time) (m : MockPersonaClient)
    (inquiryID status firstName lastName : string) : MockPersonaClient :=
  mkMock (<[inquiryID := mkInquiry "inquiry" inquiryID status now now
                                   firstName lastName]> (mockData m)).

Definition MockGetInquiry (m : MockPersonaClient) (inquiryID : string)
    : InquiryResponse + error :=
  match mockData m !! inquiryID with
  | Some inquiry => inl inquiry
  | None => inr "inquiry not found"
  end.

(** [MockPersonaClient.VerifyIdentity]. *)
Definition MockVerifyIdentity (m : MockPersonaClient)
    (inquiryID expectedName expectedSurname : string)
    : option VerificationResult * option error :=
  match MockGetInquiry m inquiryID with
  | inr err => (None, Some err)
  | inl inquiry =>
      let result := mkResult (Status inquiry) (NameFirst inquiry)
                             (NameLast inquiry) (CreatedAt inquiry) false in
      if ((rStatus result =? "completed")%string
          || (rStatus result =? "approved")%string)
         && ((FirstName result =? expectedName)%string
             && (LastName result =? expectedSurname)%string)
      then (Some (setVerified result), None)
      else (Some result, None)
  end.

(** Whether a call answered a result that is marked verified. *)
Definition verified (r : option VerificationResult * option error) : bool :=
  match fst r with
  | Some res => Verified res
  | None => false
  end.

(** The policy in the words of the specification: status completed or
    approved, both names equal, and not older than 24 hours at [now]. *)
Definition policy (now : Time) (inquiry : InquiryResponse)
    (expectedName expectedSurname : string) : Prop :=
  (Status inquiry = "completed" \/ Status inquiry = "approved")
  /\ NameFirst inquiry = expectedName
  /\ NameLast inquiry = expectedSurname
  /\ time.Since now (CreatedAt inquiry) <= 24 * time.Hour.

End api.

(** ** network/server.go: the submission handler *)

Module server.
Import transaction.

(** The body of a submission once decoded. *)
Record Request := mkRequest
  { PublicKey : string;
    Name : string;
    Surname : string;
    InquiryID : string;
    Datetime : Time;
    Signature : string }.

(** What the handler writes: the status line and the body. *)
Record Response := mkResponse { StatusCode : Z; Body : string }.

Definition StatusOK : Z := 200.
Definition StatusBadRequest : Z := 400.
Definition StatusInternalServerError : Z := 500.

(** [http.Error]: the message and a newline, under the given code. *)
Definition httpError (msg : string) (code : Z) : Response :=
  mkResponse code (msg ++ String "010"%char "")%string.

(** The zero [time.Time] is 1 January of year 1, UTC. *)
Definition zeroTime : Time := (-62135596800) * time.Second.
Definition IsZero (t : Time) : bool := t =? zeroTime.

(** The JSON object of a success, keys in the order [encoding/json]
    writes a map: message, success, transaction_id. *)
Definition quote : string := String (ascii_of_nat 34) EmptyString.
Definition successBody (id : string) : string :=
  ("{" ++ quote ++ "message" ++ quote ++ ":" ++ quote ++
   "Certification submitted successfully" ++ quote ++ "," ++ quote ++
   "success" ++ quote ++ ":true," ++ quote ++ "transaction_id" ++ quote ++
   ":" ++ quote ++ id ++ quote ++ "}" ++ String "010"%char EmptyString)%string.

Section Handler.

Variable VerifyRSASignature : string -> string -> string -> option error.
(** [s.personaClient.VerifyIdentity]: either client of package [api]. *)
Variable personaClient :
  string -> string -> string -> option api.VerificationResult * option error.

(** [handleSubmitCertification]. The handler reads the clock at [now],
    for the datetime it fills in and for its own [Validate] right after;
    [AddTransaction] reads the clock again, at [later], once the
    signature check and the identity call have returned. The body is
    [None] when it does not decode; the response is [None] when the
    handler panics on a verifier that answers neither a result nor an
    error. *)
Definition handleSubmitCertification (now later : Time)
    (bc : blockchain.Blockchain) (body : option Request)
    : blockchain.Blockchain * option Response :=
  match body with
  | None => (bc, Some (httpError "Invalid request body" StatusBadRequest))
  | Some req =>
      let datetime := if IsZero (Datetime req) then now else Datetime req in
      let tx := NewTransaction (PublicKey req) (Name req) (Surname req)
                               (InquiryID req) datetime (Signature req) in
      match transaction.Validate now tx with
      | Some err =>
          (bc, Some (httpError ("Invalid transaction: " ++ err) StatusBadRequest))
      | None =>
          match transaction.VerifySignature VerifyRSASignature tx with
          | Some err =>
              (bc, Some (httpError ("Invalid signature: " ++ err) StatusBadRequest))
          | None =>
              match personaClient (InquiryID req) (Name req) (Surname req) with
              | (_, Some err) =>
                  (bc, Some (httpError ("Identity verification failed: " ++ err)
                                       StatusBadRequest))
              | (None, None) => (bc, None)
              | (Some result, None) =>
                  if negb (api.Verified result) then
                    (bc, Some (httpError "Identity not verified" StatusBadRequest))
                  else
                    match blockchain.AddTransaction VerifyRSASignature
                            later bc tx with
                    | (bc', Some err) =>
                        (bc', Some (httpError ("Failed to add transaction: " ++ err)
                                              StatusInternalServerError))
                    | (bc', None) =>
                        (bc', Some (mkResponse StatusOK
                                      (successBody (transaction.ID tx))))
                    end
              end
          end
      end
  end.

End Handler.

(** The transaction that the handler builds from a submission at [now]. *)
Definition submitted (now : Time) (req : Request) : Transaction :=
  NewTransaction (PublicKey req) (Name req) (Surname req) (InquiryID req)
                 (if IsZero (Datetime req) then now else Datetime req)
                 (Signature req).

End server.

(** ** The block hash in the words of the specification *)

Module spec.
Import block.

(** A hash on the wire: the hex decoded, on 32 bytes, padded with zeros. *)
Definition hash32 (s : string) : list byte :=
  let bs := hex.DecodeString s in
  firstn 32 (bs ++ repeat Byte.x00 (32 - length bs)).

(** Version (u32), previous hash and Merkle root (32 bytes each), the
    timestamp in seconds, bits (u32), nonce (u32) and height (u64), in
    this order. *)
Definition headerBytes (h : BlockHeader) : list byte :=
  bytes.be 4 (Version h) ++ hash32 (PrevBlockHash h) ++
  hash32 (MerkleRoot h) ++ bytes.be 8 (time.Unix (Timestamp h)) ++
  bytes.be 4 (Bits h) ++ bytes.be 4 (Nonce h) ++ bytes.be 8 (Height h).

Definition blockHash (b : Block) : string :=
  hex.EncodeToString (sha256.Sum256 (headerBytes (Header b))).

End spec.

(** The nodes of a level carry the hex of the hashes [hs]. *)
Definition carries (nodes : list merkle.MerkleNode) (hs : list (list byte)) : Prop :=
  map merkle.nodeHash nodes = map hex.EncodeToString hs.

(** A level of hashes as the hex text that [merkle.go] and [hash.go] keep. *)
Definition hexes (hs : list (list byte)) : list string :=
  map hex.EncodeToString hs.



(** The fields of a transaction fit the 32-bit length that precedes them,
    and its Unix time is an [int64]. *)
Definition wireSized (tx : transaction.Transaction) : Prop :=
  Z.of_nat (String.length (transaction.ID tx)) < 2 ^ 32
  /\ Z.of_nat (String.length (transaction.PublicKey tx)) < 2 ^ 32
  /\ Z.of_nat (String.length (transaction.Name tx)) < 2 ^ 32
  /\ Z.of_nat (String.length (transaction.Surname tx)) < 2 ^ 32
  /\ Z.of_nat (String.length (transaction.InquiryID tx)) < 2 ^ 32
  /\ Z.of_nat (String.length (transaction.Signature tx)) < 2 ^ 32
  /\ Z.of_nat (String.length (transaction.Status tx)) < 2 ^ 32
  /\ - 2 ^ 63 <= time.Unix (transaction.Datetime tx) < 2 ^ 63.

(** ** Sample data *)

Module sample.
Import transaction block.

(** 2025-01-01T00:00:00Z. *)
Definition now : Time := 1735689600 * time.Second.

Definition txA : Transaction := NewTransaction "PK_A" "Alice" "Doe" "inq-1" now "SIG_A".
Definition txB : Transaction := NewTransaction "PK_B" "Bob" "Roe" "inq-1" now "SIG_B".
Definition txC : Transaction := NewTransaction "PK_C" "Carol" "Poe" "inq-2" now "SIG_C".
Definition txD : Transaction := NewTransaction "PK_D" "Dave" "Moe" "inq-2" now "SIG_D".

(** Bob Roe with the inquiry [inq-7], and Bob Roei with the inquiry
    [nq-7] half a second later and under another signature. *)
Definition txRoe : Transaction :=
  NewTransaction "PK_B" "Bob" "Roe" "inq-7" now "SIG_1".
Definition txRoei : Transaction :=
  NewTransaction "PK_B" "Bob" "Roei" "nq-7" (now + 500000000) "SIG_2".

(** A block as [NewBlock] builds it, with the bits and nonce of a miner. *)
Definition mined (txs : list Transaction) (prev : string) (height bits nonce : Z)
    : Block :=
  let b := NewBlock now txs prev height in
  let h := Header b in
  mkBlock (mkHeader (Version h) (PrevBlockHash h) (MerkleRoot h) (Timestamp h)
                    bits nonce (Height h))
          (Transactions b).

Definition B0 : Block := mined [txA] "0" 0 16 5233.
Definition B1 : Block :=
  mined [txB; txD]
        "00003e8633e361ebd74f52ba00bce29d8a9672107b5832c8b3f58663edeafbd0"
        1 16 24285.
(** A first block with a previous hash that is no hash and height 7. *)
Definition B0' : Block := mined [txA] "not-a-hash" 7 16 27034.

(** [B1] with another height and nothing else changed. *)
Definition B1_at_99 : Block :=
  mkBlock (mkHeader (Version (Header B1)) (PrevBlockHash (Header B1))
                    (MerkleRoot (Header B1)) (Timestamp (Header B1))
                    (Bits (Header B1)) (Nonce (Header B1)) 99)
          (Transactions B1).

(** [txA] as a struct literal that leaves [Status] out. *)
Definition txNoStatus : Transaction :=
  mkTransaction (ID txA) "PK_A" "Alice" "Doe" "inq-1" now "SIG_A" "".

(** The inquiry of Alice Doe, completed at [now]. *)
Definition inquiryA : api.InquiryResponse :=
  api.mkInquiry "inquiry" "inq-1" "completed" now now "Alice" "Doe".

(** A service that knows [inquiryA] and nothing else. *)
Definition service (inquiryID : string) : api.InquiryResponse + error :=
  if (inquiryID =? "inq-1")%string then inl inquiryA
  else inr "API returned status 404: ".

(** The instant printed as its Unix seconds. *)
Definition printSeconds (t : Time) : string := pretty (time.Unix t).

(** The mock client after [AddMockInquiry] of Alice Doe at [now]. *)
Definition mock : api.MockPersonaClient :=
  api.AddMockInquiry now api.NewMockPersonaClient "inq-1" "completed" "Alice" "Doe".

Definition healthy : storage.Database := storage.mkDB ∅ None.
Definition broken : storage.Database := storage.mkDB ∅ (Some "disk full").

(** A signature check that accepts everything. *)
Definition acceptAll (publicKey message signature : string) : option error := None.

(** A node that accepted [B0], pooled [txC], and then accepted [B1] from a
    peer: [B1] holds [txB], whose inquiry is the one of [txA] in [B0], and
    [txD], whose inquiry is the one of the pooled [txC]. *)
Definition afterB0 : blockchain.Blockchain :=
  fst (blockchain.AddBlock now (blockchain.empty healthy) B0).
Definition afterTxC : blockchain.Blockchain :=
  fst (blockchain.AddTransaction acceptAll now afterB0 txC).
Definition afterB1 : blockchain.Blockchain :=
  fst (blockchain.AddBlock now afterTxC B1).

(** A chain whose tip has height 2015, so that the next block closes a
    window of 2016: [B0] again, with that height (the height is not
    hashed, the nonce still fits). *)
Definition B2015 : Block := mined [txA] "0" 2015 16 5233.
(** 943 seconds after [now]: the block that [mineBlock] builds at this
    instant passes the proof of work with the nonce 0 it is created with. *)
Definition miningTime : Time := (1735689600 + 943) * time.Second.
Definition beforeMining : blockchain.Blockchain :=
  fst (blockchain.AddTransaction acceptAll now
         (fst (blockchain.AddBlock now (blockchain.empty healthy) B2015)) txC).

(** The node after the tick of the miner at [miningTime]. *)
Definition afterMining : blockchain.Blockchain :=
  match blockchain.mineBlock miningTime miningTime beforeMining with
  | Some bc => bc
  | None => beforeMining
  end.

(** The submission of [txA], and two submissions that differ in where the
    surname ends and the inquiry begins. *)
Definition reqA : server.Request :=
  server.mkRequest "PK_A" "Alice" "Doe" "inq-1" now "SIG_A".
Definition reqE1 : server.Request :=
  server.mkRequest "PK_E" "Eve" "Doe" "xinq-9" now "SIG_E".
Definition reqE2 : server.Request :=
  server.mkRequest "PK_E" "Eve" "Doex" "inq-9" now "SIG_E".
(** A verifier that vouches for every submission. *)
Definition vouch (inquiryID name surname : string)
    : option api.VerificationResult * option error :=
  (Some (api.mkResult "completed" name surname now true), None).
(** Two seconds after [now]: the identity call has answered. *)
Definition answered : Time := (1735689600 + 2) * time.Second.
Definition afterE1 : blockchain.Blockchain :=
  fst (server.handleSubmitCertification acceptAll vouch now answered
         (blockchain.empty healthy) (Some reqE1)).
(** The submission of [txA] again, dated exactly 24 hours before [now]. *)
Definition reqOld : server.Request :=
  server.mkRequest "PK_A" "Alice" "Doe" "inq-1" (now - 24 * time.Hour) "SIG_A".

(** [txA] as a peer can send it, under an [ID] that is not its hash, and
    the block that [NewBlock] builds around it. *)
Definition txOtherID : Transaction :=
  mkTransaction "not-the-hash" "PK_A" "Alice" "Doe" "inq-1" now "SIG_A" "pending".
Definition blockOtherID : Block := NewBlock now [txOtherID] "0" 0.

(** The node after [B0], when the store has begun to fail and has
    refused [B1]. *)
Definition storeFailing : blockchain.Blockchain :=
  blockchain.setDB afterB0
    (storage.mkDB (storage.kv (blockchain.db afterB0)) (Some "disk full")).
Definition afterRefusal : blockchain.Blockchain :=
  fst (blockchain.AddBlock now storeFailing B1).

End sample.

(** * Known answers *)

Example sha256_abc :
  hex.EncodeToString (sha256.Sum256 (bytes.of_string "abc"))
  = "ba7816bf8f01cfea414140de5dae2223b00361a396177a9cb410ff61f20015ad".
Proof. vm_compute. reflexivity. Qed.

Example sha256_empty :
  hex.EncodeToString (sha256.Sum256 [])
  = "e3b0c44298fc1c149afbf4c8996fb92427ae41e4649b934ca495991b7852b855".
Proof. vm_compute. reflexivity. Qed.

Example sha256_two_blocks :
  hex.EncodeToString (sha256.Sum256 (bytes.of_string
    "abcdbcdecdefdefgefghfghighijhijkijkljklmklmnlmnomnopnopq"))
  = "248d6a61d20638b8e5c026930c3e6039a33ce45964ff2167f6ecedd419db06c1".
Proof. vm_compute. reflexivity. Qed.

Example txA_hash :
  transaction.Hash sample.txA
  = "e7740e4eaab3e2a4b2f3c361ae10658b8b9ae4a887c44d3cc05e78b550b78ea0".
Proof. vm_compute. reflexivity. Qed.

Example B0_hash :
  block.Hash sample.B0
  = "00003e8633e361ebd74f52ba00bce29d8a9672107b5832c8b3f58663edeafbd0".
Proof. vm_compute. reflexivity. Qed.

Example B1_hash :
  block.MerkleRoot (block.Header sample.B1)
  = "2964eec660185200e2dd9e7b631c4220d58b64a54390ef2366f013309dacbe5d"
  /\ block.Hash sample.B1
  = "0000a984b69384d6ea5067f87d301098f3836a23eecf8772d334482fa11ab24d".
Proof. vm_compute. split; reflexivity. Qed.

Example merkle_three :
  block.merkleRootOf [sample.txA; sample.txB; sample.txC]
  = "08a48c3e538e8636c23941289a32ea2b9f21079db799f9ee3c01a0cd91ad2f31".
Proof. vm_compute. reflexivity. Qed.

Example tree_one :
  merkle.CalculateMerkleRootFromTransactions [sample.txA]
  = Some "868e65aa73952ef75e1488f5dd5e8aa69817d59268df4beb01eb7e87e34b2acd".
Proof. vm_compute. reflexivity. Qed.

(** * Encoding facts *)

Lemma be_length n z : length (bytes.be n z) = n.
Proof. induction n as [|n IH]; simpl; [reflexivity | now rewrite IH]. Qed.

Lemma of_string_length s : length (bytes.of_string s) = String.length s.
Proof.
  unfold bytes.of_string, list_byte_of_string.
  induction s as [|c r IH]; simpl; [reflexivity | now rewrite IH].
Qed.

Lemma Sum256_length msg : length (sha256.Sum256 msg) = 32%nat.
Proof.
  unfold sha256.Sum256. cbv zeta.
  repeat rewrite length_app. repeat rewrite be_length. reflexivity.
Qed.

Lemma decode_encode_byte b r :
  hex.DecodeString (hex.EncodeToString (b :: r))
  = b :: hex.DecodeString (hex.EncodeToString r).
Proof. destruct b; reflexivity. Qed.

(** Decoding the hex of a byte sequence gives the bytes back. *)
Lemma decode_encode bs : hex.DecodeString (hex.EncodeToString bs) = bs.
Proof.
  induction bs as [|b r IH]; [reflexivity|].
  rewrite decode_encode_byte. now rewrite IH.
Qed.

Lemma encode_length bs :
  String.length (hex.EncodeToString bs) = (2 * length bs)%nat.
Proof. induction bs as [|b r IH]; simpl; [reflexivity | rewrite IH; lia]. Qed.

Lemma encode_lower_byte b r :
  hex.isLowerHex (hex.EncodeToString (b :: r))
  = hex.isLowerHex (hex.EncodeToString r).
Proof. destruct b; reflexivity. Qed.

Lemma encode_lower bs : hex.isLowerHex (hex.EncodeToString bs) = true.
Proof.
  induction bs as [|b r IH]; [reflexivity|]. now rewrite encode_lower_byte.
Qed.

(** * Merkle root of a block (block.go) *)

Lemma Hash_ignores_ID id pk name surname inq dt sig st :
  transaction.Hash (transaction.mkTransaction id pk name surname inq dt sig st)
  = transaction.Hash (transaction.mkTransaction "" pk name surname inq dt sig st).
Proof. reflexivity. Qed.

Lemma merkleRootOf_single tx : block.merkleRootOf [tx] = transaction.Hash tx.
Proof.
  unfold block.merkleRootOf, block.rootOfHashes, block.leaf.
  cbn [map length block.reduce Nat.ltb Nat.leb].
  unfold transaction.Hash. now rewrite decode_encode.
Qed.

(** C7, as the code has it. The Merkle root of no transaction is the
    empty string; the Merkle root of one transaction is the hex SHA-256 of
    its fields that [Hash] recomputes, whatever [ID] the transaction
    stores. It is the stored [ID] exactly when that [ID] is the hash, as
    it is for every transaction that [NewTransaction] built. So a block
    that holds a single transaction has the hash of that transaction as
    its Merkle root, and its [ID] only if the [ID] is the hash. *)
Theorem merkle_root_empty_and_single :
  (forall h, block.CalculateMerkleRoot (block.mkBlock h []) = "")
  /\ (forall h tx,
        block.CalculateMerkleRoot (block.mkBlock h [tx]) = transaction.Hash tx)
  /\ (forall h pk name surname inq dt sig,
        block.CalculateMerkleRoot
          (block.mkBlock h [transaction.NewTransaction pk name surname inq dt sig])
        = transaction.ID (transaction.NewTransaction pk name surname inq dt sig))
  /\ (forall now prev height tx,
        block.MerkleRoot (block.Header (block.NewBlock now [tx] prev height))
        = transaction.Hash tx)
  /\ (forall h tx,
        block.CalculateMerkleRoot (block.mkBlock h [tx]) = transaction.ID tx
        <-> transaction.ID tx = transaction.Hash tx).
Proof.
  split; [reflexivity|]. split; [intros h tx; apply merkleRootOf_single|].
  split; [|split].
  - intros h pk name surname inq dt sig.
    unfold block.CalculateMerkleRoot. cbn [block.Transactions].
    rewrite merkleRootOf_single. unfold transaction.NewTransaction.
    cbn [transaction.ID]. apply Hash_ignores_ID.
  - intros now prev height tx. unfold block.NewBlock.
    cbn [block.Header block.MerkleRoot]. apply merkleRootOf_single.
  - intros h tx. unfold block.CalculateMerkleRoot. cbn [block.Transactions].
    rewrite merkleRootOf_single. split; intros H; now symmetry.
Qed.

(** C7 fails as stated, on two blocks of one transaction whose Merkle
    root is not the id of the transaction. The genesis block holds the
    transaction that [GenesisBlock] writes under the [ID] [genesis]; its
    root is the hash of that transaction. [blockOtherID] holds [txA]
    under the [ID] [not-the-hash]: the transaction passes [Validate], the
    block that [NewBlock] builds around it passes [Block.Validate], and
    its stored and its recomputed root are the hash of [txA]. *)
Lemma merkle_root_is_not_the_stored_id :
  (exists genesisTx,
     block.Transactions (block.GenesisBlock sample.now) = [genesisTx]
     /\ transaction.ID genesisTx = "genesis"
     /\ block.CalculateMerkleRoot (block.GenesisBlock sample.now)
        <> transaction.ID genesisTx
     /\ block.MerkleRoot (block.Header (block.GenesisBlock sample.now))
        <> transaction.ID genesisTx)
  /\ (block.Transactions sample.blockOtherID = [sample.txOtherID]
      /\ transaction.Validate sample.now sample.txOtherID = None
      /\ block.Validate sample.now sample.blockOtherID = None
      /\ block.CalculateMerkleRoot sample.blockOtherID
         = transaction.Hash sample.txA
      /\ block.MerkleRoot (block.Header sample.blockOtherID)
         <> transaction.ID sample.txOtherID
      /\ block.CalculateMerkleRoot sample.blockOtherID
         <> transaction.ID sample.txOtherID).
Proof.
  split.
  - eexists. split; [reflexivity|]. split; [reflexivity|].
    split; intros H; vm_compute in H; discriminate H.
  - split; [reflexivity|]. split; [vm_compute; reflexivity|].
    split; [vm_compute; reflexivity|]. split; [vm_compute; reflexivity|].
    split; intros H; vm_compute in H; discriminate H.
Qed.

(** The sentinel of [GenesisBlock] is the one transaction of the code whose
    stored [ID] is not its hash: the root of the genesis block is the hash. *)
Remark genesis_root_is_the_hash now :
  block.MerkleRoot (block.Header (block.GenesisBlock now))
  = transaction.Hash
      (transaction.mkTransaction "genesis"
         "0000000000000000000000000000000000000000" "Genesis" "Block"
         "genesis" now "" "").
Proof.
  unfold block.GenesisBlock, block.NewBlock.
  cbn [block.Header block.MerkleRoot]. apply merkleRootOf_single.
Qed.

(** * The block hash (block.go) *)

(** C3, as the code has it. The block hash is the lowercase hex, 64
    characters long, of the SHA-256 of: the version on 4 bytes, the
    previous hash and the Merkle root as the bytes of their hex text, the
    Unix seconds of the timestamp on 8 bytes, the bits on 4 bytes and the
    nonce on 4 bytes, all big-endian. The height is not hashed: a header
    that differs in its height alone has the same hash. *)
Theorem block_hash_preimage (b : block.Block) :
  let h := block.Header b in
  block.Hash b
  = hex.EncodeToString
      (sha256.Sum256
         (bytes.be 4 (block.Version h) ++
          bytes.of_string (block.PrevBlockHash h) ++
          bytes.of_string (block.MerkleRoot h) ++
          bytes.be 8 (time.Unix (block.Timestamp h)) ++
          bytes.be 4 (block.Bits h) ++ bytes.be 4 (block.Nonce h)))
  /\ length (block.headerBytes h)
     = (20 + String.length (block.PrevBlockHash h)
        + String.length (block.MerkleRoot h))%nat
  /\ (forall height txs,
        block.Hash
          (block.mkBlock
             (block.mkHeader (block.Version h) (block.PrevBlockHash h)
                (block.MerkleRoot h) (block.Timestamp h) (block.Bits h)
                (block.Nonce h) height) txs)
        = block.Hash b)
  /\ String.length (block.Hash b) = 64%nat
  /\ hex.isLowerHex (block.Hash b) = true.
Proof.
  intros h. split; [|split; [|split; [|split]]].
  - reflexivity.
  - unfold block.headerBytes. repeat rewrite length_app.
    repeat rewrite be_length. repeat rewrite of_string_length. lia.
  - intros height txs. reflexivity.
  - unfold block.Hash. rewrite encode_length, Sum256_length. reflexivity.
  - apply encode_lower.
Qed.

(** C3 fails as stated: the hash of [B1] is not the digest of the header
    laid out with 32-byte hashes and the height, and a change of height
    alone changes that digest but not the hash of the block. *)
Lemma block_hash_is_not_the_specified_digest :
  block.Hash sample.B1 <> spec.blockHash sample.B1
  /\ block.Hash sample.B1_at_99 = block.Hash sample.B1
  /\ spec.blockHash sample.B1_at_99 <> spec.blockHash sample.B1.
Proof.
  repeat split.
  - intros H. vm_compute in H. discriminate H.
  - intros H. vm_compute in H. discriminate H.
Qed.

(** * The two Merkle roots (block.go and merkle.go) *)

Section TwoAtATime.
Variable A : Type.
Variable P : list A -> Prop.
Hypothesis P_nil : P [].
Hypothesis P_one : forall a, P [a].
Hypothesis P_two : forall a b r, P r -> P (a :: b :: r).

(** Induction over a list two elements at a time, as the loops
    [for i := 0; i < len; i += 2] walk it. *)
Lemma pair_induction : forall l, P l.
Proof.
  fix IH 1. intros [|a [|b r]].
  - exact P_nil.
  - apply P_one.
  - apply P_two. apply IH.
Qed.
End TwoAtATime.

Lemma pairUp_two a b r :
  block.pairUp (a :: b :: r) = sha256.Sum256 (a ++ b) :: block.pairUp r.
Proof. reflexivity. Qed.

Lemma pairUp_length hs :
  length (block.pairUp hs) = Nat.div2 (S (length hs)).
Proof.
  induction hs as [| a | a b r IH] using pair_induction; try reflexivity.
  cbn [block.pairUp length]. rewrite IH. reflexivity.
Qed.

Lemma pairUp_shrinks hs :
  (2 <= length hs)%nat -> (length (block.pairUp hs) < length hs)%nat.
Proof.
  rewrite pairUp_length. intros H.
  destruct (length hs) as [|[|n]]; try lia.
  change (Nat.div2 (S (S (S n)))) with (S (Nat.div2 (S n))).
  pose proof (Nat.div2_decr (S n) n (le_n _)) as Hd.
  apply -> Nat.succ_lt_mono. apply Nat.lt_succ_r. exact Hd.
Qed.

Lemma pairUp_nonempty hs :
  (1 <= length hs)%nat -> (1 <= length (block.pairUp hs))%nat.
Proof.
  rewrite pairUp_length. intros H. destruct (length hs) as [|n]; [lia|].
  change (Nat.div2 (S (S n))) with (S (Nat.div2 n)).
  apply le_n_S, Nat.le_0_l.
Qed.

Lemma last_cons_cons {A} (a b : A) r : last (a :: b :: r) = last (b :: r).
Proof. reflexivity. Qed.

Lemma odd_SS n : Nat.odd (S (S n)) = Nat.odd n.
Proof. reflexivity. Qed.

(** Pairing up an odd level and pairing up the level with its last hash
    doubled give the same hashes. *)
Lemma pairUp_evenize hs : block.pairUp (block.evenize hs) = block.pairUp hs.
Proof.
  unfold block.evenize.
  induction hs as [| a | a b r IH] using pair_induction; try reflexivity.
  change (length (a :: b :: r)) with (S (S (length r))). rewrite odd_SS.
  destruct (Nat.odd (length r)) eqn:Hodd; [|reflexivity].
  destruct r as [|c r']; [discriminate Hodd|].
  change (last (a :: b :: c :: r')) with (last (c :: r')).
  revert IH. destruct (last (c :: r')) as [x|]; intros IH; [|reflexivity].
  cbn [app] in *. rewrite !pairUp_two. now rewrite IH.
Qed.

Lemma last_cons_some {A} (l : list A) (a : A) : exists x, last (a :: l) = Some x.
Proof.
  revert a. induction l as [|b l IH]; intros a; [now exists a|].
  rewrite last_cons_cons. apply IH.
Qed.

Lemma evenize_even hs : Nat.odd (length (block.evenize hs)) = false.
Proof.
  unfold block.evenize. destruct (Nat.odd (length hs)) eqn:Hodd; [|exact Hodd].
  destruct hs as [|h hs]; [discriminate Hodd|].
  destruct (last_cons_some hs h) as [x Hl]. rewrite Hl.
  rewrite length_app. cbn [length]. rewrite Nat.add_1_r.
  rewrite Nat.odd_succ. rewrite <- Nat.negb_odd.
  cbn [length] in Hodd. now rewrite Hodd.
Qed.

Lemma evenize_length_ge hs : (length hs <= length (block.evenize hs))%nat.
Proof.
  unfold block.evenize. destruct (Nat.odd (length hs)); [|lia].
  destruct (last hs); [|lia]. rewrite length_app. lia.
Qed.

Lemma carries_length nodes hs : carries nodes hs -> length nodes = length hs.
Proof.
  unfold carries. intros H. apply (f_equal (@length _)) in H.
  now rewrite !length_map in H.
Qed.

Lemma carries_last nodes hs :
  carries nodes hs ->
  match last nodes, last hs with
  | Some n, Some h => merkle.nodeHash n = hex.EncodeToString h
  | None, None => True
  | _, _ => False
  end.
Proof.
  unfold carries. revert hs.
  induction nodes as [|n nodes IH]; intros [|h hs] H; try discriminate H.
  - exact I.
  - cbn [map] in H. injection H as H1 H2.
    destruct nodes as [|n' nodes]; destruct hs as [|h' hs]; try discriminate H2.
    + exact H1.
    + rewrite !last_cons_cons. apply IH. exact H2.
Qed.

Lemma carries_dupLast nodes hs :
  carries nodes hs -> carries (merkle.dupLast nodes) (block.evenize hs).
Proof.
  intros H. unfold merkle.dupLast, block.evenize.
  rewrite (carries_length _ _ H).
  destruct (Nat.odd (length hs)); [|exact H].
  pose proof (carries_last _ _ H) as Hl.
  destruct (last nodes) as [n|], (last hs) as [h|]; try contradiction; [|exact H].
  unfold carries in *. rewrite !map_app. cbn [map]. now rewrite H, Hl.
Qed.

(** One pass over an even level of nodes is one pass over its hashes. *)
Lemma level_carries : forall hs nodes,
  carries nodes hs -> Nat.odd (length hs) = false ->
  exists lv, merkle.level nodes = Some lv /\ carries lv (block.pairUp hs).
Proof.
  induction hs as [| a | a b r IH] using pair_induction; intros nodes H Hev.
  - destruct nodes; [|discriminate H]. exists []. split; reflexivity.
  - discriminate Hev.
  - destruct nodes as [|n1 [|n2 nodes]]; try discriminate H.
    unfold carries in H. cbn [map] in H. injection H as H1 H2 H3.
    destruct (IH nodes H3 Hev) as [lv [Hlv Hc]].
    cbn [merkle.level]. rewrite Hlv. eexists. split; [reflexivity|].
    unfold carries in *. cbn [map block.pairUp]. rewrite Hc. f_equal.
    unfold merkle.NewMerkleNode. cbn [merkle.nodeHash].
    now rewrite H1, H2, !decode_encode.
Qed.

Lemma ltb_1_length {A} (l : list A) :
  (1 <? length l)%nat = true <-> (2 <= length l)%nat.
Proof. rewrite Nat.ltb_lt. lia. Qed.

Lemma build_done fuel nodes :
  (length nodes <= 1)%nat -> merkle.build fuel nodes = Some nodes.
Proof.
  intros H. destruct fuel; [reflexivity|]. cbn [merkle.build].
  destruct (1 <? length nodes)%nat eqn:E; [|reflexivity].
  apply ltb_1_length in E. lia.
Qed.

Lemma reduce_done fuel hs :
  (length hs <= 1)%nat -> block.reduce fuel hs = hs.
Proof.
  intros H. destruct fuel; [reflexivity|]. cbn [block.reduce].
  destruct (1 <? length hs)%nat eqn:E; [|reflexivity].
  apply ltb_1_length in E. lia.
Qed.

(** The loop of [NewMerkleTree] on the nodes and the loop of
    [CalculateMerkleRoot] on the hashes end on the same root, when they
    start from two hashes or more. *)
Lemma build_reduce : forall n hs nodes f1 f2,
  (length hs <= n)%nat -> (2 <= length hs)%nat ->
  (length hs <= f1)%nat -> (length hs <= f2)%nat ->
  carries nodes (block.evenize hs) ->
  exists root h,
    merkle.build f1 nodes = Some [root] /\ block.reduce f2 hs = [h]
    /\ merkle.nodeHash root = hex.EncodeToString h.
Proof.
  induction n as [|n IH]; intros hs nodes f1 f2 Hn H2 Hf1 Hf2 Hc; [lia|].
  destruct f1 as [|f1]; [lia|]. destruct f2 as [|f2]; [lia|].
  cbn [merkle.build block.reduce].
  pose proof (carries_length _ _ Hc) as Hlen.
  pose proof (evenize_length_ge hs) as Hge.
  assert (E1 : (1 <? length nodes)%nat = true) by (apply ltb_1_length; lia).
  assert (E2 : (1 <? length hs)%nat = true) by (apply ltb_1_length; lia).
  rewrite E1, E2.
  destruct (level_carries _ _ Hc (evenize_even hs)) as [lv [Hlv Hclv]].
  rewrite Hlv. rewrite pairUp_evenize in Hclv.
  pose proof (carries_length _ _ Hclv) as Hlvlen.
  pose proof (pairUp_shrinks _ H2) as Hlt.
  assert (Hpos : (1 <= length (block.pairUp hs))%nat)
    by (apply pairUp_nonempty; lia).
  destruct (1 <? length lv)%nat eqn:E3.
  - apply ltb_1_length in E3.
    apply (IH (block.pairUp hs)); try lia.
    now apply carries_dupLast.
  - assert (Hone : length lv = 1%nat).
    { destruct (ltb_1_length lv) as [_ Hb].
      destruct (le_lt_dec 2 (length lv)) as [Hl|Hl];
        [rewrite (Hb Hl) in E3; discriminate E3 | lia]. }
    rewrite build_done by lia. rewrite reduce_done by lia.
    destruct lv as [|root [|? ?]]; try discriminate Hone.
    destruct (block.pairUp hs) as [|h [|? ?]] eqn:Ep; try discriminate Hclv.
    exists root, h. repeat split. unfold carries in Hclv.
    cbn [map] in Hclv. now injection Hclv.
Qed.

Lemma leaves_carry txs :
  carries (map (merkle.NewMerkleNode None None) (map transaction.Serialize txs))
          (map merkle.leaf txs).
Proof.
  unfold carries. induction txs as [|tx txs IH]; [reflexivity|].
  cbn [map]. now rewrite IH.
Qed.

#[local] Arguments sha256.Sum256 : simpl never.
#[local] Arguments hex.EncodeToString : simpl never.
#[local] Arguments hex.DecodeString : simpl never.

Lemma block_leaf tx : block.leaf tx = sha256.Sum256 (transaction.hashBytes tx).
Proof. unfold block.leaf, transaction.Hash. apply decode_encode. Qed.

Lemma tree_root_single tx :
  merkle.CalculateMerkleRootFromTransactions [tx]
  = Some (hex.EncodeToString (sha256.Sum256 (merkle.leaf tx ++ merkle.leaf tx))).
Proof.
  unfold merkle.CalculateMerkleRootFromTransactions, merkle.NewMerkleTree.
  cbn. unfold merkle.GetRootHash. cbn. now rewrite decode_encode.
Qed.

Lemma tree_root_many tx1 tx2 rest :
  merkle.CalculateMerkleRootFromTransactions (tx1 :: tx2 :: rest)
  = Some (block.rootOfHashes (map merkle.leaf (tx1 :: tx2 :: rest))).
Proof.
  set (txs := tx1 :: tx2 :: rest).
  assert (H2 : (2 <= length (map merkle.leaf txs))%nat)
    by (rewrite length_map; cbn [txs length]; lia).
  pose proof (carries_dupLast _ _ (leaves_carry txs)) as Hc.
  pose proof (carries_length _ _ Hc) as Hlen.
  pose proof (evenize_length_ge (map merkle.leaf txs)) as Hge.
  destruct (build_reduce (length (map merkle.leaf txs)) (map merkle.leaf txs)
              _ (length (merkle.dupLast
                   (map (merkle.NewMerkleNode None None)
                        (map transaction.Serialize txs))))
              (length (map merkle.leaf txs))
              (le_n _) H2 ltac:(lia) (le_n _) Hc)
    as [root [h [Hb [Hr Hh]]]].
  unfold merkle.CalculateMerkleRootFromTransactions, merkle.NewMerkleTree.
  fold txs. change (tx1 :: tx2 :: rest) with txs. rewrite Hb.
  unfold block.rootOfHashes. rewrite Hr.
  unfold merkle.GetRootHash. cbn [merkle.Root]. now rewrite Hh.
Qed.

(** Neither loop runs out of passes or indexes past the end: the tree
    of [merkle.go] has a root for every list of transactions, and the loop
    of [block.go] ends on one hash. *)
Lemma reduce_to_one : forall n hs f,
  (length hs <= n)%nat -> (1 <= length hs)%nat -> (length hs <= f)%nat ->
  exists h, block.reduce f hs = [h].
Proof.
  induction n as [|n IH]; intros hs f Hn H1 Hf; [lia|].
  destruct (le_lt_dec 2 (length hs)) as [H2|H2].
  - destruct f as [|f]; [lia|]. cbn [block.reduce].
    assert (E : (1 <? length hs)%nat = true) by (apply ltb_1_length; lia).
    rewrite E. pose proof (pairUp_shrinks _ H2).
    apply IH; [lia | apply pairUp_nonempty; lia | lia].
  - rewrite reduce_done by lia.
    destruct hs as [|h [|? ?]]; cbn [length] in *; try lia. now exists h.
Qed.

Lemma tree_root_total txs :
  exists root, merkle.CalculateMerkleRootFromTransactions txs = Some root.
Proof.
  destruct txs as [|tx1 [|tx2 rest]].
  - now exists "".
  - eexists. apply tree_root_single.
  - eexists. apply tree_root_many.
Qed.



(** * Serialization of a transaction (transaction.go) *)

Lemma byte_to_of_Z z : bytes.byte_to_Z (bytes.byte_of_Z z) = z mod 256.
Proof.
  unfold bytes.byte_to_Z, bytes.byte_of_Z.
  pose proof (Z.mod_pos_bound z 256 eq_refl) as Hb.
  destruct (Byte.of_N (Z.to_N (z mod 256))) as [b|] eqn:E.
  - apply Byte.to_of_N in E. rewrite E. apply Z2N.id. lia.
  - apply Byte.of_N_None_iff in E. lia.
Qed.

Lemma be_val_be_acc k z acc :
  fold_left (fun a b => a * 256 + bytes.byte_to_Z b) (bytes.be k z) acc
  = acc * 256 ^ Z.of_nat k + z mod 256 ^ Z.of_nat k.
Proof.
  revert acc. induction k as [|k IH]; intros acc.
  - cbn [bytes.be fold_left]. change (256 ^ Z.of_nat 0) with 1.
    rewrite Z.mod_1_r. lia.
  - cbn [bytes.be fold_left]. rewrite IH, byte_to_of_Z.
    rewrite Z.shiftr_div_pow2 by lia.
    replace (2 ^ (8 * Z.of_nat k)) with (256 ^ Z.of_nat k)
      by (change 256 with (2 ^ 8); rewrite <- Z.pow_mul_r by lia; reflexivity).
    rewrite Nat2Z.inj_succ, Z.pow_succ_r by lia.
    assert (Hp : 0 < 256 ^ Z.of_nat k) by (apply Z.pow_pos_nonneg; lia).
    rewrite (Z.mul_comm 256 (256 ^ Z.of_nat k)).
    rewrite (Z.rem_mul_r z (256 ^ Z.of_nat k) 256) by lia.
    ring.
Qed.

(** Reading back [n] big-endian bytes gives the low [8n] bits. *)
Lemma be_val_be n z : bytes.be_val (bytes.be n z) = z mod 256 ^ Z.of_nat n.
Proof. unfold bytes.be_val. rewrite be_val_be_acc. lia. Qed.

Lemma bind_ok {A B} (m : transaction.Read A) (k : A -> transaction.Read B)
    buf a rest :
  m buf = (inl a, rest) -> transaction.bind m k buf = k a rest.
Proof. intros H. unfold transaction.bind. now rewrite H. Qed.

Lemma readUint_be n z rest :
  (0 < n)%nat ->
  transaction.readUint n (bytes.be n z ++ rest)
  = (inl (z mod 256 ^ Z.of_nat n), rest).
Proof.
  intros Hn. unfold transaction.readUint.
  destruct (bytes.be n z ++ rest) as [|b l] eqn:E.
  - apply (f_equal (@length _)) in E. rewrite length_app, be_length in E.
    cbn [length] in E. lia.
  - rewrite <- E. clear E.
    assert (Hlt : (length (bytes.be n z ++ rest) <? n)%nat = false).
    { apply Nat.ltb_ge. rewrite length_app, be_length. lia. }
    rewrite Hlt.
    rewrite (take_app_length' _ _ n) by (now rewrite be_length).
    rewrite (drop_app_length' _ _ n) by (now rewrite be_length).
    now rewrite be_val_be.
Qed.

Lemma readBytes_app bs rest :
  bs ++ rest <> [] ->
  transaction.readBytes (length bs) (bs ++ rest) = (inl bs, rest).
Proof.
  intros Hne. unfold transaction.readBytes.
  destruct (bs ++ rest) as [|b l] eqn:E; [contradiction|].
  rewrite <- E. clear E.
  rewrite take_app_length, drop_app_length.
  replace (length bs - length (bs ++ rest))%nat with 0%nat
    by (rewrite length_app; lia).
  cbn [repeat]. now rewrite app_nil_r.
Qed.

(** A string of less than 2^32 bytes is read back as it was written,
    unless it is empty and nothing follows it. *)
Lemma readString_writeString s rest :
  Z.of_nat (String.length s) < 2 ^ 32 ->
  s <> "" \/ rest <> [] ->
  transaction.readString (transaction.writeString s ++ rest) = (inl s, rest).
Proof.
  intros Hlen Hne. unfold transaction.readString, transaction.writeString.
  rewrite <- app_assoc.
  rewrite (bind_ok _ _ _ _ _ (readUint_be 4 _ _ ltac:(lia))).
  change (256 ^ Z.of_nat 4) with (2 ^ 32).
  rewrite Z.mod_mod by lia. rewrite Z.mod_small by lia.
  rewrite Nat2Z.id. rewrite <- of_string_length.
  assert (Hrest : bytes.of_string s ++ rest <> []).
  { destruct Hne as [Hs|Hr].
    - destruct s; [contradiction|]. discriminate.
    - intros H. apply app_eq_nil in H. tauto. }
  rewrite (bind_ok _ _ _ _ _ (readBytes_app _ _ Hrest)).
  unfold transaction.ret, bytes.to_string, bytes.of_string.
  now rewrite string_of_list_byte_of_string.
Qed.

Lemma writeString_app_nonempty s rest : transaction.writeString s ++ rest <> [].
Proof. unfold transaction.writeString. discriminate. Qed.

Lemma signed_int64 z :
  - 2 ^ 63 <= z < 2 ^ 63 -> bytes.signed 64 (z mod 2 ^ 64) = z.
Proof.
  intros H. unfold bytes.signed. change (64 - 1) with 63.
  destruct (Z_lt_dec z 0) as [Hneg|Hpos].
  - replace (z mod 2 ^ 64) with (z + 2 ^ 64)
      by (apply Z.mod_unique with (-1); lia).
    assert (E : (z + 2 ^ 64 <? 2 ^ 63) = false) by (apply Z.ltb_ge; lia).
    rewrite E. lia.
  - rewrite Z.mod_small by lia.
    assert (E : (z <? 2 ^ 63) = true) by (apply Z.ltb_lt; lia).
    now rewrite E.
Qed.

(** Where the round trip holds: a transaction with a status is read back
    field for field, its instant cut to the second. *)
Lemma deserialize_serialize_with_status tx :
  wireSized tx -> transaction.Status tx <> "" ->
  transaction.DeserializeTransaction (transaction.Serialize tx)
  = inl (transaction.mkTransaction
           (transaction.ID tx) (transaction.PublicKey tx)
           (transaction.Name tx) (transaction.Surname tx)
           (transaction.InquiryID tx)
           (time.FromUnix (time.Unix (transaction.Datetime tx)))
           (transaction.Signature tx) (transaction.Status tx)).
Proof.
  intros (H1 & H2 & H3 & H4 & H5 & H6 & H7 & H8) Hst.
  unfold transaction.DeserializeTransaction, transaction.readTransaction,
    transaction.Serialize.
  rewrite (bind_ok _ _ _ _ _ (readString_writeString _ _ H1
             (or_intror (writeString_app_nonempty _ _)))).
  rewrite (bind_ok _ _ _ _ _ (readString_writeString _ _ H2
             (or_intror (writeString_app_nonempty _ _)))).
  rewrite (bind_ok _ _ _ _ _ (readString_writeString _ _ H3
             (or_intror (writeString_app_nonempty _ _)))).
  rewrite (bind_ok _ _ _ _ _ (readString_writeString _ _ H4
             (or_intror (writeString_app_nonempty _ _)))).
  assert (Hts : bytes.be 8 (time.Unix (transaction.Datetime tx)) ++
                transaction.writeString (transaction.Signature tx) ++
                transaction.writeString (transaction.Status tx) <> [])
    by discriminate.
  rewrite (bind_ok _ _ _ _ _ (readString_writeString _ _ H5 (or_intror Hts))).
  rewrite (bind_ok _ _ _ _ _ (readUint_be 8 _ _ ltac:(lia))).
  assert (Hlast : transaction.writeString (transaction.Status tx) <> [])
    by (unfold transaction.writeString; discriminate).
  rewrite (bind_ok _ _ _ _ _ (readString_writeString _ _ H6 (or_intror Hlast))).
  rewrite <- (app_nil_r (transaction.writeString (transaction.Status tx))).
  rewrite (bind_ok _ _ _ _ _ (readString_writeString _ _ H7 (or_introl Hst))).
  unfold transaction.ret. cbn [fst].
  change (256 ^ Z.of_nat 8) with (2 ^ 64). now rewrite signed_int64.
Qed.

(** C8, on a transaction that passes [Validate]: [txNoStatus] is [txA]
    with its status left empty. Its serialization ends on the four zero
    bytes of that length, and [DeserializeTransaction] fails on them with
    [EOF], where [txA] itself is read back whole. *)
Theorem deserialize_fails_on_empty_status :
  transaction.Validate sample.now sample.txNoStatus = None
  /\ transaction.DeserializeTransaction
       (transaction.Serialize sample.txNoStatus) = inr "EOF"
  /\ transaction.DeserializeTransaction (transaction.Serialize sample.txA)
     = inl sample.txA.
Proof. vm_compute. repeat split; reflexivity. Qed.

(** * The identity verifier (api) *)

Ltac string_cases :=
  repeat match goal with
  | |- context [ (?a =? ?b)%string ] => destruct (String.eqb_spec a b)
  | H : context [ (?a =? ?b)%string ] |- _ => destruct (String.eqb_spec a b)
  end.

Lemma persona_verified GetInquiry formatTime now id name surname :
  api.verified (api.VerifyIdentity GetInquiry formatTime now id name surname) = true
  <-> exists inquiry,
        GetInquiry id = inl inquiry
        /\ (api.Status inquiry = "completed" \/ api.Status inquiry = "approved")
        /\ (name = "" \/ surname = ""
            \/ (api.NameFirst inquiry = name /\ api.NameLast inquiry = surname))
        /\ time.Since now (api.CreatedAt inquiry) <= 24 * time.Hour.
Proof.
  unfold api.VerifyIdentity, api.verified.
  destruct (GetInquiry id) as [inquiry|err].
  2:{ cbn. split; [discriminate|]. intros (i & H & _). discriminate H. }
  cbn [api.rStatus api.FirstName api.LastName api.rCreatedAt].
  destruct (Z.ltb_spec (24 * time.Hour) (time.Since now (api.CreatedAt inquiry)));
    string_cases; cbn; split;
    try discriminate; try reflexivity;
    try (intros _; exists inquiry; repeat split; tauto || lia);
    try (intros (i & Hi & Hs & Hn & Ha); injection Hi as <-;
         exfalso; intuition (congruence || lia)).
Qed.

Lemma mock_verified m id name surname :
  api.verified (api.MockVerifyIdentity m id name surname) = true
  <-> exists inquiry,
        api.mockData m !! id = Some inquiry
        /\ (api.Status inquiry = "completed" \/ api.Status inquiry = "approved")
        /\ api.NameFirst inquiry = name /\ api.NameLast inquiry = surname.
Proof.
  unfold api.MockVerifyIdentity, api.MockGetInquiry, api.verified.
  destruct (api.mockData m !! id) as [inquiry|].
  2:{ cbn. split; [discriminate|]. intros (i & H & _). discriminate H. }
  cbn [api.rStatus api.FirstName api.LastName api.rCreatedAt].
  string_cases; cbn; split;
    try discriminate; try reflexivity;
    try (intros _; exists inquiry; repeat split; tauto);
    try (intros (i & Hi & Hs & Hn & Ha); injection Hi as <-;
         exfalso; intuition congruence).
Qed.

(** C4, as the code has it. The live client answers a verified result
    exactly when the inquiry could be fetched, its status is completed or
    approved, the expected name or surname is empty or else both names
    are the recorded ones, and the inquiry is at most 24 hours old. The
    mock client answers a verified result exactly when it holds the
    inquiry, the status is completed or approved and both names are the
    recorded ones; it does not look at the age. *)
Theorem verify_identity_verified_iff :
  (forall GetInquiry formatTime now id name surname,
     api.verified
       (api.VerifyIdentity GetInquiry formatTime now id name surname) = true
     <-> exists inquiry,
           GetInquiry id = inl inquiry
           /\ (api.Status inquiry = "completed"
               \/ api.Status inquiry = "approved")
           /\ (name = "" \/ surname = ""
               \/ (api.NameFirst inquiry = name
                   /\ api.NameLast inquiry = surname))
           /\ time.Since now (api.CreatedAt inquiry) <= 24 * time.Hour)
  /\ (forall m id name surname,
        api.verified (api.MockVerifyIdentity m id name surname) = true
        <-> exists inquiry,
              api.mockData m !! id = Some inquiry
              /\ (api.Status inquiry = "completed"
                  \/ api.Status inquiry = "approved")
              /\ api.NameFirst inquiry = name
              /\ api.NameLast inquiry = surname).
Proof.
  split.
  - intros. apply persona_verified.
  - intros. apply mock_verified.
Qed.

(** C4 fails as stated. The live client, asked for an empty name and the
    surname Smith, verifies the inquiry of Alice Doe; the mock client
    verifies an inquiry whatever its age, here 48 hours. *)
Lemma verify_identity_departs_from_policy :
  (api.verified
     (api.VerifyIdentity sample.service sample.printSeconds sample.now
        "inq-1" "" "Smith") = true
   /\ ~ api.policy sample.now sample.inquiryA "" "Smith")
  /\ (api.mockData sample.mock !! "inq-1" = Some sample.inquiryA
      /\ api.verified (api.MockVerifyIdentity sample.mock "inq-1" "Alice" "Doe")
         = true
      /\ ~ api.policy (sample.now + 48 * time.Hour) sample.inquiryA "Alice" "Doe").
Proof.
  split; [split|split; [|split]].
  - vm_compute. reflexivity.
  - intros (_ & H & _). discriminate H.
  - vm_compute. reflexivity.
  - vm_compute. reflexivity.
  - intros (_ & _ & _ & H). vm_compute in H. apply H. reflexivity.
Qed.

(** * Accepting a block (blockchain.go) *)

Lemma SaveBlock_ok d b :
  storage.fault d = None -> exists d', storage.SaveBlock d b = (d', None).
Proof.
  intros H. unfold storage.SaveBlock, storage.Update. rewrite H.
  eexists. reflexivity.
Qed.

Lemma SaveBlock_fails d b e :
  storage.fault d = Some e -> storage.SaveBlock d b = (d, Some e).
Proof. intros H. unfold storage.SaveBlock, storage.Update. now rewrite H. Qed.

(** The genesis block carries a transaction without a signature, which
    [Validate] refuses: [NewBlockchain] cannot add it, and fails. *)
Remark NewBlockchain_refuses_its_genesis now d :
  blockchain.NewBlockchain now d
  = (None,
     Some "failed to add genesis block: invalid block: invalid transaction genesis: signature is required").
Proof.
  unfold blockchain.NewBlockchain, blockchain.loadFromDB, storage.GetAllBlocks.
  cbn [length Nat.eqb blockchain.db blockchain.empty].
  unfold blockchain.AddBlock, block.Validate, block.GenesisBlock, block.NewBlock.
  cbn [block.Transactions block.Header block.MerkleRoot length Nat.eqb].
  unfold block.CalculateMerkleRoot. cbn [block.Transactions].
  rewrite String.eqb_refl. reflexivity.
Qed.









(** When the store refuses the block, [AddBlock] puts the list of blocks
    back and sets the height to the height of the block minus one. *)
Lemma failed_save_rolls_back now bc b e :
  block.Validate now b = None ->
  match last (blockchain.blocks bc) with
  | Some lastBlock =>
      block.PrevBlockHash (block.Header b) = block.Hash lastBlock
      /\ block.Height (block.Header b)
         = (block.Height (block.Header lastBlock) + 1) mod 2 ^ 64
  | None => True
  end ->
  consensus.Validate (blockchain.pow bc) b = true ->
  storage.fault (blockchain.db bc) = Some e ->
  blockchain.AddBlock now bc b
  = (blockchain.setChain bc (blockchain.blocks bc)
       ((block.Height (block.Header b) - 1) mod 2 ^ 64),
     Some ("failed to save block: " ++ e)%string).
Proof.
  intros Hvalid Hlink Hpow Hdb. unfold blockchain.AddBlock. rewrite Hvalid.
  assert (Hl : match last (blockchain.blocks bc) with
               | Some lastBlock =>
                   if negb (block.PrevBlockHash (block.Header b)
                            =? block.Hash lastBlock)%string
                   then Some "invalid previous block hash"
                   else if negb (block.Height (block.Header b)
                                 =? (block.Height (block.Header lastBlock) + 1)
                                    mod 2 ^ 64)
                        then Some "invalid block height" else None
               | None => None
               end = None).
  { destruct (last (blockchain.blocks bc)) as [lb|]; [|reflexivity].
    destruct Hlink as [Hp Hh]. rewrite Hp, String.eqb_refl. cbn [negb].
    rewrite Hh, Z.eqb_refl. reflexivity. }
  rewrite Hl, Hpow. cbn [negb blockchain.setChain blockchain.db].
  rewrite (SaveBlock_fails _ _ _ Hdb).
  cbn [blockchain.blocks blockchain.currentHeight blockchain.setChain
       blockchain.db blockchain.miningPool blockchain.difficulty
       blockchain.miningEnabled blockchain.pow].
  now rewrite removelast_last.
Qed.

(** On a chain with a block whose reported height is the height of its
    tip, a refused save leaves the state as it was. *)
Lemma failed_save_restores_nonempty now bc b e lastBlock :
  last (blockchain.blocks bc) = Some lastBlock ->
  blockchain.currentHeight bc = block.Height (block.Header lastBlock) ->
  0 <= block.Height (block.Header lastBlock) < 2 ^ 64 ->
  block.Validate now b = None ->
  block.PrevBlockHash (block.Header b) = block.Hash lastBlock ->
  block.Height (block.Header b)
  = (block.Height (block.Header lastBlock) + 1) mod 2 ^ 64 ->
  consensus.Validate (blockchain.pow bc) b = true ->
  storage.fault (blockchain.db bc) = Some e ->
  blockchain.AddBlock now bc b
  = (bc, Some ("failed to save block: " ++ e)%string).
Proof.
  intros Hlast Hcur Hrange Hvalid Hprev Hheight Hpow Hdb.
  rewrite (failed_save_rolls_back now bc b e Hvalid); try assumption.
  - f_equal. destruct bc as [bs h d pool diff en pw].
    cbn in *. unfold blockchain.setChain. cbn. f_equal.
    rewrite Hheight, Hcur.
    destruct (Z.eq_dec (block.Height (block.Header lastBlock)) (2 ^ 64 - 1))
      as [E|E].
    + rewrite E. reflexivity.
    + rewrite (Z.mod_small (_ + 1)) by lia.
      rewrite Z.mod_small by lia. lia.
  - rewrite Hlast. split; assumption.
Qed.

(** C6, on the chain without a block that [NewBlockchain] starts from.
    The store refuses [B0], a block of height 0 that validates and passes
    the proof of work: [AddBlock] returns the error and an empty list of
    blocks, but the height it reports is 2^64 - 1 where it was 0. *)
Theorem failed_first_save_corrupts_height :
  block.Validate sample.now sample.B0 = None
  /\ consensus.Validate (blockchain.pow (blockchain.empty sample.broken)) sample.B0
     = true
  /\ snd (blockchain.AddBlock sample.now (blockchain.empty sample.broken) sample.B0)
     = Some "failed to save block: disk full"
  /\ blockchain.blocks
       (fst (blockchain.AddBlock sample.now (blockchain.empty sample.broken)
               sample.B0)) = []
  /\ blockchain.GetHeight (blockchain.empty sample.broken) = 0
  /\ blockchain.GetHeight
       (fst (blockchain.AddBlock sample.now (blockchain.empty sample.broken)
               sample.B0)) = 18446744073709551615.
Proof. vm_compute. repeat split; reflexivity. Qed.

(** * Inquiries on the chain and in the pool (blockchain.go) *)

(** [AddTransaction] is the path that looks an inquiry up: it refuses a
    transaction whose inquiry is in a block or in the pool, and changes
    nothing. *)
Lemma AddTransaction_refuses_known_inquiry V now bc tx :
  blockchain.inquiryExists bc (transaction.InquiryID tx) = true ->
  fst (blockchain.AddTransaction V now bc tx) = bc
  /\ snd (blockchain.AddTransaction V now bc tx) <> None.
Proof.
  intros H. unfold blockchain.AddTransaction.
  destruct (transaction.Validate now tx); [split; [reflexivity|discriminate]|].
  destruct (transaction.VerifySignature V tx);
    [split; [reflexivity|discriminate]|].
  rewrite H. split; [reflexivity|discriminate].
Qed.

Lemma blocksHolding_nonempty bc inq :
  blockchain.blocksHolding bc inq <> []
  <-> existsb (blockchain.holds inq) (blockchain.blocks bc) = true.
Proof.
  unfold blockchain.blocksHolding.
  induction (blockchain.blocks bc) as [|b bs IH]; cbn [List.filter existsb].
  - split; [intros H; exfalso; now apply H | discriminate].
  - destruct (blockchain.holds inq b); cbn [orb].
    + split; [intros _; reflexivity | intros _; discriminate].
    + exact IH.
Qed.

(** [AddTransaction] keeps inquiries unique: what it pools is in no block. *)
Lemma AddTransaction_keeps_inquiryUnique V now bc tx :
  blockchain.inquiryUnique bc ->
  blockchain.inquiryUnique (fst (blockchain.AddTransaction V now bc tx)).
Proof.
  intros Hinv. unfold blockchain.AddTransaction.
  destruct (transaction.Validate now tx); [exact Hinv|].
  destruct (transaction.VerifySignature V tx); [exact Hinv|].
  destruct (blockchain.inquiryExists bc (transaction.InquiryID tx)) eqn:Hex;
    [exact Hinv|].
  destruct (existsb _ (blockchain.miningPool bc)); [exact Hinv|].
  cbn [fst]. intros inq. destruct (Hinv inq) as [Hlen Hpool].
  split; [exact Hlen|].
  intros Hheld. unfold blockchain.pooled, blockchain.setPool.
  cbn [blockchain.miningPool]. rewrite existsb_app. cbn [existsb].
  change (existsb _ (blockchain.miningPool bc)) with (blockchain.pooled bc inq).
  change (blockchain.blocksHolding (blockchain.setPool bc _) inq)
    with (blockchain.blocksHolding bc inq) in Hheld.
  rewrite (Hpool Hheld). cbn [orb]. rewrite orb_false_r.
  destruct (String.eqb_spec (transaction.InquiryID tx) inq) as [E|E];
    [|reflexivity].
  subst inq. apply blocksHolding_nonempty in Hheld.
  unfold blockchain.inquiryExists in Hex. apply orb_false_elim in Hex.
  destruct Hex as [Hchain _]. unfold blockchain.holds in Hheld.
  rewrite Hheld in Hchain. discriminate Hchain.
Qed.

(** C1, on the run [afterB1]: the node accepts [B0], pools [txC] and
    accepts the block [B1] of a peer, all three without an error.
    [AddBlock] never looks an inquiry up: afterwards the inquiry of [txA]
    is in the two accepted blocks [B0] and [B1], and the inquiry of the
    accepted block [B1] is still in the pool, with [txC]. *)
Theorem peer_block_breaks_inquiry_uniqueness :
  (snd (blockchain.AddBlock sample.now (blockchain.empty sample.healthy) sample.B0)
   = None
   /\ snd (blockchain.AddTransaction sample.acceptAll sample.now sample.afterB0
             sample.txC) = None
   /\ snd (blockchain.AddBlock sample.now sample.afterTxC sample.B1) = None)
  /\ blockchain.reachable sample.acceptAll sample.afterB1
  /\ blockchain.blocksHolding sample.afterB1 "inq-1" = [sample.B0; sample.B1]
  /\ blockchain.blocksHolding sample.afterB1 "inq-2" = [sample.B1]
  /\ blockchain.pooled sample.afterB1 "inq-2" = true
  /\ ~ blockchain.inquiryUnique sample.afterB1.
Proof.
  split; [vm_compute; repeat split; reflexivity|].
  split.
  { exact (blockchain.reach_AddBlock _ _ _ _
             (blockchain.reach_AddTransaction _ _ _ _
                (blockchain.reach_AddBlock _ _ _ _
                   (blockchain.reach_empty _ sample.healthy)))). }
  split; [vm_compute; reflexivity|].
  split; [vm_compute; reflexivity|].
  split; [vm_compute; reflexivity|].
  intros H. destruct (H "inq-1") as [Hlen _].
  vm_compute in Hlen. lia.
Qed.

(** * The difficulty (blockchain.go and consensus) *)

Lemma AddBlock_keeps_difficulty now bc b :
  blockchain.difficulty (fst (blockchain.AddBlock now bc b))
  = blockchain.difficulty bc
  /\ blockchain.pow (fst (blockchain.AddBlock now bc b)) = blockchain.pow bc.
Proof.
  unfold blockchain.AddBlock.
  destruct (block.Validate now b); [split; reflexivity|].
  destruct (match last (blockchain.blocks bc) with
            | Some _ => _ | None => _ end); [split; reflexivity|].
  destruct (negb (consensus.Validate (blockchain.pow bc) b));
    [split; reflexivity|].
  destruct (storage.SaveBlock _ b) as [d [e|]]; split; reflexivity.
Qed.

Lemma AddTransaction_keeps_difficulty V now bc tx :
  blockchain.difficulty (fst (blockchain.AddTransaction V now bc tx))
  = blockchain.difficulty bc
  /\ blockchain.pow (fst (blockchain.AddTransaction V now bc tx))
     = blockchain.pow bc.
Proof.
  unfold blockchain.AddTransaction.
  destruct (transaction.Validate now tx); [split; reflexivity|].
  destruct (transaction.VerifySignature V tx); [split; reflexivity|].
  destruct (blockchain.inquiryExists bc _); [split; reflexivity|].
  destruct (existsb _ _); split; reflexivity.
Qed.

Lemma mineBlock_keeps_difficulty now later bc bc' :
  blockchain.mineBlock now later bc = Some bc' ->
  blockchain.difficulty bc' = blockchain.difficulty bc
  /\ blockchain.pow bc' = blockchain.pow bc.
Proof.
  unfold blockchain.mineBlock.
  destruct (length _ =? 0)%nat; [intros [= <-]; split; reflexivity|].
  destruct (blockchain.GetLatestBlock bc) as [latest|]; [|discriminate].
  destruct (consensus.Mine _ _); [|intros [= <-]; split; reflexivity].
  match goal with
  | |- context [ blockchain.AddBlock later bc ?nb ] =>
      pose proof (AddBlock_keeps_difficulty later bc nb) as Hk;
      destruct (blockchain.AddBlock later bc nb) as [bc1 [e|]]
  end; cbn [fst] in Hk.
  - intros [= <-]. exact Hk.
  - unfold blockchain.adjustDifficulty.
    destruct (_ =? 0); intros [= <-]; exact Hk.
Qed.

(** What [CalculateDifficulty] computes for bits from 1 to 32 and times
    that do not overflow: the rule of the specification. Nothing in the
    node calls it. *)
Lemma CalculateDifficulty_rule bits actual target :
  1 <= bits <= 32 -> 0 <= target < 2 ^ 62 ->
  consensus.CalculateDifficulty bits actual target
  = (if actual <? Z.quot target 2 then Z.min (bits + 1) 32
     else if target * 2 <? actual then Z.max (bits - 1) 1
     else bits).
Proof.
  intros Hb Ht. unfold consensus.CalculateDifficulty.
  destruct (actual <? Z.quot target 2).
  - destruct (Z.ltb_spec bits 32); [rewrite Z.mod_small; lia | lia].
  - rewrite (Z.mod_small (target * 2)) by lia.
    unfold bytes.signed. change (64 - 1) with 63.
    destruct (Z.ltb_spec (target * 2) (2 ^ 63)); [|lia].
    destruct (target * 2 <? actual); [|reflexivity].
    destruct (Z.ltb_spec 1 bits); [rewrite Z.mod_small; lia | lia].
Qed.

(** C2, as the code runs. In every state of a node the difficulty is the
    initial 16 and the proof-of-work engine holds the target of 16 bits:
    [adjustDifficulty], which [mineBlock] calls after a block whose height
    is a multiple of 2016, writes a log line and adjusts nothing. *)
Theorem difficulty_is_never_adjusted V bc :
  blockchain.reachable V bc ->
  blockchain.difficulty bc = 16
  /\ blockchain.pow bc = consensus.NewProofOfWork 16.
Proof.
  induction 1 as [d | now bc tx _ [IHd IHp] | now bc b _ [IHd IHp]
                 | now later bc bc' _ [IHd IHp] Hmine].
  - split; reflexivity.
  - destruct (AddTransaction_keeps_difficulty V now bc tx) as [Hd Hp].
    now rewrite Hd, Hp.
  - destruct (AddBlock_keeps_difficulty now bc b) as [Hd Hp].
    now rewrite Hd, Hp.
  - destruct (mineBlock_keeps_difficulty _ _ _ _ Hmine) as [Hd Hp].
    now rewrite Hd, Hp.
Qed.

(** The miner closes a window: on a tip of height 2015 it mines and
    accepts the block of height 2016, 943 seconds after the tip. The rule
    makes 17 bits out of 16 for a window that took 943 seconds instead of
    2016 times 600; the node stays at 16. *)
Lemma difficulty_is_never_adjusted_witness :
  (blockchain.mineBlock sample.miningTime sample.miningTime sample.beforeMining
   = Some sample.afterMining
   /\ blockchain.GetHeight sample.beforeMining = 2015
   /\ blockchain.GetHeight sample.afterMining = 2016
   /\ consensus.CalculateDifficulty 16 943 (2016 * 600) = 17)
  /\ blockchain.reachable sample.acceptAll sample.afterMining
  /\ (blockchain.difficulty sample.afterMining = 16
      /\ blockchain.pow sample.afterMining = consensus.NewProofOfWork 16).
Proof.
  assert (Hmine : blockchain.mineBlock sample.miningTime sample.miningTime
                    sample.beforeMining = Some sample.afterMining)
    by (vm_compute; reflexivity).
  assert (Hreach : blockchain.reachable sample.acceptAll sample.afterMining).
  { refine (blockchain.reach_mineBlock _ _ _ _ _ _ Hmine).
    exact (blockchain.reach_AddTransaction _ _ _ _
             (blockchain.reach_AddBlock _ _ _ _
                (blockchain.reach_empty _ sample.healthy))). }
  split; [|split].
  - split; [exact Hmine|]. vm_compute. repeat split; reflexivity.
  - exact Hreach.
  - exact (difficulty_is_never_adjusted sample.acceptAll sample.afterMining Hreach).
Defined.

(** * Duplicate submissions (server.go) *)

(** A transaction that [Validate] accepted stays accepted later, or has
    become too old. *)
Lemma Validate_later now later tx :
  transaction.Validate now tx = None -> now <= later ->
  transaction.Validate later tx = None
  \/ transaction.Validate later tx = Some "transaction datetime is too old".
Proof.
  unfold transaction.Validate, time.Since, time.After.
  destruct (transaction.PublicKey tx =? "")%string; [discriminate|].
  destruct ((transaction.Name tx =? "")%string
            || (transaction.Surname tx =? "")%string); [discriminate|].
  destruct (transaction.InquiryID tx =? "")%string; [discriminate|].
  destruct (transaction.Signature tx =? "")%string; [discriminate|].
  destruct (Z.ltb_spec (24 * time.Hour) (now - transaction.Datetime tx));
    [discriminate|].
  destruct (Z.ltb_spec (now + 5 * time.Minute) (transaction.Datetime tx));
    [discriminate|].
  intros _ Hle.
  destruct (Z.ltb_spec (24 * time.Hour) (later - transaction.Datetime tx));
    [now right|].
  destruct (Z.ltb_spec (later + 5 * time.Minute) (transaction.Datetime tx));
    [lia | now left].
Qed.

(** C5, as the code has it. A submission that passes validation, the
    signature check and the identity check, and whose inquiry is already
    in a block of the chain or in the pool, or whose transaction id is the
    id of a pooled transaction, is answered with status 500 and the text
    [Failed to add transaction: ] followed by the error of
    [AddTransaction]; the node is left as it was. [AddTransaction]
    validates the transaction again at its own reading of the clock,
    [later]. If the transaction still passes there, the error is [inquiry
    ID already exists] for a known inquiry and [transaction already in
    pool] for a new inquiry under a pooled id; if it does not, the error
    is the one of that validation, which on a clock that has not gone
    back can only be [transaction datetime is too old]. *)
Theorem duplicate_submission_answers_500
    V personaClient now later bc req result :
  transaction.Validate now (server.submitted now req) = None ->
  transaction.VerifySignature V (server.submitted now req) = None ->
  personaClient (server.InquiryID req) (server.Name req) (server.Surname req)
  = (Some result, None) ->
  api.Verified result = true ->
  blockchain.inquiryExists bc (server.InquiryID req) = true
  \/ existsb (fun poolTx =>
                (transaction.ID poolTx
                 =? transaction.ID (server.submitted now req))%string)
             (blockchain.miningPool bc) = true ->
  (exists err,
     server.handleSubmitCertification V personaClient now later bc (Some req)
     = (bc, Some (server.httpError ("Failed to add transaction: " ++ err) 500)))
  /\ (transaction.Validate later (server.submitted now req) = None ->
      (blockchain.inquiryExists bc (server.InquiryID req) = true ->
       server.handleSubmitCertification V personaClient now later bc (Some req)
       = (bc, Some (server.httpError
                      "Failed to add transaction: inquiry ID already exists"
                      500)))
      /\ (blockchain.inquiryExists bc (server.InquiryID req) = false ->
          server.handleSubmitCertification V personaClient now later bc
            (Some req)
          = (bc, Some (server.httpError
                         "Failed to add transaction: transaction already in pool"
                         500))))
  /\ (forall err,
        transaction.Validate later (server.submitted now req) = Some err ->
        server.handleSubmitCertification V personaClient now later bc (Some req)
        = (bc, Some (server.httpError ("Failed to add transaction: " ++ err)
                                      500)))
  /\ (now <= later ->
      transaction.Validate later (server.submitted now req) = None
      \/ transaction.Validate later (server.submitted now req)
         = Some "transaction datetime is too old").
Proof.
  intros Hvalid Hsig Hid Hver Hdup.
  assert (Hrun : server.handleSubmitCertification V personaClient now later bc
                   (Some req)
                 = match blockchain.AddTransaction V later bc
                           (server.submitted now req) with
                   | (bc', Some err) =>
                       (bc', Some (server.httpError
                                     ("Failed to add transaction: " ++ err) 500))
                   | (bc', None) =>
                       (bc', Some (server.mkResponse 200
                                     (server.successBody
                                        (transaction.ID
                                           (server.submitted now req)))))
                   end).
  { unfold server.handleSubmitCertification.
    fold (server.submitted now req). rewrite Hvalid, Hsig, Hid, Hver.
    reflexivity. }
  rewrite Hrun. unfold blockchain.AddTransaction. rewrite Hsig.
  change (transaction.InquiryID (server.submitted now req))
    with (server.InquiryID req).
  split; [|split; [|split]].
  - destruct (transaction.Validate later (server.submitted now req)) as [err|];
      [now exists err|].
    destruct (blockchain.inquiryExists bc (server.InquiryID req));
      [now eexists|].
    destruct Hdup as [Hdup|Hdup]; [discriminate Hdup|]. rewrite Hdup.
    now eexists.
  - intros Hlater. rewrite Hlater. split.
    + intros Hex. now rewrite Hex.
    + intros Hex. rewrite Hex.
      destruct Hdup as [Hdup|Hdup]; [congruence|]. now rewrite Hdup.
  - intros err Hlater. now rewrite Hlater.
  - now apply Validate_later.
Qed.

(** The submission of [txA] after [B0], which holds it, was accepted; the
    submission [reqE2] while [reqE1], which has the same id, is pooled,
    both added two seconds after they were validated; and the submission
    of [txA] dated exactly 24 hours back, which passes the validation of
    the handler and is too old two seconds later. *)
Lemma duplicate_submission_answers_500_witness :
  ((transaction.Validate sample.now (server.submitted sample.now sample.reqA) = None
    /\ transaction.VerifySignature sample.acceptAll
         (server.submitted sample.now sample.reqA) = None
    /\ sample.vouch "inq-1" "Alice" "Doe"
       = (Some (api.mkResult "completed" "Alice" "Doe" sample.now true), None)
    /\ blockchain.inquiryExists sample.afterB0 "inq-1" = true
    /\ transaction.Validate sample.answered
         (server.submitted sample.now sample.reqA) = None)
   /\ server.handleSubmitCertification sample.acceptAll sample.vouch sample.now
        sample.answered sample.afterB0 (Some sample.reqA)
      = (sample.afterB0,
         Some (server.httpError
                 "Failed to add transaction: inquiry ID already exists" 500)))
  /\ ((blockchain.inquiryExists sample.afterE1 "inq-9" = false
       /\ existsb (fun poolTx =>
                     (transaction.ID poolTx
                      =? transaction.ID
                           (server.submitted sample.now sample.reqE2))%string)
                  (blockchain.miningPool sample.afterE1) = true
       /\ transaction.Validate sample.answered
            (server.submitted sample.now sample.reqE2) = None)
      /\ server.handleSubmitCertification sample.acceptAll sample.vouch sample.now
           sample.answered sample.afterE1 (Some sample.reqE2)
         = (sample.afterE1,
            Some (server.httpError
                    "Failed to add transaction: transaction already in pool"
                    500)))
  /\ ((transaction.Validate sample.now
         (server.submitted sample.now sample.reqOld) = None
       /\ transaction.Validate sample.answered
            (server.submitted sample.now sample.reqOld)
          = Some "transaction datetime is too old")
      /\ server.handleSubmitCertification sample.acceptAll sample.vouch sample.now
           sample.answered sample.afterB0 (Some sample.reqOld)
         = (sample.afterB0,
            Some (server.httpError
                    "Failed to add transaction: transaction datetime is too old"
                    500))).
Proof.
  assert (HA : transaction.Validate sample.answered
                 (server.submitted sample.now sample.reqA) = None)
    by (vm_compute; reflexivity).
  assert (HE : transaction.Validate sample.answered
                 (server.submitted sample.now sample.reqE2) = None)
    by (vm_compute; reflexivity).
  assert (HO : transaction.Validate sample.answered
                 (server.submitted sample.now sample.reqOld)
               = Some "transaction datetime is too old")
    by (vm_compute; reflexivity).
  assert (HinA : blockchain.inquiryExists sample.afterB0 "inq-1" = true)
    by (vm_compute; reflexivity).
  assert (HinE : blockchain.inquiryExists sample.afterE1 "inq-9" = false)
    by (vm_compute; reflexivity).
  assert (HpoolE : existsb (fun poolTx =>
                     (transaction.ID poolTx
                      =? transaction.ID
                           (server.submitted sample.now sample.reqE2))%string)
                     (blockchain.miningPool sample.afterE1) = true)
    by (vm_compute; reflexivity).
  split; [|split].
  - split; [repeat split; try assumption; vm_compute; reflexivity|].
    exact (proj1 (proj1 (proj2 (duplicate_submission_answers_500 sample.acceptAll
                    sample.vouch sample.now sample.answered sample.afterB0
                    sample.reqA
                    (api.mkResult "completed" "Alice" "Doe" sample.now true)
                    ltac:(vm_compute; reflexivity) eq_refl eq_refl eq_refl
                    (or_introl HinA))) HA) HinA).
  - split; [repeat split; assumption|].
    exact (proj2 (proj1 (proj2 (duplicate_submission_answers_500 sample.acceptAll
                    sample.vouch sample.now sample.answered sample.afterE1
                    sample.reqE2
                    (api.mkResult "completed" "Eve" "Doex" sample.now true)
                    ltac:(vm_compute; reflexivity) eq_refl eq_refl eq_refl
                    (or_intror HpoolE))) HE) HinE).
  - split; [split; [vm_compute; reflexivity | exact HO]|].
    exact (proj1 (proj2 (proj2 (duplicate_submission_answers_500 sample.acceptAll
                    sample.vouch sample.now sample.answered sample.afterB0
                    sample.reqOld
                    (api.mkResult "completed" "Alice" "Doe" sample.now true)
                    ltac:(vm_compute; reflexivity) eq_refl eq_refl eq_refl
                    (or_introl HinA))))
             "transaction datetime is too old" HO).
Defined.

(** C5 fails as stated: the submission of an inquiry that a block of the
    chain records, and the submission of a transaction id that is pooled,
    are both answered with status 500, not 409. *)
Lemma duplicate_submission_is_not_409 :
  (blockchain.blocksHolding sample.afterB0 "inq-1" = [sample.B0]
   /\ option_map server.StatusCode
        (snd (server.handleSubmitCertification sample.acceptAll sample.vouch
                sample.now sample.answered sample.afterB0 (Some sample.reqA)))
      = Some 500
   /\ option_map server.StatusCode
        (snd (server.handleSubmitCertification sample.acceptAll sample.vouch
                sample.now sample.answered sample.afterB0 (Some sample.reqA)))
      <> Some 409)
  /\ (map transaction.ID (blockchain.miningPool sample.afterE1)
      = [transaction.ID (server.submitted sample.now sample.reqE2)]
      /\ option_map server.StatusCode
           (snd (server.handleSubmitCertification sample.acceptAll sample.vouch
                   sample.now sample.answered sample.afterE1 (Some sample.reqE2)))
         = Some 500
      /\ option_map server.StatusCode
           (snd (server.handleSubmitCertification sample.acceptAll sample.vouch
                   sample.now sample.answered sample.afterE1 (Some sample.reqE2)))
         <> Some 409).
Proof.
  split; (split; [vm_compute; reflexivity|]);
    (split; [vm_compute; reflexivity|]);
    intros H; vm_compute in H; discriminate H.
Qed.

(** * What the node keeps true of its chain and its pool (blockchain.go) *)

(** The three ways [AddBlock] ends: it refuses the block and leaves the
    node as it was; the store refuses the block and only the reported
    height may have moved; or the block is appended. *)
Lemma AddBlock_cases now bc b :
  (exists e, blockchain.AddBlock now bc b = (bc, Some e))
  \/ (exists e,
        blockchain.AddBlock now bc b
        = (blockchain.setChain bc (blockchain.blocks bc)
             ((block.Height (block.Header b) - 1) mod 2 ^ 64), Some e)
        /\ storage.fault (blockchain.db bc) <> None
        /\ block.Validate now b = None
        /\ match last (blockchain.blocks bc) with
           | Some tip =>
               block.PrevBlockHash (block.Header b) = block.Hash tip
               /\ block.Height (block.Header b)
                  = (block.Height (block.Header tip) + 1) mod 2 ^ 64
           | None => True
           end)
  \/ (exists d,
        blockchain.AddBlock now bc b
        = (blockchain.mkBC (blockchain.blocks bc ++ [b])
             (block.Height (block.Header b)) d
             (List.filter
                (fun poolTx =>
                   negb (existsb
                           (fun minedTx =>
                              (transaction.ID poolTx =? transaction.ID minedTx)%string)
                           (block.Transactions b)))
                (blockchain.miningPool bc))
             (blockchain.difficulty bc) (blockchain.miningEnabled bc)
             (blockchain.pow bc), None)
        /\ block.Validate now b = None
        /\ consensus.Validate (blockchain.pow bc) b = true
        /\ match last (blockchain.blocks bc) with
           | Some tip =>
               block.PrevBlockHash (block.Header b) = block.Hash tip
               /\ block.Height (block.Header b)
                  = (block.Height (block.Header tip) + 1) mod 2 ^ 64
           | None => True
           end).
Proof.
  unfold blockchain.AddBlock.
  destruct (block.Validate now b) as [e|] eqn:Hv; [left; eauto|].
  assert (Hlink :
    (exists e, match last (blockchain.blocks bc) with
               | Some lastBlock =>
                   if negb (block.PrevBlockHash (block.Header b)
                            =? block.Hash lastBlock)%string
                   then Some "invalid previous block hash"
                   else if negb (block.Height (block.Header b)
                                 =? (block.Height (block.Header lastBlock) + 1)
                                    mod 2 ^ 64)
                        then Some "invalid block height" else None
               | None => None
               end = Some e)
    \/ (match last (blockchain.blocks bc) with
        | Some lastBlock =>
            if negb (block.PrevBlockHash (block.Header b)
                     =? block.Hash lastBlock)%string
            then Some "invalid previous block hash"
            else if negb (block.Height (block.Header b)
                          =? (block.Height (block.Header lastBlock) + 1)
                             mod 2 ^ 64)
                 then Some "invalid block height" else None
        | None => None
        end = None
        /\ match last (blockchain.blocks bc) with
           | Some tip =>
               block.PrevBlockHash (block.Header b) = block.Hash tip
               /\ block.Height (block.Header b)
                  = (block.Height (block.Header tip) + 1) mod 2 ^ 64
           | None => True
           end)).
  { destruct (last (blockchain.blocks bc)) as [tip|]; [|right; split; auto].
    destruct (String.eqb_spec (block.PrevBlockHash (block.Header b))
                (block.Hash tip)) as [Hp|Hp]; cbn [negb]; [|left; eauto].
    destruct (Z.eqb_spec (block.Height (block.Header b))
                ((block.Height (block.Header tip) + 1) mod 2 ^ 64)) as [Hh|Hh];
      cbn [negb]; [|left; eauto].
    right. auto. }
  destruct Hlink as [[e He]|[He Hl]]; rewrite He; [left; eauto|].
  destruct (consensus.Validate (blockchain.pow bc) b) eqn:Hp; cbn [negb];
    [|left; eauto].
  cbn [blockchain.setChain blockchain.db].
  unfold storage.SaveBlock, storage.Update.
  destruct (storage.fault (blockchain.db bc)) as [e|] eqn:Hf.
  - right; left. eexists. split; [|split; [discriminate|split; [reflexivity|exact Hl]]].
    cbn. now rewrite removelast_last.
  - right; right. eexists. split; [reflexivity|]. auto.
Qed.

Lemma Validate_None_iff now tx :
  transaction.Validate now tx = None
  <-> (transaction.PublicKey tx <> "" /\ transaction.Name tx <> ""
       /\ transaction.Surname tx <> "" /\ transaction.InquiryID tx <> ""
       /\ transaction.Signature tx <> "")
      /\ now - 24 * time.Hour <= transaction.Datetime tx
         <= now + 5 * time.Minute.
Proof.
  unfold transaction.Validate, time.Since, time.After.
  destruct (String.eqb_spec (transaction.PublicKey tx) "");
    [split; [discriminate | tauto]|].
  destruct (String.eqb_spec (transaction.Name tx) ""); cbn [orb];
    [split; [discriminate | tauto]|].
  destruct (String.eqb_spec (transaction.Surname tx) ""); cbn [orb];
    [split; [discriminate | tauto]|].
  destruct (String.eqb_spec (transaction.InquiryID tx) "");
    [split; [discriminate | tauto]|].
  destruct (String.eqb_spec (transaction.Signature tx) "");
    [split; [discriminate | tauto]|].
  destruct (Z.ltb_spec (24 * time.Hour) (now - transaction.Datetime tx));
    [split; [discriminate | intros [_ H']; lia]|].
  destruct (Z.ltb_spec (now + 5 * time.Minute) (transaction.Datetime tx));
    [split; [discriminate | intros [_ H']; lia]|].
  split; [intros _; repeat split; (assumption || lia) | reflexivity].
Qed.

Lemma Validate_filled now tx :
  transaction.Validate now tx = None -> blockchain.filled tx.
Proof. intros H. apply Validate_None_iff in H. apply H. Qed.

(** X1. [Validate] accepts a transaction exactly when its five required
    fields are filled and its instant lies from 24 hours before [now] to 5
    minutes after it, both ends included. It looks at nothing else: a
    transaction with another [ID] and another [Status] gets the same
    answer, so a transaction whose [ID] is not its hash is accepted. *)
Theorem transaction_Validate_accepts_iff now tx :
  (transaction.Validate now tx = None
   <-> (transaction.PublicKey tx <> "" /\ transaction.Name tx <> ""
        /\ transaction.Surname tx <> "" /\ transaction.InquiryID tx <> ""
        /\ transaction.Signature tx <> "")
       /\ now - 24 * time.Hour <= transaction.Datetime tx
          <= now + 5 * time.Minute)
  /\ (forall id status,
        transaction.Validate now
          (transaction.mkTransaction id (transaction.PublicKey tx)
             (transaction.Name tx) (transaction.Surname tx)
             (transaction.InquiryID tx) (transaction.Datetime tx)
             (transaction.Signature tx) status)
        = transaction.Validate now tx).
Proof. split; [apply Validate_None_iff | reflexivity]. Qed.

Lemma validateAll_None now txs :
  block.validateAll now txs = None
  <-> Forall (fun tx => transaction.Validate now tx = None) txs.
Proof.
  induction txs as [|tx txs IH]; cbn [block.validateAll].
  - split; [constructor | reflexivity].
  - destruct (transaction.Validate now tx) eqn:Hv.
    + split; [discriminate|]. intros H. inversion H; subst. congruence.
    + rewrite IH. split; [intros H; now constructor | intros H; now inversion H].
Qed.

(** A block passes [Validate] exactly when it has a transaction, its
    stored Merkle root is the recomputed one, and every transaction
    passes its own [Validate]. *)
Lemma block_Validate_None now b :
  block.Validate now b = None
  <-> block.Transactions b <> []
      /\ block.CalculateMerkleRoot b = block.MerkleRoot (block.Header b)
      /\ Forall (fun tx => transaction.Validate now tx = None)
                (block.Transactions b).
Proof.
  unfold block.Validate.
  destruct (block.Transactions b) as [|tx txs] eqn:Ht; cbn [length Nat.eqb].
  - split; [discriminate | intros [H _]; now contradiction H].
  - destruct (String.eqb_spec (block.CalculateMerkleRoot b)
                (block.MerkleRoot (block.Header b))) as [Hr|Hr]; cbn [negb].
    + rewrite validateAll_None. split; [intros H; repeat split; auto; discriminate
                                       | intros (_ & _ & H); exact H].
    + split; [discriminate | intros (_ & H & _); contradiction].
Qed.

Lemma linked_snoc bs b :
  blockchain.linked bs ->
  match last bs with
  | Some tip =>
      block.PrevBlockHash (block.Header b) = block.Hash tip
      /\ block.Height (block.Header b)
         = (block.Height (block.Header tip) + 1) mod 2 ^ 64
  | None => True
  end ->
  blockchain.linked (bs ++ [b]).
Proof.
  induction bs as [|a bs IH]; intros Hl Ht; [exact I|].
  destruct bs as [|c bs].
  - cbn in *. tauto.
  - destruct Hl as (H1 & H2 & H3). cbn [app blockchain.linked].
    split; [exact H1|]. split; [exact H2|]. apply IH; [exact H3|exact Ht].
Qed.

Lemma AddTransaction_cases V now bc tx :
  (exists e, blockchain.AddTransaction V now bc tx = (bc, Some e))
  \/ (blockchain.AddTransaction V now bc tx
      = (blockchain.setPool bc (blockchain.miningPool bc ++ [tx]), None)
      /\ transaction.Validate now tx = None
      /\ transaction.VerifySignature V tx = None
      /\ blockchain.inquiryExists bc (transaction.InquiryID tx) = false
      /\ existsb (fun poolTx =>
                    (transaction.ID poolTx =? transaction.ID tx)%string)
                 (blockchain.miningPool bc) = false).
Proof.
  unfold blockchain.AddTransaction.
  destruct (transaction.Validate now tx); [left; eauto|].
  destruct (transaction.VerifySignature V tx); [left; eauto|].
  destruct (blockchain.inquiryExists bc _); [left; eauto|].
  destruct (existsb _ _); [left; eauto|].
  right. auto.
Qed.

Lemma firstNonce_constant c n start :
  consensus.firstNonce (fun _ => c) n start = if c then Some start else None.
Proof.
  revert start. induction n as [p IH|p IH|]; intros start;
    cbn [consensus.firstNonce]; destruct c; try reflexivity.
  - now rewrite !IH.
  - now rewrite IH.
  - now rewrite !IH.
Qed.

Lemma Mine_Validate pow b :
  consensus.Mine pow b = consensus.Validate pow b.
Proof.
  unfold consensus.Mine. rewrite firstNonce_constant.
  now destruct (consensus.Validate pow b).
Qed.

Lemma mineBlock_cases now later bc :
  match blockchain.mineBlock now later bc with
  | None => blockchain.blocks bc = [] /\ blockchain.miningPool bc <> []
  | Some bc' =>
      bc' = bc
      \/ exists tip,
           last (blockchain.blocks bc) = Some tip
           /\ blockchain.miningPool bc <> []
           /\ consensus.Validate (blockchain.pow bc) (blockchain.candidate now bc tip) = true
           /\ bc' = fst (blockchain.AddBlock later bc (blockchain.candidate now bc tip))
  end.
Proof.
  unfold blockchain.mineBlock, blockchain.GetLatestBlock.
  assert (Hhead : (if (length (blockchain.miningPool bc) <? 1000)%nat
                   then blockchain.miningPool bc
                   else firstn 1000 (blockchain.miningPool bc))
                  = firstn 1000 (blockchain.miningPool bc)).
  { destruct (Nat.ltb_spec (length (blockchain.miningPool bc)) 1000);
      [|reflexivity]. symmetry. apply firstn_all2. lia. }
  rewrite Hhead.
  destruct (blockchain.miningPool bc) as [|tx pool] eqn:Hpool.
  { cbn. now left. }
  assert (Hne : (length (firstn 1000 (tx :: pool)) =? 0)%nat = false)
    by reflexivity.
  rewrite Hne.
  destruct (last (blockchain.blocks bc)) as [tip|] eqn:Htip.
  2:{ split; [|discriminate]. destruct (blockchain.blocks bc) as [|b bs];
        [reflexivity|]. destruct (last_cons_some bs b) as [x Hx]. congruence. }
  unfold block.NewBlock, block.CalculateMerkleRoot.
  cbn [block.Header block.Transactions block.Version block.PrevBlockHash
       block.MerkleRoot block.Timestamp block.Nonce block.Height].
  rewrite <- Hpool.
  change (block.mkBlock _ (firstn 1000 (blockchain.miningPool bc)))
    with (blockchain.candidate now bc tip).
  rewrite Mine_Validate.
  destruct (consensus.Validate (blockchain.pow bc)
              (blockchain.candidate now bc tip)) eqn:Hpow; [|now left].
  destruct (blockchain.AddBlock later bc (blockchain.candidate now bc tip))
    as [bc' [e|]] eqn:Hadd.
  - right. exists tip. split; [reflexivity|]. split; [congruence|].
    split; [exact Hpow|now rewrite Hadd].
  - unfold blockchain.adjustDifficulty.
    destruct (_ =? 0); right; exists tip; (split; [reflexivity|]);
      (split; [congruence|]); (split; [exact Hpow|now rewrite Hadd]).
Qed.

Lemma NoDup_map_filter {A B} (f : A -> B) (p : A -> bool) l :
  List.NoDup (map f l) -> List.NoDup (map f (List.filter p l)).
Proof.
  induction l as [|a l IH]; cbn [map List.filter]; intros H; [constructor|].
  inversion H as [|x xs Hnin Hnd]; subst.
  destruct (p a); [|now apply IH].
  cbn [map]. constructor; [|now apply IH].
  intros Hin. apply Hnin. apply in_map_iff in Hin.
  destruct Hin as (y & Hy & Hin). apply filter_In in Hin.
  apply in_map_iff. exists y. tauto.
Qed.

Lemma NoDup_map_snoc {A} (f : A -> string) l a :
  List.NoDup (map f l) ->
  existsb (fun x => (f x =? f a)%string) l = false ->
  List.NoDup (map f (l ++ [a])).
Proof.
  intros Hnd Hex. rewrite map_app. cbn [map].
  apply List.NoDup_app; [exact Hnd | repeat constructor; intros [] |].
  intros x Hin Hin'. cbn in Hin'. destruct Hin' as [<-|[]].
  apply in_map_iff in Hin. destruct Hin as (y & Hy & Hin).
  assert (Ht : existsb (fun x => (f x =? f a)%string) l = true).
  { apply existsb_exists. exists y. split; [exact Hin|].
    now apply String.eqb_eq. }
  congruence.
Qed.

Lemma Forall_filter {A} (P : A -> Prop) (p : A -> bool) l :
  Forall P l -> Forall P (List.filter p l).
Proof.
  intros H. apply List.Forall_forall. intros x Hin. apply filter_In in Hin.
  rewrite List.Forall_forall in H. now apply H.
Qed.

Lemma uint64_step_back x :
  ((x + 1) mod 2 ^ 64 - 1) mod 2 ^ 64 = x mod 2 ^ 64.
Proof. rewrite Zminus_mod_idemp_l. f_equal. lia. Qed.

Lemma last_snoc_Some {A} (l : list A) (a : A) : last (l ++ [a]) = Some a.
Proof. apply last_snoc. Qed.

Lemma AddBlock_keeps_steady V now bc b :
  blockchain.steady V bc ->
  blockchain.steady V (fst (blockchain.AddBlock now bc b)).
Proof.
  intros (Hpow & Hlink & Hseal & Hheight & Hid & Hinq & Hsig).
  destruct (AddBlock_cases now bc b)
    as [[e He]|[(e & He & _ & _ & Htip)|(d & He & Hv & Hp & Htip)]];
    rewrite He; cbn [fst].
  - repeat split; assumption.
  - unfold blockchain.steady, blockchain.setChain.
    cbn [blockchain.pow blockchain.blocks blockchain.currentHeight
         blockchain.miningPool].
    repeat split; try assumption.
    intros tip Hlast. rewrite Hlast in Htip. destruct Htip as [_ Hh].
    right. now rewrite Hh, uint64_step_back.
  - unfold blockchain.steady.
    cbn [blockchain.pow blockchain.blocks blockchain.currentHeight
         blockchain.miningPool].
    split; [exact Hpow|]. split; [now apply linked_snoc|]. split.
    { apply Forall_app. split; [exact Hseal|]. constructor; [|constructor].
      apply block_Validate_None in Hv. destruct Hv as (Hne & Hroot & Hall).
      repeat split; try assumption.
      - eapply List.Forall_impl; [|exact Hall]. intros tx. apply Validate_filled.
      - now rewrite <- Hpow. }
    split.
    { intros tip Hlast. rewrite last_snoc_Some in Hlast.
      left. now injection Hlast as <-. }
    split; [now apply NoDup_map_filter|].
    split; [now apply NoDup_map_filter|]. now apply Forall_filter.
Qed.

Lemma AddTransaction_keeps_steady V now bc tx :
  blockchain.steady V bc ->
  blockchain.steady V (fst (blockchain.AddTransaction V now bc tx)).
Proof.
  intros (Hpow & Hlink & Hseal & Hheight & Hid & Hinq & Hsig).
  destruct (AddTransaction_cases V now bc tx)
    as [[e He]|(He & Hv & Hs & Hex & Hpool)]; rewrite He; cbn [fst].
  - repeat split; assumption.
  - unfold blockchain.steady, blockchain.setPool.
    cbn [blockchain.pow blockchain.blocks blockchain.currentHeight
         blockchain.miningPool].
    repeat split; try assumption.
    + now apply NoDup_map_snoc.
    + apply NoDup_map_snoc; [exact Hinq|].
      unfold blockchain.inquiryExists in Hex.
      apply orb_false_elim in Hex. destruct Hex as [_ Hex].
      exact Hex.
    + apply Forall_app. split; [exact Hsig|]. constructor; [|constructor].
      split; [now apply (Validate_filled now)|exact Hs].
Qed.

(** Every state of a node is steady. *)
Lemma node_is_steady V bc :
  blockchain.reachable V bc -> blockchain.steady V bc.
Proof.
  induction 1 as [d | now bc tx _ IH | now bc b _ IH
                 | now later bc bc' _ IH Hmine].
  - unfold blockchain.steady, blockchain.empty.
    cbn [blockchain.pow blockchain.blocks blockchain.currentHeight
         blockchain.miningPool map].
    split; [reflexivity|]. split; [exact I|]. split; [constructor|].
    split; [intros tip Ht; discriminate Ht|].
    split; [constructor|]. split; constructor.
  - now apply AddTransaction_keeps_steady.
  - now apply AddBlock_keeps_steady.
  - pose proof (mineBlock_cases now later bc) as Hc. rewrite Hmine in Hc.
    destruct Hc as [->|(tip & _ & _ & _ & ->)]; [exact IH|].
    now apply AddBlock_keeps_steady.
Qed.

(** * The chain of a node *)

Lemma linked_at : forall bs i a b,
  blockchain.linked bs ->
  nth_error bs i = Some a -> nth_error bs (S i) = Some b ->
  block.PrevBlockHash (block.Header b) = block.Hash a
  /\ block.Height (block.Header b)
     = (block.Height (block.Header a) + 1) mod 2 ^ 64.
Proof.
  induction bs as [|x bs IH]; intros i a b Hl Ha Hb.
  - destruct i; discriminate Ha.
  - destruct bs as [|y bs]; [destruct i; discriminate Hb|].
    destruct Hl as (H1 & H2 & H3). destruct i as [|i].
    + cbn in Ha, Hb. injection Ha as <-. injection Hb as <-. now split.
    + apply (IH i); assumption.
Qed.

Lemma afterB1_reachable : blockchain.reachable sample.acceptAll sample.afterB1.
Proof.
  exact (blockchain.reach_AddBlock _ _ _ _
           (blockchain.reach_AddTransaction _ _ _ _
              (blockchain.reach_AddBlock _ _ _ _
                 (blockchain.reach_empty _ sample.healthy)))).
Qed.

(** X2. In every state of a node, each block of the chain after the first
    names the hash of the block before it as its previous hash, and has
    the height of that block plus one (on 64 bits). *)
Theorem accepted_chain_is_linked V bc i a b :
  blockchain.reachable V bc ->
  nth_error (blockchain.blocks bc) i = Some a ->
  nth_error (blockchain.blocks bc) (S i) = Some b ->
  block.PrevBlockHash (block.Header b) = block.Hash a
  /\ block.Height (block.Header b)
     = (block.Height (block.Header a) + 1) mod 2 ^ 64.
Proof.
  intros Hr. apply linked_at. apply (node_is_steady V bc Hr).
Qed.

Lemma accepted_chain_is_linked_witness :
  (blockchain.reachable sample.acceptAll sample.afterB1
   /\ nth_error (blockchain.blocks sample.afterB1) 0 = Some sample.B0
   /\ nth_error (blockchain.blocks sample.afterB1) 1 = Some sample.B1)
  /\ block.PrevBlockHash (block.Header sample.B1) = block.Hash sample.B0
  /\ block.Height (block.Header sample.B1)
     = (block.Height (block.Header sample.B0) + 1) mod 2 ^ 64.
Proof.
  assert (H0 : nth_error (blockchain.blocks sample.afterB1) 0 = Some sample.B0)
    by (vm_compute; reflexivity).
  assert (H1 : nth_error (blockchain.blocks sample.afterB1) 1 = Some sample.B1)
    by (vm_compute; reflexivity).
  split; [split; [exact afterB1_reachable|split; assumption]|].
  exact (accepted_chain_is_linked sample.acceptAll sample.afterB1 0%nat
           sample.B0 sample.B1 afterB1_reachable H0 H1).
Defined.

(** X3. In every state of a node, every block of the chain has at least one
    transaction, stores the Merkle root of its transactions, holds only
    transactions whose required fields are filled, and has a hash below
    the target of the proof-of-work engine of the node. *)
Theorem accepted_blocks_are_sealed V bc b :
  blockchain.reachable V bc ->
  In b (blockchain.blocks bc) ->
  block.Transactions b <> []
  /\ block.CalculateMerkleRoot b = block.MerkleRoot (block.Header b)
  /\ (forall tx, In tx (block.Transactions b) ->
        transaction.PublicKey tx <> "" /\ transaction.Name tx <> ""
        /\ transaction.Surname tx <> "" /\ transaction.InquiryID tx <> ""
        /\ transaction.Signature tx <> "")
  /\ consensus.Validate (blockchain.pow bc) b = true.
Proof.
  intros Hr Hin.
  destruct (node_is_steady V bc Hr) as (Hpow & _ & Hseal & _).
  rewrite List.Forall_forall in Hseal.
  destruct (Hseal b Hin) as (H1 & H2 & H3 & H4).
  repeat split; try assumption; try (rewrite List.Forall_forall in H3;
    now apply H3). now rewrite Hpow.
Qed.

Lemma accepted_blocks_are_sealed_witness :
  (blockchain.reachable sample.acceptAll sample.afterB1
   /\ In sample.B1 (blockchain.blocks sample.afterB1))
  /\ block.Transactions sample.B1 <> []
  /\ block.CalculateMerkleRoot sample.B1 = block.MerkleRoot (block.Header sample.B1)
  /\ consensus.Validate (blockchain.pow sample.afterB1) sample.B1 = true.
Proof.
  assert (Hin : In sample.B1 (blockchain.blocks sample.afterB1)).
  { assert (E : blockchain.blocks sample.afterB1 = [sample.B0; sample.B1])
      by (vm_compute; reflexivity).
    rewrite E. right. left. reflexivity. }
  split; [split; [exact afterB1_reachable|exact Hin]|].
  destruct (accepted_blocks_are_sealed sample.acceptAll sample.afterB1 sample.B1
              afterB1_reachable Hin) as (H1 & H2 & _ & H4).
  repeat split; assumption.
Defined.

(** A store that fails or recovers changes nothing that the invariant
    reads. *)
Lemma store_health_keeps_steady V bc health :
  blockchain.steady V bc ->
  blockchain.steady V
    (blockchain.setDB bc
       (storage.mkDB (storage.kv (blockchain.db bc)) health)).
Proof. intros H. exact H. Qed.

Lemma reachable_with_faults V bc :
  blockchain.reachable V bc -> blockchain.reachableWithFaults V bc.
Proof.
  induction 1 as [d | now bc tx _ IH | now bc b _ IH
                 | now later bc bc' _ IH Hmine].
  - apply blockchain.faulty_empty.
  - now apply blockchain.faulty_AddTransaction.
  - now apply blockchain.faulty_AddBlock.
  - exact (blockchain.faulty_mineBlock V now later bc bc' IH Hmine).
Qed.

Lemma faulty_node_is_steady V bc :
  blockchain.reachableWithFaults V bc -> blockchain.steady V bc.
Proof.
  induction 1 as [d | now bc tx _ IH | now bc b _ IH
                 | now later bc bc' _ IH Hmine | bc health _ IH].
  - apply node_is_steady. apply blockchain.reach_empty.
  - now apply AddTransaction_keeps_steady.
  - now apply AddBlock_keeps_steady.
  - pose proof (mineBlock_cases now later bc) as Hc. rewrite Hmine in Hc.
    destruct Hc as [->|(tip & _ & _ & _ & ->)]; [exact IH|].
    now apply AddBlock_keeps_steady.
  - now apply store_health_keeps_steady.
Qed.

Lemma afterRefusal_reachable :
  blockchain.reachableWithFaults sample.acceptAll sample.afterRefusal.
Proof.
  exact (blockchain.faulty_AddBlock _ _ _ _
           (blockchain.faulty_store _ _ _
              (blockchain.faulty_AddBlock _ _ _ _
                 (blockchain.faulty_empty _ sample.healthy)))).
Qed.

(** X4. In every state of a node with a block, the height that [GetHeight]
    reports is the height of the latest block. The states are those that
    [AddTransaction], [AddBlock] and [mineBlock] reach from the empty
    chain while the store fails and recovers as it likes between the
    calls: the states after a block was refused by the store, where
    [AddBlock] has taken the list back and counted the height down, are
    among them, and so is every state reached with a store that never
    changes. *)
Theorem reported_height_is_tip_height V bc tip :
  blockchain.reachableWithFaults V bc ->
  blockchain.GetLatestBlock bc = Some tip ->
  0 <= block.Height (block.Header tip) < 2 ^ 64 ->
  blockchain.GetHeight bc = block.Height (block.Header tip).
Proof.
  intros Hr Hlast Hrange.
  destruct (faulty_node_is_steady V bc Hr) as (_ & _ & _ & Hh & _).
  destruct (Hh tip Hlast) as [E|E]; [exact E|].
  unfold blockchain.GetHeight. rewrite E. now apply Z.mod_small.
Qed.

(** After [B0] the store begins to fail and refuses [B1], which links to
    [B0], validates and passes the proof of work: the height is counted
    down from 1, the height of [B1], to 0, the height of [B0]. *)
Lemma reported_height_is_tip_height_witness :
  (blockchain.AddBlock sample.now sample.storeFailing sample.B1
   = (sample.afterRefusal, Some "failed to save block: disk full")
   /\ blockchain.reachableWithFaults sample.acceptAll sample.afterRefusal
   /\ blockchain.GetLatestBlock sample.afterRefusal = Some sample.B0
   /\ 0 <= block.Height (block.Header sample.B0) < 2 ^ 64)
  /\ blockchain.GetHeight sample.afterRefusal
     = block.Height (block.Header sample.B0).
Proof.
  assert (Hl : blockchain.GetLatestBlock sample.afterRefusal = Some sample.B0)
    by (vm_compute; reflexivity).
  assert (Hrange : 0 <= block.Height (block.Header sample.B0) < 2 ^ 64)
    by (vm_compute; split; [discriminate | reflexivity]).
  split; [split; [vm_compute; reflexivity|];
          split; [exact afterRefusal_reachable|split; assumption]|].
  exact (reported_height_is_tip_height sample.acceptAll sample.afterRefusal
           sample.B0 afterRefusal_reachable Hl Hrange).
Defined.

(** * The pool of a node *)

(** X5. In every state of a node, no two pooled transactions have the same
    [ID], and no two have the same inquiry. *)
Theorem pool_has_no_duplicates V bc :
  blockchain.reachable V bc ->
  List.NoDup (map transaction.ID (blockchain.GetMiningPool bc))
  /\ List.NoDup (map transaction.InquiryID (blockchain.GetMiningPool bc)).
Proof.
  intros Hr. destruct (node_is_steady V bc Hr) as (_ & _ & _ & _ & H1 & H2 & _).
  now split.
Qed.

Lemma pool_has_no_duplicates_witness :
  (blockchain.reachable sample.acceptAll sample.afterB1
   /\ blockchain.GetMiningPool sample.afterB1 = [sample.txC])
  /\ List.NoDup (map transaction.ID (blockchain.GetMiningPool sample.afterB1))
  /\ List.NoDup (map transaction.InquiryID (blockchain.GetMiningPool sample.afterB1)).
Proof.
  split; [split; [exact afterB1_reachable|vm_compute; reflexivity]|].
  exact (pool_has_no_duplicates sample.acceptAll sample.afterB1 afterB1_reachable).
Defined.

(** X6. In every state of a node, every pooled transaction has its required
    fields filled and a signature that the signature check accepts. *)
Theorem pooled_transactions_are_verified V bc tx :
  blockchain.reachable V bc ->
  In tx (blockchain.GetMiningPool bc) ->
  (transaction.PublicKey tx <> "" /\ transaction.Name tx <> ""
   /\ transaction.Surname tx <> "" /\ transaction.InquiryID tx <> ""
   /\ transaction.Signature tx <> "")
  /\ transaction.VerifySignature V tx = None.
Proof.
  intros Hr Hin.
  destruct (node_is_steady V bc Hr) as (_ & _ & _ & _ & _ & _ & H).
  rewrite List.Forall_forall in H. exact (H tx Hin).
Qed.

Lemma pooled_transactions_are_verified_witness :
  (blockchain.reachable sample.acceptAll sample.afterB1
   /\ In sample.txC (blockchain.GetMiningPool sample.afterB1))
  /\ (transaction.PublicKey sample.txC <> "" /\ transaction.Name sample.txC <> ""
      /\ transaction.Surname sample.txC <> ""
      /\ transaction.InquiryID sample.txC <> ""
      /\ transaction.Signature sample.txC <> "")
  /\ transaction.VerifySignature sample.acceptAll sample.txC = None.
Proof.
  assert (Hin : In sample.txC (blockchain.GetMiningPool sample.afterB1)).
  { assert (E : blockchain.GetMiningPool sample.afterB1 = [sample.txC])
      by (vm_compute; reflexivity).
    rewrite E. left. reflexivity. }
  split; [split; [exact afterB1_reachable|exact Hin]|].
  exact (pooled_transactions_are_verified sample.acceptAll sample.afterB1
           sample.txC afterB1_reachable Hin).
Defined.

(** * What one call changes (blockchain.go) *)

(** X7. A block that [AddBlock] refuses changes nothing but, when it is the
    store that refused it, the reported height: the blocks, the pool, the
    store, the difficulty and the engine are what they were; and with a
    store that takes updates the whole node is. *)
Theorem refused_block_changes_nothing now bc b bc' e :
  blockchain.AddBlock now bc b = (bc', Some e) ->
  bc' = blockchain.setChain bc (blockchain.blocks bc) (blockchain.currentHeight bc')
  /\ (storage.fault (blockchain.db bc) = None -> bc' = bc).
Proof.
  intros H.
  destruct (AddBlock_cases now bc b)
    as [[e' He]|[(e' & He & Hf & _)|(d & He & _)]]; rewrite He in H.
  - injection H as <- _. split; [now destruct bc|reflexivity].
  - injection H as <- _. split; [reflexivity|]. intros Hn. contradiction.
  - discriminate H.
Qed.

Lemma refused_block_changes_nothing_witness :
  blockchain.AddBlock sample.now sample.afterB0 sample.B0'
  = (sample.afterB0, Some "invalid previous block hash")
  /\ (sample.afterB0
      = blockchain.setChain sample.afterB0 (blockchain.blocks sample.afterB0)
          (blockchain.currentHeight sample.afterB0)
      /\ (storage.fault (blockchain.db sample.afterB0) = None ->
          sample.afterB0 = sample.afterB0)).
Proof.
  assert (H : blockchain.AddBlock sample.now sample.afterB0 sample.B0'
              = (sample.afterB0, Some "invalid previous block hash"))
    by (vm_compute; reflexivity).
  split; [exact H|].
  exact (refused_block_changes_nothing sample.now sample.afterB0 sample.B0'
           sample.afterB0 "invalid previous block hash" H).
Defined.

Lemma nth_error_snoc {A} (l : list A) (a : A) :
  nth_error (l ++ [a]) (length l) = Some a.
Proof. rewrite nth_error_app2 by lia. now rewrite Nat.sub_diag. Qed.

Lemma find_snoc_hit {A} (p : A -> bool) l a :
  p a = true -> exists x, find p (l ++ [a]) = Some x /\ p x = true.
Proof.
  intros Hp. induction l as [|y l IH]; cbn [app find].
  - rewrite Hp. now exists a.
  - destruct (p y) eqn:Hy; [now exists y | exact IH].
Qed.

(** X8. A block that [AddBlock] accepts is at once the latest block, at the
    end of the list, under the next index of [GetBlock] and found by its
    hash; [GetHeight] reports its height; the blocks before it stay where
    they were; and the pool is the old pool without the transactions whose
    [ID] is the [ID] of a transaction of the block. *)
Theorem accepted_block_is_found now bc b bc' :
  blockchain.AddBlock now bc b = (bc', None) ->
  blockchain.GetAllBlocks bc' = blockchain.GetAllBlocks bc ++ [b]
  /\ blockchain.GetLatestBlock bc' = Some b
  /\ blockchain.GetHeight bc' = block.Height (block.Header b)
  /\ blockchain.GetBlock bc' (Z.of_nat (length (blockchain.blocks bc)))
     = (Some b, None)
  /\ (exists found,
        blockchain.GetBlockByHash bc' (block.Hash b) = (Some found, None)
        /\ block.Hash found = block.Hash b)
  /\ (forall tx,
        In tx (blockchain.GetMiningPool bc')
        <-> In tx (blockchain.GetMiningPool bc)
            /\ forall mined, In mined (block.Transactions b) ->
                 transaction.ID tx <> transaction.ID mined).
Proof.
  intros H.
  destruct (AddBlock_cases now bc b)
    as [[e' He]|[(e' & He & _)|(d & He & _)]]; rewrite He in H;
    try discriminate H.
  injection H as <-.
  unfold blockchain.GetAllBlocks, blockchain.GetLatestBlock,
    blockchain.GetHeight, blockchain.GetBlock, blockchain.GetBlockByHash,
    blockchain.GetMiningPool.
  cbn [blockchain.blocks blockchain.currentHeight blockchain.miningPool].
  split; [reflexivity|]. split; [apply last_snoc_Some|].
  split; [reflexivity|]. split.
  { rewrite length_app. cbn [length].
    destruct (Z.leb_spec (Z.of_nat (length (blockchain.blocks bc) + 1))
                (Z.of_nat (length (blockchain.blocks bc)))) as [Hle|_]; [lia|].
    now rewrite Nat2Z.id, nth_error_snoc. }
  split.
  { destruct (find_snoc_hit (fun x => (block.Hash x =? block.Hash b)%string)
                (blockchain.blocks bc) b (String.eqb_refl _)) as (x & Hx & Hp).
    exists x. rewrite Hx. split; [reflexivity|]. now apply String.eqb_eq. }
  intros tx. rewrite filter_In. apply and_iff_compat_l.
  rewrite negb_true_iff. split.
  - intros Hex mined Hin Heq.
    assert (Ht : existsb (fun minedTx =>
                            (transaction.ID tx =? transaction.ID minedTx)%string)
                         (block.Transactions b) = true).
    { apply existsb_exists. exists mined. split; [exact Hin|].
      now apply String.eqb_eq. }
    congruence.
  - intros Hall. apply not_true_is_false. intros Hex.
    apply existsb_exists in Hex. destruct Hex as (mined & Hin & Heq).
    apply String.eqb_eq in Heq. exact (Hall mined Hin Heq).
Qed.

Lemma accepted_block_is_found_witness :
  blockchain.AddBlock sample.now sample.afterTxC sample.B1 = (sample.afterB1, None)
  /\ blockchain.GetAllBlocks sample.afterB1
     = blockchain.GetAllBlocks sample.afterTxC ++ [sample.B1]
  /\ blockchain.GetLatestBlock sample.afterB1 = Some sample.B1
  /\ blockchain.GetHeight sample.afterB1 = block.Height (block.Header sample.B1).
Proof.
  assert (H : blockchain.AddBlock sample.now sample.afterTxC sample.B1
              = (sample.afterB1, None)) by (vm_compute; reflexivity).
  split; [exact H|].
  destruct (accepted_block_is_found sample.now sample.afterTxC sample.B1
              sample.afterB1 H) as (H1 & H2 & H3 & _).
  split; [exact H1|]. split; [exact H2|exact H3].
Defined.

Lemma filter_keeps_the_rest (l1 l2 : list transaction.Transaction) :
  List.NoDup (map transaction.ID (l1 ++ l2)) ->
  List.filter
    (fun poolTx =>
       negb (existsb (fun minedTx =>
                        (transaction.ID poolTx =? transaction.ID minedTx)%string)
                     l1))
    (l1 ++ l2) = l2.
Proof.
  intros Hnd. rewrite List.filter_app.
  assert (H1 : forall l, incl l l1 ->
            List.filter
              (fun poolTx =>
                 negb (existsb (fun minedTx =>
                          (transaction.ID poolTx =? transaction.ID minedTx)%string)
                        l1)) l = []).
  { induction l as [|x l IH]; intros Hincl; [reflexivity|].
    cbn [List.filter].
    assert (Hx : existsb (fun minedTx =>
                   (transaction.ID x =? transaction.ID minedTx)%string) l1 = true).
    { apply existsb_exists. exists x. split; [apply Hincl; now left|].
      apply String.eqb_refl. }
    rewrite Hx. cbn [negb]. apply IH. intros y Hy. apply Hincl. now right. }
  rewrite (H1 l1 (incl_refl _)). cbn [app].
  rewrite map_app in Hnd.
  assert (H2 : forall x, In x l2 ->
            existsb (fun minedTx =>
               (transaction.ID x =? transaction.ID minedTx)%string) l1 = false).
  { intros x Hin. apply not_true_is_false. intros Hex.
    apply existsb_exists in Hex. destruct Hex as (m & Hm & Heq).
    apply String.eqb_eq in Heq.
    revert Hnd. generalize (in_map transaction.ID _ _ Hm).
    generalize (in_map transaction.ID _ _ Hin). rewrite Heq.
    generalize (transaction.ID m), (map transaction.ID l1),
      (map transaction.ID l2).
    intros s la lb Hb Ha Hnd. induction la as [|y la IH]; [contradiction|].
    cbn [app] in Hnd. inversion Hnd as [|? ? Hnin Hnd']; subst.
    destruct Ha as [->|Ha]; [|now apply IH].
    apply Hnin. apply in_or_app. now right. }
  clear H1 Hnd. induction l2 as [|x l2 IH]; [reflexivity|].
  cbn [List.filter]. rewrite (H2 x (or_introl eq_refl)). cbn [negb].
  f_equal. apply IH. intros y Hy. apply H2. now right.
Qed.

(** X9. One tick of the miner in a state of the node. It either changes
    nothing but perhaps the reported height, or appends one block: built
    on the tip at [now], with nonce 0 and the bits of the node, holding
    the first thousand transactions of the pool in their order (all of
    them when there are fewer), which are then exactly the ones that leave
    the pool. *)
Theorem mineBlock_takes_the_head_of_the_pool V now later bc bc' :
  blockchain.reachable V bc ->
  blockchain.mineBlock now later bc = Some bc' ->
  (blockchain.blocks bc' = blockchain.blocks bc
   /\ blockchain.miningPool bc' = blockchain.miningPool bc)
  \/ exists tip,
       blockchain.GetLatestBlock bc = Some tip
       /\ blockchain.blocks bc'
          = blockchain.blocks bc ++ [blockchain.candidate now bc tip]
       /\ block.Transactions (blockchain.candidate now bc tip)
          = firstn 1000 (blockchain.miningPool bc)
       /\ blockchain.miningPool bc' = skipn 1000 (blockchain.miningPool bc).
Proof.
  intros Hr Hm. pose proof (mineBlock_cases now later bc) as Hc.
  rewrite Hm in Hc. destruct Hc as [->|(tip & Htip & _ & _ & ->)];
    [left; now split|].
  destruct (AddBlock_cases later bc (blockchain.candidate now bc tip))
    as [[e He]|[(e & He & _)|(d & He & _)]]; rewrite He; cbn [fst].
  - left. now split.
  - left. now split.
  - right. exists tip. split; [exact Htip|]. split; [reflexivity|].
    split; [reflexivity|].
    cbn [blockchain.miningPool blockchain.candidate block.Transactions].
    destruct (node_is_steady V bc Hr) as (_ & _ & _ & _ & Hnd & _).
    set (pool := blockchain.miningPool bc) in *.
    pose proof (filter_keeps_the_rest (firstn 1000 pool) (skipn 1000 pool)) as F.
    rewrite firstn_skipn in F. now apply F.
Qed.

Lemma beforeMining_reachable :
  blockchain.reachable sample.acceptAll sample.beforeMining.
Proof.
  exact (blockchain.reach_AddTransaction _ _ _ _
           (blockchain.reach_AddBlock _ _ _ _
              (blockchain.reach_empty _ sample.healthy))).
Qed.

Lemma mineBlock_takes_the_head_of_the_pool_witness :
  (blockchain.reachable sample.acceptAll sample.beforeMining
   /\ blockchain.mineBlock sample.miningTime sample.miningTime sample.beforeMining
      = Some sample.afterMining)
  /\ blockchain.miningPool sample.beforeMining = [sample.txC]
  /\ length (blockchain.blocks sample.afterMining) = 2%nat
  /\ ((blockchain.blocks sample.afterMining = blockchain.blocks sample.beforeMining
       /\ blockchain.miningPool sample.afterMining
          = blockchain.miningPool sample.beforeMining)
      \/ exists tip,
           blockchain.GetLatestBlock sample.beforeMining = Some tip
           /\ blockchain.blocks sample.afterMining
              = blockchain.blocks sample.beforeMining
                ++ [blockchain.candidate sample.miningTime sample.beforeMining tip]
           /\ block.Transactions
                (blockchain.candidate sample.miningTime sample.beforeMining tip)
              = firstn 1000 (blockchain.miningPool sample.beforeMining)
           /\ blockchain.miningPool sample.afterMining
              = skipn 1000 (blockchain.miningPool sample.beforeMining)).
Proof.
  assert (Hm : blockchain.mineBlock sample.miningTime sample.miningTime
                 sample.beforeMining = Some sample.afterMining)
    by (vm_compute; reflexivity).
  split; [split; [exact beforeMining_reachable|exact Hm]|].
  split; [vm_compute; reflexivity|]. split; [vm_compute; reflexivity|].
  exact (mineBlock_takes_the_head_of_the_pool sample.acceptAll sample.miningTime
           sample.miningTime sample.beforeMining sample.afterMining
           beforeMining_reachable Hm).
Defined.

(** X10. The miner dereferences the latest block without looking: a tick
    panics exactly when the pool has a transaction and the chain has no
    block. *)
Theorem mineBlock_panics_iff now later bc :
  blockchain.mineBlock now later bc = None
  <-> blockchain.blocks bc = [] /\ blockchain.miningPool bc <> [].
Proof.
  split.
  - intros H. pose proof (mineBlock_cases now later bc) as Hc.
    now rewrite H in Hc.
  - intros [Hb Hp]. unfold blockchain.mineBlock, blockchain.GetLatestBlock.
    rewrite Hb. destruct (blockchain.miningPool bc) as [|tx pool];
      [now contradiction Hp|].
    cbn [last].
    destruct (length (tx :: pool) <? 1000)%nat; reflexivity.
Qed.

Lemma linked_height : forall bs i first b,
  blockchain.linked bs ->
  nth_error bs 0 = Some first -> nth_error bs i = Some b ->
  block.Height (block.Header b) mod 2 ^ 64
  = (block.Height (block.Header first) + Z.of_nat i) mod 2 ^ 64.
Proof.
  induction bs as [|x bs IH]; intros i first b Hl H0 Hi; [discriminate H0|].
  cbn in H0. injection H0 as ->. destruct i as [|i].
  - cbn in Hi. injection Hi as ->. now rewrite Z.add_0_r.
  - cbn [nth_error] in Hi. destruct bs as [|y bs]; [destruct i; discriminate Hi|].
    destruct Hl as (_ & Hh & Hl).
    rewrite (IH i y b Hl eq_refl Hi), Hh.
    rewrite Zplus_mod_idemp_l. f_equal. lia.
Qed.

(** X11. [GetBlock] counts from the first block of the chain, not from
    height 0: in every state of a node the block it answers for [height]
    has the height of the first block plus [height] (on 64 bits), and it
    answers [block not found] exactly from the number of blocks on. *)
Theorem GetBlock_counts_from_the_first_block V bc height :
  blockchain.reachable V bc -> 0 <= height ->
  (snd (blockchain.GetBlock bc height) = Some "block not found"
   <-> Z.of_nat (length (blockchain.blocks bc)) <= height)
  /\ (forall b,
        blockchain.GetBlock bc height = (Some b, None) ->
        exists first,
          blockchain.GetBlock bc 0 = (Some first, None)
          /\ block.Height (block.Header b) mod 2 ^ 64
             = (block.Height (block.Header first) + height) mod 2 ^ 64).
Proof.
  intros Hr Hh. destruct (node_is_steady V bc Hr) as (_ & Hl & _).
  unfold blockchain.GetBlock.
  destruct (Z.leb_spec (Z.of_nat (length (blockchain.blocks bc))) height)
    as [Hout|Hin].
  - split; [split; [intros _; exact Hout | reflexivity]|].
    intros b H. discriminate H.
  - destruct (nth_error (blockchain.blocks bc) (Z.to_nat height)) as [b|] eqn:Hb.
    2:{ apply nth_error_None in Hb. lia. }
    split; [split; [discriminate | lia]|].
    intros b' [= <-].
    destruct (blockchain.blocks bc) as [|first bs] eqn:Hbs;
      [destruct (Z.to_nat height); discriminate Hb|].
    exists first. split; [reflexivity|].
    rewrite (linked_height _ _ first b Hl eq_refl Hb). f_equal. lia.
Qed.

Lemma GetBlock_counts_from_the_first_block_witness :
  (blockchain.reachable sample.acceptAll sample.afterB1 /\ 0 <= 1)
  /\ blockchain.GetBlock sample.afterB1 1 = (Some sample.B1, None)
  /\ (snd (blockchain.GetBlock sample.afterB1 1) = Some "block not found"
      <-> Z.of_nat (length (blockchain.blocks sample.afterB1)) <= 1).
Proof.
  split; [split; [exact afterB1_reachable | lia]|].
  split; [vm_compute; reflexivity|].
  exact (proj1 (GetBlock_counts_from_the_first_block sample.acceptAll
                  sample.afterB1 1 afterB1_reachable ltac:(lia))).
Defined.

(** * Merkle proofs (merkle.go) *)

Lemma last_map {A B} (f : A -> B) (l : list A) :
  last (map f l) = option_map f (last l).
Proof.
  induction l as [|a [|b l] IH]; try reflexivity.
  cbn [map]. rewrite !last_cons_cons. exact IH.
Qed.

Lemma dupLastHash_hexes hs :
  merkle.dupLastHash (hexes hs) = hexes (block.evenize hs).
Proof.
  unfold merkle.dupLastHash, block.evenize, hexes.
  rewrite length_map, last_map.
  destruct (Nat.odd (length hs)); [|reflexivity].
  destruct (last hs); [|reflexivity].
  cbn [option_map]. now rewrite map_app.
Qed.

Lemma nextLevel_hexes hs :
  Nat.odd (length hs) = false ->
  merkle.nextLevel (hexes hs) = Some (hexes (block.pairUp hs)).
Proof.
  induction hs as [| a | a b r IH] using pair_induction; intros Hev.
  - reflexivity.
  - discriminate Hev.
  - cbn [hexes map merkle.nextLevel]. fold (hexes r). rewrite (IH Hev).
    now rewrite !decode_encode.
Qed.

(** The hash at [k] of the next level is the hash of the two at [2k] and
    [2k+1]. *)
Lemma pairUp_nth hs : forall k a b,
  nth_error hs (2 * k) = Some a -> nth_error hs (2 * k + 1) = Some b ->
  nth_error (block.pairUp hs) k = Some (sha256.Sum256 (a ++ b)).
Proof.
  induction hs as [| x | x y r IH] using pair_induction; intros k a b Ha Hb.
  - destruct k; discriminate Ha.
  - destruct k as [|k]; [discriminate Hb|].
    replace (2 * S k)%nat with (S (S (2 * k))) in Ha by lia.
    discriminate Ha.
  - destruct k as [|k].
    + cbn in Ha, Hb. injection Ha as <-. injection Hb as <-. reflexivity.
    + replace (2 * S k)%nat with (S (S (2 * k))) in Ha by lia.
      replace (2 * S k + 1)%nat with (S (S (2 * k + 1))) in Hb by lia.
      cbn [nth_error] in Ha, Hb. rewrite pairUp_two. cbn [nth_error].
      now apply IH.
Qed.

Lemma evenize_nth hs i h :
  nth_error hs i = Some h -> nth_error (block.evenize hs) i = Some h.
Proof.
  intros H. unfold block.evenize. destruct (Nat.odd (length hs)); [|exact H].
  destruct (last hs); [|exact H].
  rewrite nth_error_app1; [exact H|]. apply nth_error_Some. congruence.
Qed.

Lemma even_length_sibling {A} (l : list A) k :
  Nat.odd (length l) = false -> (2 * k < length l)%nat ->
  (2 * k + 1 < length l)%nat.
Proof.
  intros Hev Hlt. destruct (Nat.eq_dec (length l) (2 * k + 1)%nat) as [E|E]; [|lia].
  rewrite E in Hev. rewrite Nat.add_1_r, Nat.odd_succ in Hev.
  rewrite Nat.even_mul in Hev. discriminate Hev.
Qed.

(** The index arithmetic of the two loops, for an index that is not
    negative: [^ 1] flips the last bit, [/ 2] drops it, [& 1] reads it. *)
Lemma land_1 z : Z.land z 1 = z mod 2.
Proof. change 1 with (Z.ones 1). now rewrite Z.land_ones by lia. Qed.

Lemma lxor_even_1 a : Z.lxor (2 * a) 1 = 2 * a + 1.
Proof.
  symmetry. apply Z.add_nocarry_lxor. rewrite land_1.
  rewrite Z.mul_comm. apply Z.mod_mul. lia.
Qed.

Lemma lxor_odd_1 a : Z.lxor (2 * a + 1) 1 = 2 * a.
Proof.
  rewrite <- lxor_even_1, Z.lxor_assoc, Z.lxor_nilpotent.
  apply Z.lxor_0_r.
Qed.

Lemma index_bits (i : nat) :
  exists k : nat,
    Z.quot (Z.of_nat i) 2 = Z.of_nat k
    /\ ((i = (2 * k)%nat /\ Z.lxor (Z.of_nat i) 1 = Z.of_nat (2 * k + 1)
         /\ Z.land (Z.of_nat i) 1 = 0)
        \/ (i = (2 * k + 1)%nat /\ Z.lxor (Z.of_nat i) 1 = Z.of_nat (2 * k)
            /\ Z.land (Z.of_nat i) 1 = 1)).
Proof.
  destruct (Nat.Even_or_Odd i) as [[k ->]|[k ->]]; exists k.
  - split; [rewrite Z.quot_div_nonneg by lia; symmetry;
             apply Z.div_unique with (r := 0); lia|]. left.
    split; [reflexivity|]. rewrite land_1.
    replace (Z.of_nat (2 * k)) with (2 * Z.of_nat k) by lia.
    rewrite lxor_even_1. split; [lia|].
    rewrite Z.mul_comm. apply Z.mod_mul. lia.
  - split; [rewrite Z.quot_div_nonneg by lia; symmetry;
             apply Z.div_unique with (r := 1); lia|]. right.
    split; [reflexivity|]. rewrite land_1.
    replace (Z.of_nat (2 * k + 1)) with (2 * Z.of_nat k + 1) by lia.
    rewrite lxor_odd_1. split; [lia|].
    rewrite Z.add_comm, Z.mul_comm, Z.mod_add by lia. reflexivity.
Qed.

Lemma verifyFrom_shift proof : forall i c index,
  merkle.verifyFrom (S i) c proof index
  = merkle.verifyFrom i c proof (Z.shiftr index 1).
Proof.
  induction proof as [|e proof IH]; intros i c index; [reflexivity|].
  cbn [merkle.verifyFrom]. rewrite IH.
  rewrite Z.shiftr_shiftr by lia.
  now replace (1 + Z.of_nat i) with (Z.of_nat (S i)) by lia.
Qed.

(** The loop of [GenerateMerkleProof] over a level of two hashes or more
    appends one sibling per level, and the loop of [VerifyTransaction]
    over what it appended climbs from the hash at the index to the hash
    the loop of [CalculateMerkleRoot] ends on. *)
Lemma proofLoop_climbs : forall n hs f1 f2 i h acc,
  (length hs <= n)%nat -> (2 <= length hs)%nat ->
  (length hs <= f1)%nat -> (length hs <= f2)%nat ->
  nth_error hs i = Some h ->
  exists proof r,
    merkle.proofLoop f1 (hexes hs) (Z.of_nat i) acc = Some (acc ++ proof)
    /\ block.reduce f2 hs = [r]
    /\ merkle.verifyFrom 0 (hex.EncodeToString h) proof (Z.of_nat i)
       = hex.EncodeToString r.
Proof.
  induction n as [|n IH]; intros hs f1 f2 i h acc Hn H2 Hf1 Hf2 Hi; [lia|].
  destruct f1 as [|f1]; [lia|]. destruct f2 as [|f2]; [lia|].
  cbn [merkle.proofLoop block.reduce].
  assert (E1 : (1 <? length (hexes hs))%nat = true)
    by (apply ltb_1_length; unfold hexes; rewrite length_map; lia).
  assert (E2 : (1 <? length hs)%nat = true) by (apply ltb_1_length; lia).
  rewrite E1, E2. cbv zeta. rewrite dupLastHash_hexes.
  pose proof (evenize_even hs) as Hev.
  pose proof (evenize_length_ge hs) as Hge.
  pose proof (evenize_nth hs i h Hi) as Hie.
  assert (Hlt : (i < length (block.evenize hs))%nat)
    by (apply nth_error_Some; congruence).
  rewrite (nextLevel_hexes _ Hev), pairUp_evenize.
  unfold hexes at 1 2. rewrite length_map.
  destruct (index_bits i) as (k & Hq & Hbits). rewrite Hq.
  assert (Hk : exists a b,
             nth_error (block.evenize hs) (2 * k) = Some a
             /\ nth_error (block.evenize hs) (2 * k + 1) = Some b
             /\ nth_error (map hex.EncodeToString (block.evenize hs))
                  (Z.to_nat (Z.lxor (Z.of_nat i) 1))
                = Some (hex.EncodeToString
                          (if Z.land (Z.of_nat i) 1 =? 0 then b else a))
             /\ h = (if Z.land (Z.of_nat i) 1 =? 0 then a else b)
             /\ (Z.lxor (Z.of_nat i) 1 <? Z.of_nat (length (block.evenize hs))) = true
             /\ (Z.lxor (Z.of_nat i) 1 <? 0) = false).
  { assert (H2k : (2 * k < length (block.evenize hs))%nat)
      by (destruct Hbits as [(-> & _)|(-> & _)]; lia).
    pose proof (even_length_sibling _ k Hev H2k) as H2k1.
    destruct (nth_error (block.evenize hs) (2 * k)) as [a|] eqn:Ea;
      [|apply nth_error_None in Ea; lia].
    destruct (nth_error (block.evenize hs) (2 * k + 1)) as [b|] eqn:Eb;
      [|apply nth_error_None in Eb; lia].
    exists a, b. split; [reflexivity|]. split; [reflexivity|].
    destruct Hbits as [(-> & Hx & Hl)|(-> & Hx & Hl)]; rewrite Hx, Hl, Nat2Z.id;
      rewrite nth_error_map.
    - rewrite Eb. split; [reflexivity|]. split; [cbn [Z.eqb]; congruence|].
      split; [apply Z.ltb_lt; lia | apply Z.ltb_ge; lia].
    - rewrite Ea. split; [reflexivity|]. split; [cbn [Z.eqb]; congruence|].
      split; [apply Z.ltb_lt; lia | apply Z.ltb_ge; lia]. }
  destruct Hk as (a & b & Ha & Hb & Hsib & Hh & Hin & Hneg).
  rewrite Hin, Hneg, Hsib.
  pose proof (pairUp_nth _ k a b Ha Hb) as Hup.
  rewrite pairUp_evenize in Hup.
  pose proof (pairUp_shrinks _ H2) as Hshr.
  set (s := if Z.land (Z.of_nat i) 1 =? 0 then b else a) in *.
  assert (Hstep : forall proof,
            merkle.verifyFrom 0 (hex.EncodeToString h)
              (hex.EncodeToString s :: proof) (Z.of_nat i)
            = merkle.verifyFrom 0 (hex.EncodeToString (sha256.Sum256 (a ++ b)))
                proof (Z.of_nat k)).
  { intros proof. cbn [merkle.verifyFrom]. rewrite verifyFrom_shift.
    rewrite Z.shiftr_0_r, !decode_encode.
    rewrite Z.shiftr_div_pow2 by lia. change (2 ^ 1) with 2.
    rewrite <- Z.quot_div_nonneg by lia. rewrite Hq.
    subst s h. now destruct (Z.land (Z.of_nat i) 1 =? 0). }
  destruct (le_lt_dec 2 (length (block.pairUp hs))) as [Hmany|Hone].
  - destruct (IH (block.pairUp hs) f1 f2 k (sha256.Sum256 (a ++ b))
                (acc ++ [hex.EncodeToString s])
                ltac:(lia) Hmany ltac:(lia) ltac:(lia) Hup)
      as (proof & r & Hp & Hr & Hv).
    exists (hex.EncodeToString s :: proof), r. fold (hexes (block.pairUp hs)).
    rewrite Hp. split; [now rewrite <- app_assoc|]. split; [exact Hr|].
    now rewrite Hstep.
  - exists [hex.EncodeToString s], (sha256.Sum256 (a ++ b)).
    fold (hexes (block.pairUp hs)).
    assert (Hlen : length (block.pairUp hs) = 1%nat)
      by (pose proof (pairUp_nonempty hs ltac:(lia)); lia).
    destruct (block.pairUp hs) as [|r [|? ?]] eqn:Ep; try discriminate Hlen.
    destruct k as [|k]; [|destruct k; discriminate Hup].
    cbn [nth_error] in Hup. injection Hup as ->.
    split.
    + destruct f1; reflexivity.
    + split; [destruct f2; reflexivity|]. now rewrite Hstep.
Qed.

Lemma tree_of_many tx1 tx2 rest :
  exists root,
    merkle.NewMerkleTree (map transaction.Serialize (tx1 :: tx2 :: rest))
    = Some (merkle.mkTree (Some root))
    /\ merkle.nodeHash root
       = block.rootOfHashes (map merkle.leaf (tx1 :: tx2 :: rest)).
Proof.
  pose proof (tree_root_many tx1 tx2 rest) as H.
  unfold merkle.CalculateMerkleRootFromTransactions in H.
  unfold merkle.NewMerkleTree in *. cbv zeta in *.
  destruct (merkle.build _ _) as [[|root ?]|]; try discriminate H.
  exists root. split; [reflexivity|]. now injection H.
Qed.

(** X12. The proof that [GenerateMerkleProof] gives for the transaction at a
    valid index of a list of two transactions or more is accepted by
    [VerifyTransaction] on the tree that [NewMerkleTree] builds over the
    serialized transactions, when the hash handed in is the hex SHA-256 of
    the serialized transaction (the leaf of that tree, which is neither
    [Hash] nor [ID] of the transaction). Neither function panics. *)
Theorem generated_merkle_proof_verifies txs i tx :
  (2 <= length txs)%nat -> nth_error txs i = Some tx ->
  exists proof tree,
    merkle.GenerateMerkleProof txs (Z.of_nat i) = Some (proof, None)
    /\ merkle.NewMerkleTree (map transaction.Serialize txs) = Some tree
    /\ merkle.VerifyTransaction tree
         (hex.EncodeToString (sha256.Sum256 (transaction.Serialize tx)))
         proof (Z.of_nat i) = Some true.
Proof.
  intros H2 Hi.
  assert (Hlt : (i < length txs)%nat) by (apply nth_error_Some; congruence).
  destruct txs as [|tx1 [|tx2 rest]]; try (cbn [length] in H2; lia).
  set (txs := tx1 :: tx2 :: rest) in *.
  destruct (tree_of_many tx1 tx2 rest) as (root & Htree & Hroot). fold txs in Htree, Hroot.
  assert (Hleaf : nth_error (map merkle.leaf txs) i = Some (merkle.leaf tx))
    by (rewrite nth_error_map, Hi; reflexivity).
  assert (Hlen : length (map merkle.leaf txs) = length txs) by apply length_map.
  destruct (proofLoop_climbs (length txs) (map merkle.leaf txs)
              (length txs) (length txs) i (merkle.leaf tx) []
              (Nat.eq_le_incl _ _ Hlen) ltac:(rewrite Hlen; exact H2)
              (Nat.eq_le_incl _ _ Hlen) (Nat.eq_le_incl _ _ Hlen) Hleaf)
    as (proof & r & Hp & Hr & Hv).
  exists proof, (merkle.mkTree (Some root)).
  split; [|split; [exact Htree|]].
  - unfold merkle.GenerateMerkleProof.
    destruct (Z.ltb_spec (Z.of_nat i) 0) as [Hneg|_]; [lia|].
    destruct (Z.leb_spec (Z.of_nat (length txs)) (Z.of_nat i)) as [Hge|_]; [lia|].
    cbn [orb]. cbv zeta. rewrite length_map.
    unfold hexes, merkle.leaf in Hp. rewrite map_map in Hp. now rewrite Hp.
  - unfold merkle.VerifyTransaction. cbn [merkle.Root]. f_equal.
    apply String.eqb_eq. unfold merkle.leaf in Hv. rewrite Hv, Hroot.
    unfold block.rootOfHashes. rewrite Hlen. now rewrite Hr.
Qed.

Lemma generated_merkle_proof_verifies_witness :
  ((2 <= length [sample.txA; sample.txB; sample.txC])%nat
   /\ nth_error [sample.txA; sample.txB; sample.txC] 2 = Some sample.txC)
  /\ exists proof tree,
       merkle.GenerateMerkleProof [sample.txA; sample.txB; sample.txC] 2
       = Some (proof, None)
       /\ merkle.NewMerkleTree
            (map transaction.Serialize [sample.txA; sample.txB; sample.txC])
          = Some tree
       /\ merkle.VerifyTransaction tree
            (hex.EncodeToString (sha256.Sum256 (transaction.Serialize sample.txC)))
            proof 2 = Some true.
Proof.
  split; [split; [cbn [length]; lia | reflexivity]|].
  exact (generated_merkle_proof_verifies [sample.txA; sample.txB; sample.txC]
           2 sample.txC ltac:(cbn [length]; lia) eq_refl).
Defined.

Lemma tree_of_one tx :
  exists root,
    merkle.NewMerkleTree [transaction.Serialize tx]
    = Some (merkle.mkTree (Some root))
    /\ merkle.nodeHash root
       = hex.EncodeToString (sha256.Sum256 (merkle.leaf tx ++ merkle.leaf tx)).
Proof.
  pose proof (tree_root_single tx) as H.
  unfold merkle.CalculateMerkleRootFromTransactions in H. cbn [map] in H.
  destruct (merkle.NewMerkleTree [transaction.Serialize tx]) as [[[root|]]|] eqn:E;
    try discriminate H.
  exists root. split; [reflexivity|]. now injection H.
Qed.

(** X13. [GenerateMerkleProof] refuses exactly the indexes outside the list,
    and for the one transaction of a list of one it gives the empty
    proof, which [VerifyTransaction] accepts on the tree of that list only
    if the leaf were the SHA-256 of itself written twice: the tree pairs
    the leaf with itself, the proof does not. For [txA] it is refused. *)
Theorem merkle_proof_of_a_single_transaction :
  (forall txs index,
     merkle.GenerateMerkleProof txs index
     = Some ([], Some "invalid transaction index")
     <-> index < 0 \/ Z.of_nat (length txs) <= index)
  /\ (forall tx,
        merkle.GenerateMerkleProof [tx] 0 = Some ([], None)
        /\ exists tree,
             merkle.NewMerkleTree [transaction.Serialize tx] = Some tree
             /\ (merkle.VerifyTransaction tree
                   (hex.EncodeToString (sha256.Sum256 (transaction.Serialize tx)))
                   [] 0 = Some true
                 <-> sha256.Sum256
                       (sha256.Sum256 (transaction.Serialize tx) ++
                        sha256.Sum256 (transaction.Serialize tx))
                     = sha256.Sum256 (transaction.Serialize tx)))
  /\ (exists tree,
        merkle.NewMerkleTree [transaction.Serialize sample.txA] = Some tree
        /\ merkle.VerifyTransaction tree
             (hex.EncodeToString (sha256.Sum256 (transaction.Serialize sample.txA)))
             [] 0 = Some false).
Proof.
  split; [|split].
  - intros txs index. unfold merkle.GenerateMerkleProof.
    destruct (Z.ltb_spec index 0) as [H1|H1];
      destruct (Z.leb_spec (Z.of_nat (length txs)) index) as [H2|H2];
      cbn [orb]; try (split; [intros _; lia | reflexivity]).
    cbv zeta. split; [|lia].
    destruct (merkle.proofLoop _ _ _ _); intros H; discriminate H.
  - intros tx. split.
    { unfold merkle.GenerateMerkleProof.
      cbn [Z.ltb Z.leb Z.compare length Z.of_nat Pos.of_succ_nat orb map
           merkle.proofLoop Nat.ltb Nat.leb].
      reflexivity. }
    destruct (tree_of_one tx) as (root & Ht & Hr).
    exists (merkle.mkTree (Some root)). split; [exact Ht|].
    unfold merkle.VerifyTransaction.
    cbn [merkle.Root merkle.verifyFrom]. rewrite Hr. unfold merkle.leaf.
    assert (Hs : forall x : bool, Some x = Some true <-> x = true)
      by (intros x; split; [intros [= ->] | intros ->]; reflexivity).
    rewrite Hs, String.eqb_eq. split; intros H.
    + apply (f_equal hex.DecodeString) in H. rewrite !decode_encode in H.
      now symmetry.
    + now rewrite H.
  - destruct (tree_of_one sample.txA) as (root & Ht & Hr).
    exists (merkle.mkTree (Some root)). split; [exact Ht|].
    unfold merkle.VerifyTransaction.
    cbn [merkle.Root merkle.verifyFrom]. rewrite Hr. apply f_equal.
    vm_compute. reflexivity.
Qed.

(** * What the transaction codec accepts (transaction.go) *)

Lemma of_string_app a b :
  bytes.of_string (a ++ b)%string = bytes.of_string a ++ bytes.of_string b.
Proof.
  unfold bytes.of_string, list_byte_of_string.
  induction a as [|c a IH]; [reflexivity|].
  change (String c a ++ b)%string with (String c (a ++ b)%string).
  cbn [list_ascii_of_string map app]. now rewrite IH.
Qed.

Lemma string_length_app a b :
  String.length (a ++ b)%string = (String.length a + String.length b)%nat.
Proof.
  induction a as [|c a IH]; [reflexivity|].
  change (String c a ++ b)%string with (String c (a ++ b)%string).
  cbn [String.length]. now rewrite IH.
Qed.

Lemma firstn_drop_suffix {A} (p s : list A) :
  firstn (length (p ++ s) - length s) (p ++ s) = p.
Proof.
  rewrite length_app, Nat.add_sub.
  rewrite firstn_app, Nat.sub_diag, firstn_all. cbn [firstn]. apply app_nil_r.
Qed.

(** The reader on everything that [Serialize] writes before the status,
    followed by any bytes at all: the first seven fields are read back
    and the status is read from those bytes. *)
Lemma readTransaction_upto_status tx tail :
  wireSized tx -> tail <> [] ->
  transaction.readTransaction
    (transaction.writeString (transaction.ID tx) ++
     transaction.writeString (transaction.PublicKey tx) ++
     transaction.writeString (transaction.Name tx) ++
     transaction.writeString (transaction.Surname tx) ++
     transaction.writeString (transaction.InquiryID tx) ++
     bytes.be 8 (time.Unix (transaction.Datetime tx)) ++
     transaction.writeString (transaction.Signature tx) ++ tail)
  = transaction.bind transaction.readString
      (fun status =>
         transaction.ret
           (transaction.mkTransaction
              (transaction.ID tx) (transaction.PublicKey tx)
              (transaction.Name tx) (transaction.Surname tx)
              (transaction.InquiryID tx)
              (time.FromUnix (time.Unix (transaction.Datetime tx)))
              (transaction.Signature tx) status))
      tail.
Proof.
  intros (H1 & H2 & H3 & H4 & H5 & H6 & H7 & H8) Htail.
  unfold transaction.readTransaction.
  rewrite (bind_ok _ _ _ _ _ (readString_writeString _ _ H1
             (or_intror (writeString_app_nonempty _ _)))).
  rewrite (bind_ok _ _ _ _ _ (readString_writeString _ _ H2
             (or_intror (writeString_app_nonempty _ _)))).
  rewrite (bind_ok _ _ _ _ _ (readString_writeString _ _ H3
             (or_intror (writeString_app_nonempty _ _)))).
  rewrite (bind_ok _ _ _ _ _ (readString_writeString _ _ H4
             (or_intror (writeString_app_nonempty _ _)))).
  assert (Hts : bytes.be 8 (time.Unix (transaction.Datetime tx)) ++
                transaction.writeString (transaction.Signature tx) ++ tail <> [])
    by discriminate.
  rewrite (bind_ok _ _ _ _ _ (readString_writeString _ _ H5 (or_intror Hts))).
  rewrite (bind_ok _ _ _ _ _ (readUint_be 8 _ _ ltac:(lia))).
  rewrite (bind_ok _ _ _ _ _ (readString_writeString _ _ H6 (or_intror Htail))).
  change (256 ^ Z.of_nat 8) with (2 ^ 64). now rewrite signed_int64.
Qed.

(** X14. [DeserializeTransaction] reads back what [Serialize] wrote exactly
    when the status is not empty: then every field comes back, the
    instant cut to its second; with an empty status the input ends on the
    four zero bytes of its length and the reader answers [EOF]. *)
Theorem round_trip_needs_a_status tx :
  wireSized tx ->
  transaction.DeserializeTransaction (transaction.Serialize tx)
  = if (transaction.Status tx =? "")%string then inr "EOF"
    else inl (transaction.mkTransaction
                (transaction.ID tx) (transaction.PublicKey tx)
                (transaction.Name tx) (transaction.Surname tx)
                (transaction.InquiryID tx)
                (time.FromUnix (time.Unix (transaction.Datetime tx)))
                (transaction.Signature tx) (transaction.Status tx)).
Proof.
  intros Hw. unfold transaction.DeserializeTransaction, transaction.Serialize.
  rewrite (readTransaction_upto_status tx _ Hw)
    by (unfold transaction.writeString; discriminate).
  destruct Hw as (_ & _ & _ & _ & _ & _ & H7 & _).
  destruct (String.eqb_spec (transaction.Status tx) "") as [E|E].
  - rewrite E. reflexivity.
  - rewrite <- (app_nil_r (transaction.writeString (transaction.Status tx))).
    rewrite (bind_ok _ _ _ _ _ (readString_writeString _ _ H7 (or_introl E))).
    reflexivity.
Qed.

Lemma txA_wireSized : wireSized sample.txA.
Proof. unfold wireSized. vm_compute. repeat split; discriminate. Qed.

Lemma round_trip_needs_a_status_witness :
  wireSized sample.txA
  /\ transaction.DeserializeTransaction (transaction.Serialize sample.txA)
     = (if (transaction.Status sample.txA =? "")%string then inr "EOF"
        else inl (transaction.mkTransaction
                    (transaction.ID sample.txA) (transaction.PublicKey sample.txA)
                    (transaction.Name sample.txA) (transaction.Surname sample.txA)
                    (transaction.InquiryID sample.txA)
                    (time.FromUnix (time.Unix (transaction.Datetime sample.txA)))
                    (transaction.Signature sample.txA)
                    (transaction.Status sample.txA))).
Proof.
  split; [exact txA_wireSized|].
  exact (round_trip_needs_a_status sample.txA txA_wireSized).
Defined.

(** X15. A serialized transaction that lost the end of its status is
    accepted: the reader does not compare what [Read] copied with the
    length it asked for, and the missing characters come back as NUL. *)
Theorem truncated_status_is_padded tx kept lost :
  wireSized tx ->
  transaction.Status tx = (kept ++ lost)%string -> kept <> "" ->
  transaction.DeserializeTransaction
    (firstn (length (transaction.Serialize tx) - String.length lost)
            (transaction.Serialize tx))
  = inl (transaction.mkTransaction
           (transaction.ID tx) (transaction.PublicKey tx)
           (transaction.Name tx) (transaction.Surname tx)
           (transaction.InquiryID tx)
           (time.FromUnix (time.Unix (transaction.Datetime tx)))
           (transaction.Signature tx)
           (bytes.to_string
              (bytes.of_string kept ++ repeat Byte.x00 (String.length lost)))).
Proof.
  intros Hw Hst Hkept.
  set (tail := bytes.be 4 (Z.of_nat (String.length (transaction.Status tx))
                           mod 2 ^ 32) ++ bytes.of_string kept).
  assert (Hcut : firstn (length (transaction.Serialize tx) - String.length lost)
                   (transaction.Serialize tx)
                 = transaction.writeString (transaction.ID tx) ++
                   transaction.writeString (transaction.PublicKey tx) ++
                   transaction.writeString (transaction.Name tx) ++
                   transaction.writeString (transaction.Surname tx) ++
                   transaction.writeString (transaction.InquiryID tx) ++
                   bytes.be 8 (time.Unix (transaction.Datetime tx)) ++
                   transaction.writeString (transaction.Signature tx) ++ tail).
  { assert (Hlast : transaction.writeString (transaction.Status tx)
                    = tail ++ bytes.of_string lost).
    { unfold transaction.writeString, tail. rewrite <- app_assoc. f_equal.
      rewrite Hst. apply of_string_app. }
    unfold transaction.Serialize. rewrite Hlast.
    rewrite <- (of_string_length lost). rewrite !app_assoc.
    apply firstn_drop_suffix. }
  unfold transaction.DeserializeTransaction. rewrite Hcut.
  rewrite (readTransaction_upto_status tx tail Hw) by (unfold tail; discriminate).
  destruct Hw as (_ & _ & _ & _ & _ & _ & H7 & _).
  assert (Hr : transaction.readString tail
               = (inl (bytes.to_string
                         (bytes.of_string kept ++
                          repeat Byte.x00 (String.length lost))), [])).
  { unfold transaction.readString, tail.
    rewrite (bind_ok _ _ _ _ _ (readUint_be 4 _ _ ltac:(lia))).
    change (256 ^ Z.of_nat 4) with (2 ^ 32).
    rewrite Z.mod_mod by lia. rewrite Z.mod_small by lia. rewrite Nat2Z.id.
    unfold transaction.bind, transaction.readBytes.
    destruct (bytes.of_string kept) as [|b bs] eqn:Ek.
    { destruct kept; [contradiction | discriminate Ek]. }
    rewrite <- Ek. unfold transaction.ret.
    rewrite Hst, string_length_app, <- (of_string_length kept).
    rewrite firstn_all2 by lia. rewrite skipn_all2 by lia.
    now rewrite Nat.add_comm, Nat.add_sub. }
  now rewrite (bind_ok _ _ _ _ _ Hr).
Qed.

(** [txA] without the last three bytes of its serialization: the status
    [pending] comes back as [pend] and three NUL characters. *)
Lemma truncated_status_is_padded_witness :
  (wireSized sample.txA
   /\ transaction.Status sample.txA = ("pend" ++ "ing")%string /\ "pend" <> "")
  /\ transaction.DeserializeTransaction
       (firstn (length (transaction.Serialize sample.txA) - String.length "ing")
               (transaction.Serialize sample.txA))
     = inl (transaction.mkTransaction
              (transaction.ID sample.txA) (transaction.PublicKey sample.txA)
              (transaction.Name sample.txA) (transaction.Surname sample.txA)
              (transaction.InquiryID sample.txA)
              (time.FromUnix (time.Unix (transaction.Datetime sample.txA)))
              (transaction.Signature sample.txA)
              (bytes.to_string
                 (bytes.of_string "pend" ++ repeat Byte.x00 (String.length "ing")))).
Proof.
  split; [split; [exact txA_wireSized | split; [reflexivity | discriminate]]|].
  exact (truncated_status_is_padded sample.txA "pend" "ing" txA_wireSized
           eq_refl ltac:(discriminate)).
Defined.

Lemma string_app_assoc (a b c : string) :
  ((a ++ b) ++ c = a ++ b ++ c)%string.
Proof.
  induction a as [|x a IH]; [reflexivity|].
  change (String x a ++ b)%string with (String x (a ++ b)%string).
  change (String x (a ++ b) ++ c)%string with (String x ((a ++ b) ++ c)%string).
  change (String x a ++ b ++ c)%string with (String x (a ++ b ++ c)%string).
  now rewrite IH.
Qed.

(** X16. [Hash] digests the four fields back to back and the second of the
    instant: two transactions whose fields concatenate to the same text
    and whose instants fall in the same second have the same hash,
    whatever their signatures, and [NewTransaction] gives them the same
    [ID]. *)
Theorem Hash_ignores_field_boundaries tx1 tx2 :
  (transaction.PublicKey tx1 ++ transaction.Name tx1 ++
   transaction.Surname tx1 ++ transaction.InquiryID tx1
   = transaction.PublicKey tx2 ++ transaction.Name tx2 ++
     transaction.Surname tx2 ++ transaction.InquiryID tx2)%string ->
  time.Unix (transaction.Datetime tx1) = time.Unix (transaction.Datetime tx2) ->
  transaction.Hash tx1 = transaction.Hash tx2
  /\ transaction.ID
       (transaction.NewTransaction (transaction.PublicKey tx1)
          (transaction.Name tx1) (transaction.Surname tx1)
          (transaction.InquiryID tx1) (transaction.Datetime tx1)
          (transaction.Signature tx1))
     = transaction.ID
         (transaction.NewTransaction (transaction.PublicKey tx2)
            (transaction.Name tx2) (transaction.Surname tx2)
            (transaction.InquiryID tx2) (transaction.Datetime tx2)
            (transaction.Signature tx2)).
Proof.
  intros Hf Ht.
  assert (Hb : transaction.hashBytes tx1 = transaction.hashBytes tx2).
  { unfold transaction.hashBytes. rewrite Ht.
    rewrite !app_assoc. f_equal. rewrite <- !app_assoc.
    rewrite <- !of_string_app. now rewrite Hf. }
  split; unfold transaction.NewTransaction, transaction.Hash;
    cbn [transaction.ID]; unfold transaction.hashBytes in *;
    cbn [transaction.PublicKey transaction.Name transaction.Surname
         transaction.InquiryID transaction.Datetime]; now rewrite Hb.
Qed.

(** [txRoe] and [txRoei]: another surname, another inquiry, another
    signature, half a second apart, and one [ID]. *)
Lemma Hash_ignores_field_boundaries_witness :
  ((transaction.PublicKey sample.txRoe ++ transaction.Name sample.txRoe ++
    transaction.Surname sample.txRoe ++ transaction.InquiryID sample.txRoe
    = transaction.PublicKey sample.txRoei ++ transaction.Name sample.txRoei ++
      transaction.Surname sample.txRoei ++ transaction.InquiryID sample.txRoei)%string
   /\ time.Unix (transaction.Datetime sample.txRoe)
      = time.Unix (transaction.Datetime sample.txRoei))
  /\ (transaction.InquiryID sample.txRoe <> transaction.InquiryID sample.txRoei
      /\ transaction.Surname sample.txRoe <> transaction.Surname sample.txRoei)
  /\ transaction.Hash sample.txRoe = transaction.Hash sample.txRoei
  /\ transaction.ID sample.txRoe = transaction.ID sample.txRoei.
Proof.
  split; [split; reflexivity|]. split; [split; discriminate|].
  exact (Hash_ignores_field_boundaries sample.txRoe sample.txRoei
           eq_refl eq_refl).
Defined.

(** X17. The message that is signed joins the fields with a bar and ends on
    the second of the instant: moving a bar between the name and the
    surname, or moving the instant within its second, leaves the message
    as it is, and so does every verifier's answer for the same key and
    signature. *)
Theorem signed_message_is_ambiguous V pk a b c inq dt dt' sig id1 id2 st1 st2 :
  time.Unix dt = time.Unix dt' ->
  let tx1 := transaction.mkTransaction id1 pk (a ++ "|" ++ b) c inq dt sig st1 in
  let tx2 := transaction.mkTransaction id2 pk a (b ++ "|" ++ c) inq dt' sig st2 in
  transaction.GetSignableMessage tx1 = transaction.GetSignableMessage tx2
  /\ transaction.VerifySignature V tx1 = transaction.VerifySignature V tx2.
Proof.
  intros Ht tx1 tx2.
  assert (Hm : transaction.GetSignableMessage tx1
               = transaction.GetSignableMessage tx2).
  { unfold transaction.GetSignableMessage, tx1, tx2.
    cbn [transaction.PublicKey transaction.Name transaction.Surname
         transaction.InquiryID transaction.Datetime].
    rewrite Ht. f_equal. rewrite !string_app_assoc. reflexivity. }
  split; [exact Hm|]. unfold transaction.VerifySignature. now rewrite Hm.
Qed.

(** Mary|Ann Lee and Mary Ann|Lee, one nanosecond apart. *)
Lemma signed_message_is_ambiguous_witness :
  time.Unix sample.now = time.Unix (sample.now + 1)
  /\ transaction.GetSignableMessage
       (transaction.mkTransaction "" "PK" ("Mary" ++ "|" ++ "Ann") "Lee"
          "inq-3" sample.now "SIG" "pending")
     = transaction.GetSignableMessage
         (transaction.mkTransaction "" "PK" "Mary" ("Ann" ++ "|" ++ "Lee")
            "inq-3" (sample.now + 1) "SIG" "pending").
Proof.
  split; [reflexivity|].
  exact (proj1 (signed_message_is_ambiguous sample.acceptAll "PK" "Mary" "Ann"
                  "Lee" "inq-3" sample.now (sample.now + 1) "SIG" "" ""
                  "pending" "pending" eq_refl)).
Defined.

(** * Proof of work (consensus) *)

(** X18. [Mine] never finds a nonce: it hashes the block as it came in on
    every pass, so it answers whether the block, with the nonce it came
    with, already passes [Validate]. *)
Theorem Mine_is_Validate pow b :
  consensus.Mine pow b = consensus.Validate pow b.
Proof.
  unfold consensus.Mine.
  rewrite (firstNonce_constant (consensus.Validate pow b) 4294967295 0).
  destruct (consensus.Validate pow b); reflexivity.
Qed.

Lemma byte_to_Z_range b : 0 <= bytes.byte_to_Z b < 256.
Proof.
  unfold bytes.byte_to_Z. pose proof (Byte.to_N_bounded b) as H.
  lia.
Qed.

Lemma be_val_range_acc bs : forall acc,
  0 <= acc ->
  0 <= fold_left (fun a b => a * 256 + bytes.byte_to_Z b) bs acc
    < (acc + 1) * 256 ^ Z.of_nat (length bs).
Proof.
  induction bs as [|b bs IH]; intros acc Hacc.
  - cbn [fold_left length]. change (256 ^ Z.of_nat 0) with 1. lia.
  - cbn [fold_left length]. pose proof (byte_to_Z_range b) as Hb.
    destruct (IH (acc * 256 + bytes.byte_to_Z b) ltac:(lia)) as [H1 H2].
    split; [exact H1|]. rewrite Nat2Z.inj_succ, Z.pow_succ_r by lia.
    assert (Hp : 0 < 256 ^ Z.of_nat (length bs)) by (apply Z.pow_pos_nonneg; lia).
    nia.
Qed.

(** A sequence of [n] bytes reads as a number below [256 ^ n]. *)
Lemma be_val_range bs : 0 <= bytes.be_val bs < 256 ^ Z.of_nat (length bs).
Proof.
  unfold bytes.be_val. pose proof (be_val_range_acc bs 0 ltac:(lia)) as H. lia.
Qed.

Lemma digest_range b : 0 <= bytes.be_val (consensus.calculateHash b) < 2 ^ 256.
Proof.
  pose proof (be_val_range (consensus.calculateHash b)) as H.
  unfold consensus.calculateHash in *. rewrite Sum256_length in H.
  change (256 ^ Z.of_nat 32) with (2 ^ 256) in H. exact H.
Qed.

(** X19. What the bits of an engine ask of a block. The digest that
    [Validate] compares is the one whose hex is the [Hash] of the block.
    With bits from 0 to 256 the block passes exactly when that digest,
    read as a number, is below [2 ^ (256 - bits)], that is, when its
    first [bits] bits are zero; with more than 256 bits the subtraction
    wraps around, the target is beyond every digest and every block
    passes. *)
Theorem proof_of_work_threshold bits b :
  0 <= bits < 2 ^ 32 ->
  hex.EncodeToString (consensus.calculateHash b) = block.Hash b
  /\ (consensus.Validate (consensus.NewProofOfWork bits) b = true
      <-> 256 < bits
          \/ bytes.be_val (consensus.calculateHash b) < 2 ^ (256 - bits)).
Proof.
  intros Hbits. split; [reflexivity|].
  unfold consensus.Validate, consensus.NewProofOfWork. cbn [consensus.target].
  pose proof (digest_range b) as Hd.
  rewrite Z.ltb_lt.
  assert (Hm : 0 <= (256 - bits) mod 2 ^ 32) by (apply Z.mod_pos_bound; lia).
  rewrite Z.shiftl_1_l.
  destruct (Z_le_gt_dec bits 256) as [Hle|Hgt].
  - rewrite Z.mod_small by lia. split; [intros H; now right|].
    intros [H|H]; [lia | exact H].
  - split; [intros _; left; lia|]. intros _.
    replace ((256 - bits) mod 2 ^ 32) with (2 ^ 32 + 256 - bits)
      by (apply Z.mod_unique with (-1); lia).
    apply Z.lt_le_trans with (2 ^ 256); [lia|].
    apply Z.pow_le_mono_r; lia.
Qed.

Lemma proof_of_work_threshold_witness :
  0 <= 16 < 2 ^ 32
  /\ consensus.Validate (consensus.NewProofOfWork 16) sample.B0 = true
  /\ hex.EncodeToString (consensus.calculateHash sample.B0) = block.Hash sample.B0
  /\ (consensus.Validate (consensus.NewProofOfWork 16) sample.B0 = true
      <-> 256 < 16
          \/ bytes.be_val (consensus.calculateHash sample.B0) < 2 ^ (256 - 16)).
Proof.
  split; [lia|]. split; [vm_compute; reflexivity|].
  exact (proof_of_work_threshold 16 sample.B0 ltac:(lia)).
Defined.

(** X20. [CalculateDifficulty] moves the bits by one step at most and never
    wraps them: it adds one only below 32 and when the time taken is
    under half the target time, takes one off only above 1, and leaves
    bits from 1 to 32 between 1 and 32. *)
Theorem CalculateDifficulty_moves_one_step bits actual target :
  0 <= bits < 2 ^ 32 ->
  let r := consensus.CalculateDifficulty bits actual target in
  (r = bits
   \/ (r = bits + 1 /\ bits < 32 /\ actual < Z.quot target 2)
   \/ (r = bits - 1 /\ 1 < bits /\ Z.quot target 2 <= actual))
  /\ 0 <= r < 2 ^ 32
  /\ (1 <= bits <= 32 -> 1 <= r <= 32).
Proof.
  intros Hb r. subst r. unfold consensus.CalculateDifficulty.
  destruct (Z.ltb_spec actual (Z.quot target 2)) as [Hfast|Hslow].
  - destruct (Z.ltb_spec bits 32) as [Hlt|Hge].
    + rewrite Z.mod_small by lia. split; [right; left; lia|]. lia.
    + split; [now left|]. lia.
  - destruct (bytes.signed 64 ((target * 2) mod 2 ^ 64) <? actual).
    + destruct (Z.ltb_spec 1 bits) as [Hgt|Hle].
      * rewrite Z.mod_small by lia. split; [right; right; lia|]. lia.
      * split; [now left|]. lia.
    + split; [now left|]. lia.
Qed.

Lemma CalculateDifficulty_moves_one_step_witness :
  0 <= 16 < 2 ^ 32
  /\ consensus.CalculateDifficulty 16 943 (2016 * 600) = 17
  /\ (let r := consensus.CalculateDifficulty 16 943 (2016 * 600) in
      (r = 16
       \/ (r = 16 + 1 /\ 16 < 32 /\ 943 < Z.quot (2016 * 600) 2)
       \/ (r = 16 - 1 /\ 1 < 16 /\ Z.quot (2016 * 600) 2 <= 943))
      /\ 0 <= r < 2 ^ 32
      /\ (1 <= 16 <= 32 -> 1 <= r <= 32)).
Proof.
  split; [lia|]. split; [reflexivity|].
  exact (CalculateDifficulty_moves_one_step 16 943 (2016 * 600) ltac:(lia)).
Defined.

(** * Blocks and their hashes (block.go and crypto/hash.go) *)

(** X21. A block passes [Validate] exactly when it has a transaction, its
    stored Merkle root is the recomputed one and every transaction passes
    its own [Validate]; the previous hash, the height, the bits and the
    nonce are not looked at. A block that [NewBlock] built therefore
    passes exactly when it has a transaction and all of them pass. *)
Theorem block_Validate_accepts_iff now b :
  (block.Validate now b = None
   <-> block.Transactions b <> []
       /\ block.CalculateMerkleRoot b = block.MerkleRoot (block.Header b)
       /\ Forall (fun tx => transaction.Validate now tx = None)
                 (block.Transactions b))
  /\ (forall created prev height,
        block.Validate now
          (block.NewBlock created (block.Transactions b) prev height) = None
        <-> block.Transactions b <> []
            /\ Forall (fun tx => transaction.Validate now tx = None)
                      (block.Transactions b)).
Proof.
  split; [apply block_Validate_None|].
  intros created prev height. rewrite block_Validate_None.
  unfold block.NewBlock, block.CalculateMerkleRoot.
  cbn [block.Transactions block.Header block.MerkleRoot]. tauto.
Qed.

Lemma nextLevel_crypto hs :
  crypto.nextLevel (hexes hs) = hexes (block.pairUp hs).
Proof.
  induction hs as [| a | a b r IH] using pair_induction.
  - reflexivity.
  - cbn [hexes map crypto.nextLevel block.pairUp]. unfold crypto.MerkleHash.
    now rewrite decode_encode.
  - cbn [hexes map crypto.nextLevel block.pairUp]. fold (hexes r).
    rewrite IH. unfold crypto.MerkleHash. now rewrite !decode_encode.
Qed.

Lemma climb_reduce fuel : forall hs,
  crypto.climb fuel (hexes hs) = hexes (block.reduce fuel hs).
Proof.
  induction fuel as [|k IH]; intros hs; [reflexivity|].
  cbn [crypto.climb block.reduce]. unfold hexes at 1. rewrite length_map.
  destruct (1 <? length hs)%nat; [|reflexivity].
  now rewrite nextLevel_crypto, IH.
Qed.

Lemma hexes_leaves txs :
  map transaction.Hash txs = hexes (map block.leaf txs).
Proof.
  unfold hexes. rewrite map_map. apply map_ext. intros tx.
  rewrite block_leaf. reflexivity.
Qed.

(** X22. [crypto.CalculateMerkleRoot] over the hashes of the transactions of
    a block is the root that [Block.CalculateMerkleRoot] computes, for
    any number of transactions; it never indexes an empty level. *)
Theorem crypto_root_is_the_block_root b :
  crypto.CalculateMerkleRoot (map transaction.Hash (block.Transactions b))
  = Some (block.CalculateMerkleRoot b).
Proof.
  unfold block.CalculateMerkleRoot.
  destruct (block.Transactions b) as [|tx1 [|tx2 rest]].
  - reflexivity.
  - cbn [map crypto.CalculateMerkleRoot]. now rewrite merkleRootOf_single.
  - set (txs := tx1 :: tx2 :: rest).
    assert (Hroot : crypto.CalculateMerkleRoot (map transaction.Hash txs)
                    = match crypto.climb (length (map transaction.Hash txs))
                              (map transaction.Hash txs) with
                      | h :: _ => Some h
                      | [] => None
                      end) by reflexivity.
    rewrite Hroot, hexes_leaves, climb_reduce.
    unfold block.merkleRootOf. fold txs.
    change (match txs with
            | [] => ""
            | _ :: _ => block.rootOfHashes (map block.leaf txs)
            end)
      with (block.rootOfHashes (map block.leaf txs)).
    unfold block.rootOfHashes, hexes. rewrite !length_map.
    destruct (reduce_to_one (length txs) (map block.leaf txs) (length txs)
                ltac:(now rewrite length_map)
                ltac:(rewrite length_map; cbn [txs length]; lia)
                ltac:(now rewrite length_map))
      as [h Hh].
    now rewrite Hh.
Qed.

Lemma decodeError_encode_byte b r :
  hex.decodeError (hex.EncodeToString (b :: r))
  = hex.decodeError (hex.EncodeToString r).
Proof. destruct b; reflexivity. Qed.

(** The hex of any bytes decodes without error. *)
Lemma decodeError_encode bs : hex.decodeError (hex.EncodeToString bs) = None.
Proof.
  induction bs as [|b r IH]; [reflexivity|]. now rewrite decodeError_encode_byte.
Qed.

Lemma ValidateHash_digest msg :
  crypto.ValidateHash (hex.EncodeToString (sha256.Sum256 msg)) = None.
Proof.
  unfold crypto.ValidateHash.
  rewrite encode_length, Sum256_length, decodeError_encode. reflexivity.
Qed.

Lemma pairUp_digests hs :
  Forall (fun h => exists msg, h = sha256.Sum256 msg) (block.pairUp hs).
Proof.
  induction hs as [| a | a b r IH] using pair_induction.
  - constructor.
  - repeat constructor. now eexists.
  - rewrite pairUp_two. constructor; [now eexists | exact IH].
Qed.

Lemma reduce_digests fuel : forall hs,
  Forall (fun h => exists msg, h = sha256.Sum256 msg) hs ->
  Forall (fun h => exists msg, h = sha256.Sum256 msg) (block.reduce fuel hs).
Proof.
  induction fuel as [|k IH]; intros hs H; [exact H|].
  cbn [block.reduce]. destruct (1 <? length hs)%nat; [|exact H].
  apply IH, pairUp_digests.
Qed.

Lemma root_is_a_digest tx txs :
  exists msg, block.merkleRootOf (tx :: txs)
              = hex.EncodeToString (sha256.Sum256 msg).
Proof.
  unfold block.merkleRootOf, block.rootOfHashes.
  set (hs := map block.leaf (tx :: txs)).
  assert (Hall : Forall (fun h => exists msg, h = sha256.Sum256 msg) hs).
  { unfold hs. apply List.Forall_forall. intros h Hin.
    apply in_map_iff in Hin. destruct Hin as (t & <- & _).
    eexists. apply block_leaf. }
  destruct (reduce_to_one (length hs) hs (length hs) (le_n _)
              ltac:(unfold hs; cbn [map length]; lia) (le_n _)) as [h Hh].
  pose proof (reduce_digests (length hs) hs Hall) as Hd.
  rewrite Hh in *. inversion Hd as [|? ? [msg ->] _]; subst.
  now exists msg.
Qed.

(** X23. [ValidateHash] accepts every hash the node computes: the hash of a
    transaction and of a block, the Merkle root of a block that has a
    transaction, and what [HashData], [MerkleHash] and [DoubleHash]
    answer. It refuses the Merkle root of a block without transactions
    and the previous hash [0] of the genesis block. *)
Theorem ValidateHash_accepts_computed_hashes :
  (forall tx, crypto.ValidateHash (transaction.Hash tx) = None)
  /\ (forall b, crypto.ValidateHash (block.Hash b) = None)
  /\ (forall b, block.Transactions b <> [] ->
        crypto.ValidateHash (block.CalculateMerkleRoot b) = None)
  /\ (forall data, crypto.ValidateHash (crypto.HashData data) = None)
  /\ (forall left right,
        crypto.ValidateHash (crypto.MerkleHash left right) = None)
  /\ (forall data, crypto.ValidateHash (crypto.DoubleHash data) = None)
  /\ (forall h, crypto.ValidateHash (block.CalculateMerkleRoot (block.mkBlock h []))
                = Some (crypto.InvalidLength 0))
  /\ (forall now,
        crypto.ValidateHash
          (block.PrevBlockHash (block.Header (block.GenesisBlock now)))
        = Some (crypto.InvalidLength 1)).
Proof.
  split; [intros tx; apply ValidateHash_digest|].
  split; [intros b; apply ValidateHash_digest|].
  split.
  { intros b Hne. unfold block.CalculateMerkleRoot.
    destruct (block.Transactions b) as [|tx txs]; [contradiction|].
    destruct (root_is_a_digest tx txs) as [msg ->]. apply ValidateHash_digest. }
  split; [intros data; apply ValidateHash_digest|].
  split; [intros left right; apply ValidateHash_digest|].
  split; [intros data; apply ValidateHash_digest|].
  split; reflexivity.
Qed.

Lemma ValidateHash_accepts_computed_hashes_witness :
  block.Transactions sample.B0 <> []
  /\ crypto.ValidateHash (block.CalculateMerkleRoot sample.B0) = None.
Proof.
  assert (Hne : block.Transactions sample.B0 <> []) by discriminate.
  split; [exact Hne|].
  exact (proj1 (proj2 (proj2 ValidateHash_accepts_computed_hashes)) sample.B0 Hne).
Defined.

Lemma hash32_length s : length (block.hash32 s) = 32%nat.
Proof.
  unfold block.hash32. cbv zeta.
  destruct (Nat.ltb_spec (length (hex.DecodeString s)) 32) as [Hlt|Hge].
  - rewrite firstn_all2; rewrite length_app, repeat_length; lia.
  - rewrite length_firstn. lia.
Qed.

Lemma hash32_digest msg :
  block.hash32 (hex.EncodeToString (sha256.Sum256 msg)) = sha256.Sum256 msg.
Proof.
  unfold block.hash32. cbv zeta. rewrite decode_encode, Sum256_length.
  cbn [Nat.ltb Nat.leb]. apply firstn_all2. rewrite Sum256_length. lia.
Qed.

Lemma blockData_length b :
  length (block.blockData b)
  = (96 + length (concat (map transaction.Serialize (block.Transactions b))))%nat.
Proof.
  unfold block.blockData. cbv zeta.
  rewrite !length_app, !be_length, !hash32_length. lia.
Qed.

(** X24. The frame that [Serialize] writes around a block of less than
    [2 ^ 32] bytes: the magic value D9 B4 BE F9, the number of bytes that
    follow on 32 bits, a header of 96 bytes whatever the stored hashes
    are, and the transactions. A previous hash that is the hash of a
    block is written as the 32 bytes of the digest of that block's
    header. *)
Theorem Serialize_frames_the_block b :
  Z.of_nat (length (block.blockData b)) < 2 ^ 32 ->
  firstn 4 (block.Serialize b) = [Byte.xd9; Byte.xb4; Byte.xbe; Byte.xf9]
  /\ bytes.be_val (firstn 4 (skipn 4 (block.Serialize b)))
     = Z.of_nat (length (block.Serialize b)) - 8
  /\ length (block.Serialize b)
     = (104 + length (concat (map transaction.Serialize (block.Transactions b))))%nat
  /\ skipn 104 (block.Serialize b)
     = concat (map transaction.Serialize (block.Transactions b))
  /\ (forall prev,
        block.PrevBlockHash (block.Header b) = block.Hash prev ->
        firstn 32 (skipn 12 (block.Serialize b))
        = sha256.Sum256 (block.headerBytes (block.Header prev))).
Proof.
  intros Hsize. unfold block.Serialize.
  rewrite Z.mod_small by lia.
  split; [reflexivity|]. split.
  { rewrite (drop_app_length' _ _ 4) by (now rewrite be_length).
    rewrite (take_app_length' _ _ 4) by (now rewrite be_length).
    rewrite be_val_be. rewrite !length_app, !be_length.
    change (256 ^ Z.of_nat 4) with (2 ^ 32). rewrite Z.mod_small by lia. lia. }
  split; [rewrite !length_app, !be_length, blockData_length; lia|].
  split.
  { unfold block.blockData. cbv zeta. rewrite !app_assoc.
    apply drop_app_length'. rewrite !length_app, !be_length, !hash32_length.
    reflexivity. }
  intros prev Hprev. unfold block.blockData. cbv zeta. rewrite Hprev.
  unfold block.Hash. rewrite hash32_digest.
  rewrite (app_assoc (bytes.be 4 3652501241)).
  rewrite (app_assoc _ (bytes.be 4 (block.Version (block.Header b)))).
  rewrite drop_app_length' by (rewrite !length_app, !be_length; reflexivity).
  apply take_app_length'. now rewrite Sum256_length.
Qed.

(** [B1], whose previous hash is the hash of [B0]. *)
Lemma Serialize_frames_the_block_witness :
  Z.of_nat (length (block.blockData sample.B1)) < 2 ^ 32
  /\ block.PrevBlockHash (block.Header sample.B1) = block.Hash sample.B0
  /\ firstn 4 (block.Serialize sample.B1)
     = [Byte.xd9; Byte.xb4; Byte.xbe; Byte.xf9]
  /\ firstn 32 (skipn 12 (block.Serialize sample.B1))
     = sha256.Sum256 (block.headerBytes (block.Header sample.B0)).
Proof.
  assert (Hsize : Z.of_nat (length (block.blockData sample.B1)) < 2 ^ 32)
    by (vm_compute; reflexivity).
  assert (Hprev : block.PrevBlockHash (block.Header sample.B1)
                  = block.Hash sample.B0) by (vm_compute; reflexivity).
  split; [exact Hsize|]. split; [exact Hprev|].
  destruct (Serialize_frames_the_block sample.B1 Hsize) as (H1 & _ & _ & _ & H5).
  split; [exact H1 | exact (H5 sample.B0 Hprev)].
Defined.

(** * The mock verifier (api) *)

(** X25. What [AddMockInquiry] stores is what the mock client finds: the
    inquiry under its id, the other ids as before; the stored inquiry is
    verified exactly for its own names and a status completed or
    approved; a client without inquiries answers [inquiry not found]. *)
Theorem mock_inquiry_round_trip now m id status first last :
  let m' := api.AddMockInquiry now m id status first last in
  api.MockGetInquiry m' id
  = inl (api.mkInquiry "inquiry" id status now now first last)
  /\ (forall other, other <> id ->
        api.MockGetInquiry m' other = api.MockGetInquiry m other)
  /\ (forall name surname,
        api.verified (api.MockVerifyIdentity m' id name surname) = true
        <-> (status = "completed" \/ status = "approved")
            /\ first = name /\ last = surname)
  /\ (forall name surname,
        api.MockVerifyIdentity api.NewMockPersonaClient id name surname
        = (None, Some "inquiry not found")).
Proof.
  intros m'. subst m'. unfold api.MockGetInquiry, api.AddMockInquiry.
  cbn [api.mockData].
  split; [now rewrite lookup_insert_eq|].
  split; [intros other Hne; now rewrite lookup_insert_ne|].
  split.
  - intros name surname. rewrite mock_verified. cbn [api.mockData].
    rewrite lookup_insert_eq. split.
    + intros (inquiry & [= <-] & Hs & Hf & Hl). auto.
    + intros (Hs & Hf & Hl). eexists. split; [reflexivity|]. auto.
  - intros name surname. reflexivity.
Qed.

Lemma mock_inquiry_round_trip_witness :
  "inq-2" <> "inq-1"
  /\ api.MockGetInquiry sample.mock "inq-2"
     = api.MockGetInquiry api.NewMockPersonaClient "inq-2".
Proof.
  assert (Hne : "inq-2" <> "inq-1") by discriminate.
  split; [exact Hne|].
  exact (proj1 (proj2 (mock_inquiry_round_trip sample.now api.NewMockPersonaClient
                         "inq-1" "completed" "Alice" "Doe")) "inq-2" Hne).
Defined.

(** * What a submission does to the node (server.go) *)

Lemma AddTransaction_outcome V now bc tx bc' e :
  blockchain.AddTransaction V now bc tx = (bc', e) ->
  (e = None
   /\ bc' = blockchain.setPool bc (blockchain.miningPool bc ++ [tx])
   /\ blockchain.inquiryExists bc (transaction.InquiryID tx) = false
   /\ transaction.Validate now tx = None)
  \/ (e <> None /\ bc' = bc).
Proof.
  unfold blockchain.AddTransaction.
  destruct (transaction.Validate now tx) eqn:Hv;
    [intros [= <- <-]; right; split; [discriminate|reflexivity]|].
  destruct (transaction.VerifySignature V tx);
    [intros [= <- <-]; right; split; [discriminate|reflexivity]|].
  destruct (blockchain.inquiryExists bc (transaction.InquiryID tx)) eqn:Hi;
    [intros [= <- <-]; right; split; [discriminate|reflexivity]|].
  destruct (existsb _ _);
    [intros [= <- <-]; right; split; [discriminate|reflexivity]|].
  intros [= <- <-]. left. auto.
Qed.

(** X26. A submission changes the node only when it is answered with status
    200: then the transaction built from it, and nothing else, has been
    appended to the pool, after it passed [Validate] at both readings of
    the clock, the signature check and the identity check, and its
    inquiry was not known. Every other answer is a 400 or a 500 (or the
    panic on a verifier that answers neither a result nor an error) and
    leaves the node as it was. *)
Theorem submission_changes_the_node_only_on_200
    V personaClient now later bc body bc' response :
  server.handleSubmitCertification V personaClient now later bc body
  = (bc', response) ->
  (exists req result,
     body = Some req
     /\ response = Some (server.mkResponse 200
                           (server.successBody
                              (transaction.ID (server.submitted now req))))
     /\ bc' = blockchain.setPool bc
                (blockchain.miningPool bc ++ [server.submitted now req])
     /\ transaction.Validate now (server.submitted now req) = None
     /\ transaction.VerifySignature V (server.submitted now req) = None
     /\ personaClient (server.InquiryID req) (server.Name req) (server.Surname req)
        = (Some result, None)
     /\ api.Verified result = true
     /\ blockchain.inquiryExists bc (server.InquiryID req) = false
     /\ transaction.Validate later (server.submitted now req) = None)
  \/ (bc' = bc
      /\ (response = None
          \/ exists msg, response = Some (server.httpError msg 400)
                         \/ response = Some (server.httpError msg 500))).
Proof.
  unfold server.handleSubmitCertification.
  destruct body as [req|];
    [|intros [= <- <-]; right; split; [reflexivity|]; right; eexists; now left].
  fold (server.submitted now req).
  destruct (transaction.Validate now (server.submitted now req)) eqn:Hv;
    [intros [= <- <-]; right; split; [reflexivity|]; right; eexists; now left|].
  destruct (transaction.VerifySignature V (server.submitted now req)) eqn:Hs;
    [intros [= <- <-]; right; split; [reflexivity|]; right; eexists; now left|].
  destruct (personaClient _ _ _) as [[result|] [err|]] eqn:Hp;
    try (intros [= <- <-]; right; split; [reflexivity|];
         (now left) || (right; eexists; now left)).
  destruct (api.Verified result) eqn:Hr; cbn [negb];
    [|intros [= <- <-]; right; split; [reflexivity|]; right; eexists; now left].
  destruct (blockchain.AddTransaction V later bc (server.submitted now req))
    as [bc1 [e|]] eqn:Ha;
    destruct (AddTransaction_outcome _ _ _ _ _ _ Ha)
      as [(He & Hbc & Hi & Hl)|(He & Hbc)];
    try discriminate He; try (now contradiction He).
  - intros [= <- <-]. right. split; [exact Hbc|]. right. eexists. now right.
  - intros [= <- <-]. left. exists req, result. repeat split; assumption.
Qed.

Lemma submission_changes_the_node_only_on_200_witness :
  server.handleSubmitCertification sample.acceptAll sample.vouch sample.now
    sample.answered (blockchain.empty sample.healthy) (Some sample.reqE1)
  = (sample.afterE1,
     Some (server.mkResponse 200
             (server.successBody
                (transaction.ID (server.submitted sample.now sample.reqE1)))))
  /\ blockchain.miningPool sample.afterE1
     = [server.submitted sample.now sample.reqE1].
Proof.
  assert (H : server.handleSubmitCertification sample.acceptAll sample.vouch
                sample.now sample.answered (blockchain.empty sample.healthy)
                (Some sample.reqE1)
              = (sample.afterE1,
                 Some (server.mkResponse 200
                         (server.successBody
                            (transaction.ID
                               (server.submitted sample.now sample.reqE1))))))
    by (vm_compute; reflexivity).
  split; [exact H|].
  destruct (submission_changes_the_node_only_on_200 _ _ _ _ _ _ _ _ H)
    as [(req & result & [= <-] & _ & -> & _)|(_ & [Hr|[msg [Hr|Hr]]])].
  - reflexivity.
  - discriminate Hr.
  - discriminate Hr.
  - discriminate Hr.
Defined.

Lemma persona_answers GetInquiry formatTime at_ id name surname :
  api.VerifyIdentity GetInquiry formatTime at_ id name surname <> (None, None)
  /\ forall result,
       api.VerifyIdentity GetInquiry formatTime at_ id name surname
       = (Some result, None) -> api.Verified result = true.
Proof.
  unfold api.VerifyIdentity. destruct (GetInquiry id) as [inquiry|err];
    [|split; [discriminate | intros result H; discriminate H]].
  destruct (negb _ && negb _); [split; [discriminate | intros r H; discriminate H]|].
  destruct (negb _ && negb _ && _);
    [split; [discriminate | intros r H; discriminate H]|].
  destruct (_ <? _); [split; [discriminate | intros r H; discriminate H]|].
  split; [discriminate|]. intros r [= <-]. reflexivity.
Qed.

Lemma mock_answers m id name surname :
  api.MockVerifyIdentity m id name surname <> (None, None).
Proof.
  unfold api.MockVerifyIdentity. destruct (api.MockGetInquiry m id);
    [|discriminate].
  destruct (_ && _); discriminate.
Qed.

(** X27. With either client of package [api] the handler always writes an
    answer: neither client answers without a result and without an
    error, so the nil result is never dereferenced. With the live client
    the answer is never [Identity not verified]: that client reports
    every refusal as an error. *)
Theorem handler_answers_with_either_client V now later bc body :
  (forall GetInquiry formatTime at_,
     let answer :=
       snd (server.handleSubmitCertification V
              (api.VerifyIdentity GetInquiry formatTime at_) now later bc
              body) in
     answer <> None
     /\ answer <> Some (server.httpError "Identity not verified" 400))
  /\ (forall m,
        snd (server.handleSubmitCertification V (api.MockVerifyIdentity m)
               now later bc body) <> None).
Proof.
  split.
  - intros GetInquiry formatTime at_ answer. subst answer.
    unfold server.handleSubmitCertification.
    destruct body as [req|]; [|split; discriminate].
    destruct (transaction.Validate _ _); [split; discriminate|].
    destruct (transaction.VerifySignature _ _); [split; discriminate|].
    destruct (persona_answers GetInquiry formatTime at_ (server.InquiryID req)
                (server.Name req) (server.Surname req)) as [Hnn Hver].
    destruct (api.VerifyIdentity _ _ _ _ _ _) as [[result|] [err|]];
      try (split; discriminate); [|now contradiction Hnn].
    rewrite (Hver result eq_refl). cbn [negb].
    destruct (blockchain.AddTransaction _ _ _ _) as [bc1 [e|]]; split; discriminate.
  - intros m. unfold server.handleSubmitCertification.
    destruct body as [req|]; [|discriminate].
    destruct (transaction.Validate _ _); [discriminate|].
    destruct (transaction.VerifySignature _ _); [discriminate|].
    pose proof (mock_answers m (server.InquiryID req) (server.Name req)
                  (server.Surname req)) as Hnn.
    destruct (api.MockVerifyIdentity _ _ _ _) as [[result|] [err|]];
      try discriminate; [|now contradiction Hnn].
    destruct (negb _); [discriminate|].
    destruct (blockchain.AddTransaction _ _ _ _) as [bc1 [e|]]; discriminate.
Qed.
